(** * Cassiopeia: the scheduled synchronization core

    A shallow embedding of the Go services of the repository
    (cache-aside store, durable repositories, ISS and NASA
    synchronization services, their workers, the debug handlers and
    the scheduler), and the properties of the specification that are
    settled against it.

    Conventions of the embedding.
    - [time.Time] is the number of seconds since the Unix epoch (a [Z]);
      [time.Duration] is a number of seconds.
    - [float64] is Rocq's primitive binary64 type; [math.Sqrt] is the
      primitive square root.  [math.Sin], [math.Cos], [math.Atan2] and
      the scanners of [fmt] and [time] are functions of Go's library:
      they are the fields of [GoLib], which the code takes as given.
    - A value held by Redis is modelled by the Go value whose text it
      is ([CVal]); [json.Unmarshal] into a destination of another
      shape is an error.
    - Every Go method that touches Redis, the database or an upstream
      API is a function of the behaviour of these collaborators during
      the call ([Env]) and of the state they hold ([World]), which it
      returns updated.  [log.Printf] appends to [logged]; a call of a
      Source Client appends to [upstream].
    - The database is reached through an ORM.  The columns are filled
      as the tags of the models declare; what the ORM writes into the
      column of OSDR items it tracks under the name [UpdatedAt] is a
      parameter of [Env]. *)

From Stdlib Require Import ZArith Floats Uint63 List Bool Lia Sorted.
From stdpp Require Import gmap strings list pretty.

#[local] Set Warnings "-inexact-float".

Local Open Scope string_scope.
Local Open Scope list_scope.
Local Open Scope Z_scope.

(** ** Go values *)

(** [error]: the failures the collaborators produce, and [fmt.Errorf]
    with [%w]. *)
Inductive error : Type :=
  | ErrRedis                      (* the cache store is unreachable *)
  | ErrDB                         (* the database is unreachable *)
  | ErrRecordNotFound             (* gorm.ErrRecordNotFound *)
  | ErrDuplicateKey               (* a primary key or unique index is violated *)
  | ErrUpstream (msg : string)    (* a Source Client failed *)
  | ErrJSON                       (* json.Unmarshal / json.Marshal failed *)
  | Wrap (msg : string) (e : error).

Inductive Res (A : Type) : Type :=
  | Ok (a : A)
  | Err (e : error).
Arguments Ok {A} a.
Arguments Err {A} e.

(** The value of [interface{}] after [json.Unmarshal]. *)
#[warnings="-register-all"]
Inductive JVal : Type :=
  | JNull
  | JBool (b : bool)
  | JNum (f : float)
  | JStr (s : string)
  | JArr (l : list JVal)
  | JObj (m : list (string * JVal)).

(** [map[string]interface{}] *)
Definition JMap : Type := list (string * JVal).

(** [val, ok := data[key]] *)
Fixpoint map_index (data : JMap) (key : string) : option JVal :=
  match data with
  | [] => None
  | (k, v) :: rest => if String.eqb k key then Some v else map_index rest key
  end.

Abbreviation Time := Z (only parsing).
Abbreviation Duration := Z (only parsing).

(** [time.Time{}], the zero value gorm tests with [IsZero]: year 1 in
    Unix seconds. *)
Definition zero_time : Time := -62135596800.

(** [float64(d)] for a count of seconds. *)
Definition float_of_Z (z : Z) : float :=
  match z with
  | Z0 => 0%float
  | Zpos _ => PrimFloat.of_uint63 (Uint63.of_Z z)
  | Zneg _ => PrimFloat.opp (PrimFloat.of_uint63 (Uint63.of_Z (- z)))
  end.

(** What the code takes from Go's library. *)
Record GoLib : Type := {
  math_Sin : float -> float;
  math_Cos : float -> float;
  math_Atan2 : float -> float -> float;
  (* fmt.Sscanf(v, "%f", &f): the scanned value, or None on an error *)
  fmt_Sscanf_f : string -> option float;
  (* time.Parse(time.RFC3339, v) *)
  time_Parse_RFC3339 : string -> option Time;
  (* time.Unix(int64(v), 0) *)
  int64_of_float : float -> Z
}.

(** ** Models of the stored entities *)

Record ISSLog : Type := {
  log_ID : Z;
  log_FetchedAt : Time;
  log_SourceURL : string;
  log_Payload : JVal;
  log_CreatedAt : Time;
  log_UpdatedAt : Time
}.

Record ISSTrend : Type := {
  Movement : bool;
  DeltaKm : float;
  DtSec : float;
  VelocityKmh : option float;
  FromTime : option Time;
  ToTime : option Time;
  FromLat : option float;
  FromLon : option float;
  ToLat : option float;
  ToLon : option float
}.

(** [models.ISSTrend{}] *)
Definition ISSTrend_zero : ISSTrend :=
  {| Movement := false; DeltaKm := 0%float; DtSec := 0%float;
     VelocityKmh := None; FromTime := None; ToTime := None;
     FromLat := None; FromLon := None; ToLat := None; ToLon := None |}.

Record OSDRItem : Type := {
  ID : N;                      (* uuid.UUID; 0 is uuid.Nil *)
  DatasetID : string;
  Title : string;
  Status : string;
  UpdatedAt : option Time;
  InsertedAt : Time;
  Raw : JVal;
  CreatedAt : Time
}.

(** ** The collaborators *)

(** A value under a Redis key. *)
Inductive CVal : Type :=
  | CStr (s : string)
  | CJSON (v : JVal)
  | CTrend (t : ISSTrend)
  | CLogs (l : list ISSLog)
  | CItems (l : list OSDRItem)
  | CDocs (l : list JMap).

(** A call of a Source Client. *)
Inductive Call : Type :=
  | CallISS
  | CallOSDR
  | CallAPOD (date : string)
  | CallNEO (days : Z)
  | CallDONKI (eventType : string) (days : Z).

Record World : Type := {
  redis : gmap string (CVal * option Time);   (* value and expiry *)
  iss_logs : list ISSLog;                     (* table iss_logs *)
  osdr_items : list OSDRItem;                 (* table osdr_items *)
  upstream : list Call;                       (* calls made so far *)
  logged : list string                        (* lines written by log *)
}.

(** The collaborators during one invocation: the time, whether Redis
    answers a read and a write of each key, whether the database
    answers, and what each Source Client returns. *)
Record Env : Type := {
  now : Time;
  redis_read_up : string -> bool;
  redis_write_up : string -> bool;
  db_up : bool;
  (* what the ORM writes into a column it tracks under the name
     UpdatedAt, from the value the caller set: when it inserts the
     row and when it updates it (as the caller set it, or the time
     of the write) *)
  orm_UpdatedAt_insert : option Time -> option Time;
  orm_UpdatedAt_update : option Time -> option Time;
  iss_api : Res JMap;
  osdr_api : Res (list JMap);
  apod_api : Res JMap;
  neo_api : Res JMap;
  donki_api : Res (list JMap)
}.

Definition set_redis (r : gmap string (CVal * option Time)) (w : World) : World :=
  {| redis := r; iss_logs := iss_logs w; osdr_items := osdr_items w;
     upstream := upstream w; logged := logged w |}.

Definition set_iss_logs (l : list ISSLog) (w : World) : World :=
  {| redis := redis w; iss_logs := l; osdr_items := osdr_items w;
     upstream := upstream w; logged := logged w |}.

Definition set_osdr_items (l : list OSDRItem) (w : World) : World :=
  {| redis := redis w; iss_logs := iss_logs w; osdr_items := l;
     upstream := upstream w; logged := logged w |}.

(** The Source Client is entered: the call is recorded. *)
Definition call (c : Call) (w : World) : World :=
  {| redis := redis w; iss_logs := iss_logs w; osdr_items := osdr_items w;
     upstream := upstream w ++ [c]; logged := logged w |}.

(** [log.Println] / [log.Printf] *)
Definition log (line : string) (w : World) : World :=
  {| redis := redis w; iss_logs := iss_logs w; osdr_items := osdr_items w;
     upstream := upstream w; logged := logged w ++ [line] |}.

(** ** internal/repository/cache_repository.go *)

Module Cache.

(** The reply of [r.client.Get(ctx, key).Result()]. *)
Inductive reply : Type :=
  | Val (v : CVal)
  | Nil                       (* redis.Nil: the key is missing or expired *)
  | Fail (e : error).

Definition live (t : Time) (expiry : option Time) : bool :=
  match expiry with
  | None => true
  | Some e => t <? e
  end.

Definition client_Get (env : Env) (key : string) (w : World) : reply :=
  if redis_read_up env key then
    match redis w !! key with
    | Some (v, expiry) => if live (now env) expiry then Val v else Nil
    | None => Nil
    end
  else Fail ErrRedis.

(** [r.client.Set(ctx, key, v, expiration).Err()]: an expiration that
    is not positive stores the key without an expiry. *)
Definition client_Set (env : Env) (key : string) (v : CVal)
    (expiration : Duration) (w : World) : option error * World :=
  if redis_write_up env key then
    let expiry := if 0 <? expiration then Some (now env + expiration) else None in
    (None, set_redis (<[key := (v, expiry)]> (redis w)) w)
  else (Some ErrRedis, w).

(** The string [Get] returns: [None] stands for the empty string. *)
Definition text (v : CVal) : option CVal :=
  match v with
  | CStr "" => None
  | _ => Some v
  end.

Definition Get (env : Env) (key : string) (w : World) : Res (option CVal) :=
  match client_Get env key w with
  | Nil => Ok None            (* the key is not found: not an error *)
  | Val v => Ok (text v)
  | Fail e => Err e
  end.

(** [Set] of the source ([Set] is reserved in Rocq). *)
Definition Set_ (env : Env) (key : string) (v : CVal)
    (expiration : Duration) (w : World) : option error * World :=
  client_Set env key v expiration w.

(** [GetJSON(ctx, key, dest)]: [unmarshal] is [json.Unmarshal] into
    the destination's type.  [Ok None] is the nil error that leaves
    [dest] untouched (the key is missing). *)
Definition GetJSON {A : Type} (unmarshal : CVal -> Res A)
    (env : Env) (key : string) (w : World) : Res (option A) :=
  match client_Get env key w with
  | Fail e => Err e
  | Nil => Ok None
  | Val v =>
      match unmarshal v with
      | Ok a => Ok (Some a)
      | Err e => Err e
      end
  end.

(** [SetJSON(ctx, key, value, expiration)]: [marshalled] is the
    result of [json.Marshal(value)]. *)
Definition SetJSON (env : Env) (key : string) (marshalled : Res CVal)
    (expiration : Duration) (w : World) : option error * World :=
  match marshalled with
  | Err e => (Some (Wrap "failed to marshal value" e), w)
  | Ok jsonData => client_Set env key jsonData expiration w
  end.

End Cache.

(** [json.Unmarshal] into the destinations the services use.  The JSON
    text [null] leaves any destination untouched. *)
Definition unmarshal_trend (v : CVal) : Res ISSTrend :=
  match v with
  | CTrend t => Ok t
  | CJSON JNull => Ok ISSTrend_zero
  | _ => Err ErrJSON
  end.

Definition unmarshal_logs (v : CVal) : Res (list ISSLog) :=
  match v with
  | CLogs l => Ok l
  | CJSON JNull => Ok []
  | _ => Err ErrJSON
  end.

Definition unmarshal_items (v : CVal) : Res (list OSDRItem) :=
  match v with
  | CItems l => Ok l
  | CJSON JNull => Ok []
  | _ => Err ErrJSON
  end.

(** Into [map[string]interface{}]: [None] is the nil map. *)
Definition unmarshal_map (v : CVal) : Res (option JMap) :=
  match v with
  | CJSON (JObj m) => Ok (Some m)
  | CJSON JNull => Ok None
  | _ => Err ErrJSON
  end.

(** Into [[]map[string]interface{}]: [None] is the nil slice. *)
Definition unmarshal_docs (v : CVal) : Res (option (list JMap)) :=
  match v with
  | CDocs l => Ok (Some l)
  | CJSON JNull => Ok None
  | _ => Err ErrJSON
  end.

(** [json.Unmarshal(payload, &data)] of a jsonb payload. *)
Definition unmarshal_payload (p : JVal) : Res JMap :=
  match p with
  | JObj m => Ok m
  | JNull => Ok []
  | _ => Err ErrJSON
  end.

(** [json.Marshal] of a decoded document: the payload is identified
    with the document it encodes. *)
Definition json_Marshal (data : JMap) : Res JVal := Ok (JObj data).

(** ** Query helpers of the ORM *)

Section OrderBy.
Context {A : Type} (before : A -> A -> bool).

Fixpoint insert_ordered (x : A) (l : list A) : list A :=
  match l with
  | [] => [x]
  | y :: l' => if before x y then x :: y :: l' else y :: insert_ordered x l'
  end.

(** [Order(...)]: the rows in the order of the clause. *)
Fixpoint order_by (l : list A) : list A :=
  match l with
  | [] => []
  | x :: l' => insert_ordered x (order_by l')
  end.
End OrderBy.

(** [Limit(n)]: gorm leaves the clause out when [n] is not positive. *)
Definition Limit {A : Type} (n : Z) (l : list A) : list A :=
  if 0 <? n then firstn (Z.to_nat n) l else l.

(** [Offset(n)] *)
Definition Offset {A : Type} (n : Z) (l : list A) : list A :=
  if 0 <? n then skipn (Z.to_nat n) l else l.

(** Go's [int] arithmetic wraps around at 64 bits. *)
Definition wrap64 (z : Z) : Z := (z + 2 ^ 63) mod 2 ^ 64 - 2 ^ 63.

(** ** internal/repository/iss_repository.go *)

Module ISSRepository.

(** [Order("fetched_at DESC")] *)
Definition fetched_at_desc (a b : ISSLog) : bool :=
  log_FetchedAt b <=? log_FetchedAt a.

Definition next_ID (tbl : list ISSLog) : Z :=
  1 + fold_right Z.max 0 (map log_ID tbl).

(** [r.db.WithContext(ctx).Create(log)]: the primary key is assigned
    when it is zero, [autoCreateTime] and [autoUpdateTime] fill the
    zero times. *)
Definition Create (env : Env) (l : ISSLog) (w : World) : option error * World :=
  if db_up env then
    let tbl := iss_logs w in
    let id := if log_ID l =? 0 then next_ID tbl else log_ID l in
    if existsb (fun r => log_ID r =? id) tbl then (Some ErrDuplicateKey, w)
    else
      let row :=
        {| log_ID := id;
           log_FetchedAt := log_FetchedAt l;
           log_SourceURL := log_SourceURL l;
           log_Payload := log_Payload l;
           log_CreatedAt :=
             if log_CreatedAt l =? zero_time then now env else log_CreatedAt l;
           log_UpdatedAt :=
             if log_UpdatedAt l =? zero_time then now env else log_UpdatedAt l |} in
      (None, set_iss_logs (tbl ++ [row]) w)
  else (Some ErrDB, w).

Definition GetLast (env : Env) (w : World) : Res ISSLog :=
  if db_up env then
    match order_by fetched_at_desc (iss_logs w) with
    | l :: _ => Ok l
    | [] => Err ErrRecordNotFound
    end
  else Err ErrDB.

Definition GetLastN (env : Env) (n : Z) (w : World) : Res (list ISSLog) :=
  if db_up env then Ok (Limit n (order_by fetched_at_desc (iss_logs w)))
  else Err ErrDB.

Definition GetSince (env : Env) (since : Time) (w : World) : Res (list ISSLog) :=
  if db_up env then
    Ok (order_by fetched_at_desc
          (List.filter (fun l => since <=? log_FetchedAt l) (iss_logs w)))
  else Err ErrDB.

End ISSRepository.

(** ** internal/repository: the OSDR repository *)

Module OSDRRepository.

Definition next_ID (tbl : list OSDRItem) : N :=
  (1 + fold_right N.max 0 (map ID tbl))%N.

Definition with_identity (id : N) (created : Time) (item : OSDRItem) : OSDRItem :=
  {| ID := id; DatasetID := DatasetID item; Title := Title item;
     Status := Status item; UpdatedAt := UpdatedAt item;
     InsertedAt := InsertedAt item; Raw := Raw item; CreatedAt := created |}.

(** [tx.Where("dataset_id = ?", k).First(&existing)] *)
Definition First_by_dataset_id (k : string) (tbl : list OSDRItem) : Res OSDRItem :=
  match List.find (fun r => String.eqb (DatasetID r) k) tbl with
  | Some r => Ok r
  | None => Err ErrRecordNotFound
  end.

(** [tx.Create(&item)]: the database generates the identity of a
    record that has none ([default:uuid_generate_v4()]) and the
    insertion time ([default:now()]); [autoCreateTime] fills a zero
    creation time; [UpdatedAt] is written as the ORM tracks it.  The
    primary key and the unique index on [dataset_id] are enforced. *)
Definition Create (env : Env) (item : OSDRItem) (tbl : list OSDRItem)
    : Res (list OSDRItem) :=
  let id := if (ID item =? 0)%N then next_ID tbl else ID item in
  if existsb (fun r => (ID r =? id)%N || String.eqb (DatasetID r) (DatasetID item)) tbl
  then Err ErrDuplicateKey
  else
    Ok (tbl ++
        [ {| ID := id; DatasetID := DatasetID item; Title := Title item;
             Status := Status item;
             UpdatedAt := orm_UpdatedAt_insert env (UpdatedAt item);
             InsertedAt :=
               if InsertedAt item =? zero_time then now env else InsertedAt item;
             Raw := Raw item;
             CreatedAt :=
               if CreatedAt item =? zero_time then now env else CreatedAt item |} ]).

(** The item as an update writes it. *)
Definition updated (env : Env) (item : OSDRItem) : OSDRItem :=
  {| ID := ID item; DatasetID := DatasetID item; Title := Title item;
     Status := Status item;
     UpdatedAt := orm_UpdatedAt_update env (UpdatedAt item);
     InsertedAt := InsertedAt item; Raw := Raw item; CreatedAt := CreatedAt item |}.

(** [tx.Save(&item)]: every column of the row with the item's
    primary key is overwritten; an item whose key matches no row is
    inserted. *)
Definition Save (env : Env) (item : OSDRItem) (tbl : list OSDRItem)
    : Res (list OSDRItem) :=
  if existsb (fun r => (ID r =? ID item)%N) tbl then
    if existsb (fun r => negb (ID r =? ID item)%N
                         && String.eqb (DatasetID r) (DatasetID item)) tbl
    then Err ErrDuplicateKey
    else Ok (map (fun r => if (ID r =? ID item)%N then updated env item else r) tbl)
  else Create env (updated env item) tbl.

(** The body of the transaction of [BulkUpsert]. *)
Fixpoint upsert_each (env : Env) (items : list OSDRItem) (tbl : list OSDRItem)
    : Res (list OSDRItem) :=
  match items with
  | [] => Ok tbl
  | item :: rest =>
      if String.eqb (DatasetID item) "" then upsert_each env rest tbl
      else
        match First_by_dataset_id (DatasetID item) tbl with
        | Err ErrRecordNotFound =>
            match Create env item tbl with
            | Ok tbl' => upsert_each env rest tbl'
            | Err e => Err e
            end
        | Ok existing =>
            let item' := with_identity (ID existing) (CreatedAt existing) item in
            match Save env item' tbl with
            | Ok tbl' => upsert_each env rest tbl'
            | Err e => Err e
            end
        | Err e => Err e
        end
  end.

(** [r.db.WithContext(ctx).Transaction(func(tx) error {...})]: the
    changes are committed when the body returns nil and rolled back
    otherwise. *)
Definition BulkUpsert (env : Env) (items : list OSDRItem) (w : World)
    : option error * World :=
  if db_up env then
    match upsert_each env items (osdr_items w) with
    | Ok tbl => (None, set_osdr_items tbl w)
    | Err e => (Some e, w)
    end
  else (Some ErrDB, w).

(** [Order("updated_at DESC NULLS LAST, created_at DESC")] *)
Definition updated_desc_nulls_last (a b : OSDRItem) : bool :=
  match UpdatedAt a, UpdatedAt b with
  | Some ta, Some tb =>
      if tb <? ta then true
      else if ta <? tb then false
      else CreatedAt b <=? CreatedAt a
  | Some _, None => true
  | None, Some _ => false
  | None, None => CreatedAt b <=? CreatedAt a
  end.

Definition GetPaginated (env : Env) (page limit : Z) (w : World)
    : Res (list OSDRItem) :=
  let page := if page <? 1 then 1 else page in
  let limit := if (limit <? 1) || (100 <? limit) then 20 else limit in
  let offset := wrap64 ((page - 1) * limit) in
  if db_up env then
    Ok (Limit limit (Offset offset (order_by updated_desc_nulls_last (osdr_items w))))
  else Err ErrDB.

End OSDRRepository.

(** [SetJSON]'s [json.Marshal(value)] of a trend: encoding/json
    refuses a NaN or an infinity. *)
Definition json_number_ok (f : float) : bool :=
  negb (PrimFloat.is_nan f || PrimFloat.is_infinity f).

Definition json_opt_number_ok (f : option float) : bool :=
  match f with
  | Some f => json_number_ok f
  | None => true
  end.

Definition marshal_trend (t : ISSTrend) : Res CVal :=
  if json_number_ok (DeltaKm t) && json_number_ok (DtSec t)
     && json_opt_number_ok (VelocityKmh t)
     && json_opt_number_ok (FromLat t) && json_opt_number_ok (FromLon t)
     && json_opt_number_ok (ToLat t) && json_opt_number_ok (ToLon t)
  then Ok (CTrend t)
  else Err ErrJSON.

(** ** internal/service: the ISS service *)

Module ISSService.

Record issService : Type := { interval : Duration }.

Definition SourceURL : string := "https://api.wheretheiss.at/v1/satellites/25544".

Section WithLibrary.
Variable L : GoLib.

Definition extractFloat (data : JMap) (key : string) : float :=
  match map_index data key with
  | Some (JNum v) => v
  | Some (JStr v) =>
      match fmt_Sscanf_f L v with
      | Some f => f
      | None => 0%float
      end
  | _ => 0%float
  end.

Definition Pi : float := 3.141592653589793%float.

Definition haversineDistance (lat1 lon1 lat2 lon2 : float) : float :=
  let R := 6371%float in
  let fi1 := (lat1 * Pi / 180)%float in
  let fi2 := (lat2 * Pi / 180)%float in
  let deltaFi := ((lat2 - lat1) * Pi / 180)%float in
  let deltaXi := ((lon2 - lon1) * Pi / 180)%float in
  let a :=
    (math_Sin L (deltaFi / 2) * math_Sin L (deltaFi / 2)
     + math_Cos L fi1 * math_Cos L fi2
       * math_Sin L (deltaXi / 2) * math_Sin L (deltaXi / 2))%float in
  let c := (2 * math_Atan2 L (PrimFloat.sqrt a) (PrimFloat.sqrt (1 - a)))%float in
  (R * c)%float.

Definition calculateTrend (current previous : ISSLog) : ISSTrend :=
  match unmarshal_payload (log_Payload current) with
  | Err _ => ISSTrend_zero
  | Ok currentData =>
      match unmarshal_payload (log_Payload previous) with
      | Err _ => ISSTrend_zero
      | Ok previousData =>
          let lat1 := extractFloat previousData "latitude" in
          let lon1 := extractFloat previousData "longitude" in
          let lat2 := extractFloat currentData "latitude" in
          let lon2 := extractFloat currentData "longitude" in
          let velocity := extractFloat currentData "velocity" in
          let deltaKm := haversineDistance lat1 lon1 lat2 lon2 in
          let dtSec := float_of_Z (log_FetchedAt current - log_FetchedAt previous) in
          let movement := (0.1 <? deltaKm)%float in
          let velocityKmh :=
            if (0 <? velocity)%float then Some (velocity * 3.6)%float else None in
          {| Movement := movement;
             DeltaKm := deltaKm;
             DtSec := dtSec;
             VelocityKmh := velocityKmh;
             FromTime := Some (log_FetchedAt previous);
             ToTime := Some (log_FetchedAt current);
             FromLat := Some lat1;
             FromLon := Some lon1;
             ToLat := Some lat2;
             ToLon := Some lon2 |}
      end
  end.

Definition trendKey (limit : Z) : string := "iss:trend:" +:+ pretty limit.

Definition GetTrend (env : Env) (limit : Z) (w : World) : Res ISSTrend * World :=
  let limit := if limit <=? 0 then 240 else limit in
  let cacheKey := trendKey limit in
  match Cache.GetJSON unmarshal_trend env cacheKey w with
  | Ok None => (Ok ISSTrend_zero, w)       (* err == nil: &trend, left untouched *)
  | Ok (Some trend) => (Ok trend, w)       (* err == nil: &trend, decoded *)
  | Err _ =>
      match ISSRepository.GetLastN env 2 w with
      | Err e => (Err (Wrap "failed to get ISS positions" e), w)
      | Ok (current :: previous :: _) =>
          let calculatedTrend := calculateTrend current previous in
          let w :=
            match Cache.SetJSON env cacheKey (marshal_trend calculatedTrend) 30 w with
            | (Some _, w) => log "Failed to cache ISS trend" w
            | (None, w) => w
            end in
          (Ok calculatedTrend, w)
      | Ok _ =>                            (* len(positions) < 2 *)
          (Ok {| Movement := false; DeltaKm := 0%float; DtSec := 0%float;
                 VelocityKmh := None; FromTime := None; ToTime := None;
                 FromLat := None; FromLon := None; ToLat := None; ToLon := None |},
           w)
      end
  end.

End WithLibrary.

Definition FetchAndStoreISSData (s : issService) (env : Env) (w : World)
    : option error * World :=
  let cacheKey := "iss:last_fetch" in
  match Cache.Get env cacheKey w with
  | Ok (Some _) => (None, w)                 (* err == nil && cached != "" *)
  | _ =>
      let w := log "Fetching ISS data from external API..." w in
      let w := call CallISS w in
      match iss_api env with
      | Err e => (Some (Wrap "failed to fetch ISS data" e), w)
      | Ok data =>
          match json_Marshal data with
          | Err e => (Some (Wrap "failed to marshal ISS data" e), w)
          | Ok payload =>
              let issLog :=
                {| log_ID := 0; log_FetchedAt := now env; log_SourceURL := SourceURL;
                   log_Payload := payload;
                   log_CreatedAt := zero_time; log_UpdatedAt := zero_time |} in
              match ISSRepository.Create env issLog w with
              | (Some e, w) => (Some (Wrap "failed to save ISS data to DB" e), w)
              | (None, w) =>
                  let lastCacheKey := "iss:last_position" in
                  let w :=
                    match Cache.Set_ env lastCacheKey (CJSON payload) 120 w with
                    | (Some _, w) => log "Failed to cache ISS data" w
                    | (None, w) => w
                    end in
                  let w :=
                    match Cache.Set_ env cacheKey (CStr "1") (interval s) w with
                    | (Some _, w) => log "Failed to set fetch lock" w
                    | (None, w) => w
                    end in
                  (None, log "ISS data fetched and stored" w)
              end
          end
      end
  end.

Definition GetLastPosition (env : Env) (w : World) : Res ISSLog * World :=
  let cacheKey := "iss:last_position" in
  let from_db :=
    match ISSRepository.GetLast env w with
    | Err e => (Err (Wrap "failed to get last ISS position" e), w)
    | Ok issLog =>
        let w :=
          match Cache.Set_ env cacheKey (CJSON (log_Payload issLog)) 120 w with
          | (Some _, w) => log "Failed to cache ISS data" w
          | (None, w) => w
          end in
        (Ok issLog, w)
    end in
  match Cache.Get env cacheKey w with
  | Ok (Some (CJSON cached)) =>
      match unmarshal_payload cached with
      | Ok _ =>
          (Ok {| log_ID := 0; log_FetchedAt := now env; log_SourceURL := SourceURL;
                 log_Payload := cached;
                 log_CreatedAt := zero_time; log_UpdatedAt := zero_time |}, w)
      | Err _ => from_db
      end
  | _ => from_db
  end.

Definition historyKey (hours : Z) : string := "iss:history:" +:+ pretty hours +:+ "h".

(** [time.Now().UTC().Add(-time.Duration(hours) * time.Hour)]: the
    product is a count of nanoseconds that wraps around at 64 bits;
    the bound is taken up to the next whole second, which selects the
    same rows, [fetched_at] being a whole number of seconds. *)
Definition history_since (t : Time) (hours : Z) : Time :=
  let d := wrap64 (wrap64 (- hours) * 3600000000000) in
  t - (- d) / 1000000000.

Definition GetPositionsHistory (env : Env) (hours : Z) (w : World)
    : Res (list ISSLog) * World :=
  let hours := if hours <=? 0 then 24 else hours in
  let cacheKey := historyKey hours in
  match Cache.GetJSON unmarshal_logs env cacheKey w with
  | Ok (Some (p :: positions)) => (Ok (p :: positions), w)   (* len(positions) > 0 *)
  | _ =>
      match ISSRepository.GetSince env (history_since (now env) hours) w with
      | Err e => (Err (Wrap "failed to get ISS history" e), w)
      | Ok positions =>
          let w :=
            match positions with
            | [] => w
            | _ =>
                match Cache.SetJSON env cacheKey (Ok (CLogs positions)) 300 w with
                | (Some _, w) => log "Failed to cache ISS history" w
                | (None, w) => w
                end
            end in
          (Ok positions, w)
      end
  end.

End ISSService.

(** ** internal/service: the NASA service *)

Module NASAService.

(** [extractString(data, keys...)]: the first key that holds a
    non-empty string. *)
Fixpoint extractString (data : JMap) (keys : list string) : string :=
  match keys with
  | [] => ""
  | key :: keys' =>
      match map_index data key with
      | Some (JStr str) =>
          if String.eqb str "" then extractString data keys' else str
      | _ => extractString data keys'
      end
  end.

Section WithLibrary.
Variable L : GoLib.

Fixpoint extractTime_from (data : JMap) (timeKeys : list string) : option Time :=
  match timeKeys with
  | [] => None
  | key :: keys' =>
      match map_index data key with
      | Some (JStr v) =>
          match time_Parse_RFC3339 L v with
          | Some t => Some t
          | None => extractTime_from data keys'
          end
      | Some (JNum v) => Some (int64_of_float L v)
      | _ => extractTime_from data keys'
      end
  end.

Definition extractTime (data : JMap) : option Time :=
  extractTime_from data ["updated_at"; "modified"; "lastUpdated"; "timestamp"].

(** The item [FetchAndStoreOSDR] builds from one upstream document. *)
Definition osdr_item_of (itemData : JMap) : OSDRItem :=
  {| ID := 0%N;
     DatasetID := extractString itemData ["dataset_id"; "id"; "uuid"];
     Title := extractString itemData ["title"; "name"; "label"];
     Status := extractString itemData ["status"; "state"; "lifecycle"];
     UpdatedAt := extractTime itemData;
     InsertedAt := zero_time;
     Raw := JObj itemData;
     CreatedAt := zero_time |}.

Definition FetchAndStoreOSDR (env : Env) (w : World) : option error * World :=
  let cacheKey := "nasa:osdr:last_fetch" in
  match Cache.Get env cacheKey w with
  | Ok (Some _) => (None, w)               (* cached != "" *)
  | _ =>
      let w := log "Fetching NASA OSDR data..." w in
      let w := call CallOSDR w in
      match osdr_api env with
      | Err e => (Some (Wrap "failed to fetch OSDR data" e), w)
      | Ok items =>
          let dbItems := map osdr_item_of items in
          let saved :=
            match dbItems with
            | [] => (None, w)
            | _ => OSDRRepository.BulkUpsert env dbItems w
            end in
          match saved with
          | (Some e, w) => (Some (Wrap "failed to save OSDR data" e), w)
          | (None, w) =>
              let w := snd (Cache.Set_ env cacheKey (CStr "1") 600 w) in
              (None, log "OSDR data updated" w)
          end
      end
  end.

End WithLibrary.

Definition FetchAndStoreAPOD (env : Env) (w : World) : option error * World :=
  let cacheKey := "nasa:apod:today" in
  let w := log "Fetching NASA APOD..." w in
  let w := call (CallAPOD "") w in
  match apod_api env with
  | Err e => (Some (Wrap "failed to fetch APOD" e), w)
  | Ok apod =>
      match Cache.SetJSON env cacheKey (Ok (CJSON (JObj apod))) 86400 w with
      | (Some e, w) => (Some e, log "Failed to cache APOD" w)
      | (None, w) => (None, log "APOD data cached successfully" w)
      end
  end.

Definition FetchAndStoreNEO (env : Env) (w : World) : option error * World :=
  let cacheKey := "nasa:neo:last_week" in
  let w := log "Fetching NEO data..." w in
  let w := call (CallNEO 7) w in
  match neo_api env with
  | Err e => (Some (Wrap "failed to fetch NEO data" e), w)
  | Ok neoData =>
      match Cache.SetJSON env cacheKey (Ok (CJSON (JObj neoData))) 7200 w with
      | (Some e, w) => (Some e, log "Failed to cache NEO data" w)
      | (None, w) => (None, log "NEO data cached successfully" w)
      end
  end.

Definition osdrListKey (page limit : Z) : string :=
  "nasa:osdr:list:" +:+ pretty page +:+ ":" +:+ pretty limit.

Definition GetOSDRList (env : Env) (page limit : Z) (w : World)
    : Res (list OSDRItem) * World :=
  let page := if page <? 1 then 1 else page in
  let limit := if (limit <? 1) || (100 <? limit) then 20 else limit in
  let cacheKey := osdrListKey page limit in
  match Cache.GetJSON unmarshal_items env cacheKey w with
  | Ok (Some (item :: items)) => (Ok (item :: items), w)   (* len(items) > 0 *)
  | _ =>
      match OSDRRepository.GetPaginated env page limit w with
      | Err e => (Err (Wrap "failed to get OSDR list" e), w)
      | Ok items =>
          let w :=
            match Cache.SetJSON env cacheKey (Ok (CItems items)) 300 w with
            | (Some _, w) => log "Failed to cache OSDR list" w
            | (None, w) => w
            end in
          (Ok items, w)
      end
  end.

(** [None] is the nil map. *)
Definition GetLatestAPOD (env : Env) (w : World) : Res (option JMap) * World :=
  let cacheKey := "nasa:apod:today" in
  match Cache.GetJSON unmarshal_map env cacheKey w with
  | Ok (Some (Some apodData)) => (Ok (Some apodData), w)
  | _ =>
      (* not in the cache: fetch fresh data *)
      match FetchAndStoreAPOD env w with
      | (Some e, w) => (Err e, w)
      | (None, w) =>
          match Cache.GetJSON unmarshal_map env cacheKey w with
          | Err e => (Err (Wrap "failed to get APOD data" e), w)
          | Ok None => (Ok None, w)
          | Ok (Some apodData) => (Ok apodData, w)
          end
      end
  end.

Definition neoKey (days : Z) : string := "nasa:neo:" +:+ pretty days +:+ "d".

Definition GetLatestNEO (env : Env) (days : Z) (w : World)
    : Res (option JMap) * World :=
  let days := if (days <? 1) || (30 <? days) then 7 else days in
  let cacheKey := neoKey days in
  match Cache.GetJSON unmarshal_map env cacheKey w with
  | Ok (Some (Some neoData)) => (Ok (Some neoData), w)
  | _ =>
      match FetchAndStoreNEO env w with
      | (Some e, w) => (Err e, w)
      | (None, w) =>
          match Cache.GetJSON unmarshal_map env cacheKey w with
          | Err e => (Err (Wrap "failed to get NEO data" e), w)
          | Ok None => (Ok None, w)
          | Ok (Some neoData) => (Ok neoData, w)
          end
      end
  end.

Definition GetAPOD (env : Env) (date : string) (w : World) :=
  GetLatestAPOD env w.

Definition GetNEOWatch (env : Env) (days : Z) (w : World) :=
  GetLatestNEO env days w.

Definition donkiKey (eventType : string) (days : Z) : string :=
  "nasa:donki:" +:+ eventType +:+ ":" +:+ pretty days +:+ "d".

Definition GetDONKI (env : Env) (eventType : string) (days : Z) (w : World)
    : Res (list JMap) * World :=
  let days := if (days <? 1) || (30 <? days) then 5 else days in
  let cacheKey := donkiKey eventType days in
  match Cache.GetJSON unmarshal_docs env cacheKey w with
  | Ok (Some (Some cachedEvents)) => (Ok cachedEvents, w)
  | _ =>
      (* from the API *)
      let w := call (CallDONKI eventType days) w in
      match donki_api env with
      | Err e => (Err (Wrap "failed to fetch DONKI data" e), w)
      | Ok events =>
          let w := snd (Cache.SetJSON env cacheKey (Ok (CDocs events)) 3600 w) in
          (Ok events, w)
      end
  end.

End NASAService.

(** ** internal/worker: what a worker runs on each tick *)

Module Worker.

Definition fetchISSData (s : ISSService.issService) (env : Env) (w : World) : World :=
  match ISSService.FetchAndStoreISSData s env w with
  | (Some _, w) => log "ISS Worker error" w
  | (None, w) => log "ISS Worker: data fetched successfully" w
  end.

Definition syncNASA (L : GoLib) (env : Env) (w : World) : World :=
  let w := log "NASA Worker: Starting sync..." w in
  let w :=
    match NASAService.FetchAndStoreOSDR L env w with
    | (Some _, w) => log "NASA Worker OSDR error" w
    | (None, w) => log "NASA Worker: OSDR data synced" w
    end in
  let w :=
    match NASAService.FetchAndStoreAPOD env w with
    | (Some _, w) => log "NASA Worker APOD error" w
    | (None, w) => log "NASA Worker: APOD data updated" w
    end in
  let w :=
    match NASAService.FetchAndStoreNEO env w with
    | (Some _, w) => log "NASA Worker NEO error" w
    | (None, w) => log "NASA Worker: NEO data updated" w
    end in
  log "NASA Worker: Sync completed" w.

End Worker.

(** ** internal/handlers: the manual triggers *)

Module Handlers.

(** [c.JSON(code, gin.H{...})]: the two bodies the handlers send. *)
Inductive Response : Type :=
  (* gin.H{"error": text, "message": err.Error()} *)
  | Failure (code : Z) (text : string) (err : error)
  (* gin.H{"success": true, "message": message} *)
  | Success (code : Z) (message : string).

Definition ForceFetchISS (s : ISSService.issService) (env : Env) (w : World)
    : Response * World :=
  match ISSService.FetchAndStoreISSData s env w with
  | (Some err, w) => (Failure 500 "failed to fetch ISS data" err, w)
  | (None, w) => (Success 200 "ISS data fetched successfully", w)
  end.

Definition ForceSyncOSDR (L : GoLib) (env : Env) (w : World) : Response * World :=
  match NASAService.FetchAndStoreOSDR L env w with
  | (Some err, w) => (Failure 500 "failed to sync OSDR data" err, w)
  | (None, w) => (Success 200 "OSDR data synchronized successfully", w)
  end.

End Handlers.

(** ** internal/worker/scheduler.go *)

Module Scheduler.

(** A worker is known to the scheduler by its identity; its [Start]
    and [Stop] methods are recorded when the scheduler invokes them. *)
Definition Worker : Type := nat.

Record Scheduler : Type := {
  workers : list Worker;
  stopped : bool;
  launched : list Worker;      (* goroutines started: each runs w.Start() *)
  stop_calls : list Worker     (* worker.Stop() calls made *)
}.

Definition NewScheduler : Scheduler :=
  {| workers := []; stopped := false; launched := []; stop_calls := [] |}.

Definition AddWorker (worker : Worker) (s : Scheduler) : Scheduler :=
  {| workers := workers s ++ [worker]; stopped := stopped s;
     launched := launched s; stop_calls := stop_calls s |}.

Definition Start (s : Scheduler) : Scheduler :=
  if stopped s then s
  else
    {| workers := workers s; stopped := stopped s;
       launched := launched s ++ workers s; stop_calls := stop_calls s |}.

(** The outcome of the bounded wait of [Stop]. *)
Inductive outcome : Type :=
  | Graceful                  (* "Scheduler stopped gracefully" *)
  | TimedOut.                 (* "Scheduler stop timeout" *)

(** [done_in_time]: whether every launched goroutine returned within
    the ten seconds of the wait. *)
Definition Stop (done_in_time : bool) (s : Scheduler) : outcome * Scheduler :=
  (if done_in_time then Graceful else TimedOut,
   {| workers := workers s; stopped := true;
      launched := launched s; stop_calls := stop_calls s ++ workers s |}).

Definition IsRunning (s : Scheduler) : bool := negb (stopped s).

(** The calls a client can make once the scheduler exists. *)
Inductive op : Type :=
  | OpAddWorker (worker : Worker)
  | OpStart
  | OpStop (done_in_time : bool).

Definition step (s : Scheduler) (o : op) : Scheduler :=
  match o with
  | OpAddWorker worker => AddWorker worker s
  | OpStart => Start s
  | OpStop d => snd (Stop d s)
  end.

Definition run (ops : list op) (s : Scheduler) : Scheduler :=
  fold_left step ops s.

End Scheduler.

(** * Notions used to state the properties *)

(** ** The table of OSDR items *)

Module OSDRTable.
Import OSDRRepository.

Definition key_is (k : string) (r : OSDRItem) : bool := String.eqb (DatasetID r) k.

(** The records stored under the natural key [k]. *)
Definition rows_with (k : string) (tbl : list OSDRItem) : list OSDRItem :=
  List.filter (key_is k) tbl.

(** A record with a natural key. *)
Definition valid (i : OSDRItem) : bool := negb (String.eqb (DatasetID i) "").

(** The constraints the schema declares: the unique index on
    [dataset_id] and the primary key. *)
Definition wf_table (tbl : list OSDRItem) : Prop :=
  List.NoDup (map DatasetID tbl) /\ List.NoDup (map ID tbl).

(** The key, title, status and raw payload of [r] are those of [i]. *)
Definition same_fields (r i : OSDRItem) : Prop :=
  DatasetID r = DatasetID i /\ Title r = Title i /\ Status r = Status i /\
  Raw r = Raw i.

(** The last record of the batch that carries the key [k]. *)
Fixpoint last_with (k : string) (items : list OSDRItem) : option OSDRItem :=
  match items with
  | [] => None
  | i :: rest =>
      match last_with k rest with
      | Some j => Some j
      | None => if valid i && key_is k i then Some i else None
      end
  end.

(** The row [Create] inserts for a record without identity. *)
Definition created (env : Env) (tbl : list OSDRItem) (item : OSDRItem) : OSDRItem :=
  {| ID := next_ID tbl; DatasetID := DatasetID item; Title := Title item;
     Status := Status item; UpdatedAt := orm_UpdatedAt_insert env (UpdatedAt item);
     InsertedAt := if InsertedAt item =? zero_time then now env else InsertedAt item;
     Raw := Raw item;
     CreatedAt := if CreatedAt item =? zero_time then now env else CreatedAt item |}.

(** The row that stands for [item] after one round of the loop. *)
Definition merged (env : Env) (tbl : list OSDRItem) (item : OSDRItem) : OSDRItem :=
  match List.find (key_is (DatasetID item)) tbl with
  | Some ex => updated env (with_identity (ID ex) (CreatedAt ex) item)
  | None => created env tbl item
  end.

(** One round of the loop of [BulkUpsert], when nothing fails. *)
Definition upsert_one (env : Env) (item : OSDRItem) (tbl : list OSDRItem)
    : list OSDRItem :=
  if valid item then
    match List.find (key_is (DatasetID item)) tbl with
    | Some ex =>
        map (fun r => if (ID r =? ID ex)%N
                      then updated env (with_identity (ID ex) (CreatedAt ex) item)
                      else r) tbl
    | None => tbl ++ [created env tbl item]
    end
  else tbl.

End OSDRTable.

(** ** Example data *)

Module Examples.

Definition position (lat lon : float) : JMap :=
  [("latitude", JNum lat); ("longitude", JNum lon); ("velocity", JNum 7660%float)].

(** Every collaborator answers; the ISS is over [lat], [lon].  The ORM
    keeps the updated-time of a new row when the caller set one, and
    stamps the time of the write otherwise and on every update. *)
Definition over (lat lon : float) (t : Time) : Env :=
  {| now := t; redis_read_up := fun _ => true; redis_write_up := fun _ => true;
     db_up := true;
     orm_UpdatedAt_insert := fun v => match v with Some u => Some u | None => Some t end;
     orm_UpdatedAt_update := fun _ => Some t;
     iss_api := Ok (position lat lon);
     osdr_api := Ok [[("dataset_id", JStr "OSD-1"); ("title", JStr "Rodent research")]];
     apod_api := Ok [("title", JStr "Orion")];
     neo_api := Ok [("element_count", JNum 3%float)];
     donki_api := Ok [] |}.

(** Every collaborator answers; the ISS is over 10N 20E. *)
Definition healthy (t : Time) : Env := over 10 20 t.

(** The database does not answer. *)
Definition db_down (t : Time) : Env :=
  let e := healthy t in
  {| now := now e; redis_read_up := redis_read_up e; redis_write_up := redis_write_up e;
     db_up := false;
     orm_UpdatedAt_insert := orm_UpdatedAt_insert e;
     orm_UpdatedAt_update := orm_UpdatedAt_update e;
     iss_api := iss_api e; osdr_api := osdr_api e; apod_api := apod_api e;
     neo_api := neo_api e; donki_api := donki_api e |}.

(** Redis does not answer. *)
Definition redis_down (t : Time) : Env :=
  let e := healthy t in
  {| now := now e; redis_read_up := fun _ => false; redis_write_up := fun _ => false;
     db_up := db_up e;
     orm_UpdatedAt_insert := orm_UpdatedAt_insert e;
     orm_UpdatedAt_update := orm_UpdatedAt_update e;
     iss_api := iss_api e; osdr_api := osdr_api e; apod_api := apod_api e;
     neo_api := neo_api e; donki_api := donki_api e |}.

(** Nothing cached, nothing stored, nothing called. *)
Definition fresh : World :=
  {| redis := ∅; iss_logs := []; osdr_items := []; upstream := []; logged := [] |}.

(** The library in the examples, none of which reaches the
    trigonometric functions or the scanners. *)
Definition lib : GoLib :=
  {| math_Sin := fun x => x; math_Cos := fun x => x; math_Atan2 := fun y x => y;
     fmt_Sscanf_f := fun _ => None; time_Parse_RFC3339 := fun _ => None;
     int64_of_float := fun _ => 0 |}.

Definition iss : ISSService.issService := {| ISSService.interval := 120 |}.

Definition record (k title status : string) (updated : option Time) : OSDRItem :=
  {| ID := 0%N; DatasetID := k; Title := title; Status := status;
     UpdatedAt := updated; InsertedAt := zero_time; Raw := JObj [("title", JStr title)];
     CreatedAt := zero_time |}.

End Examples.

(** ** Fetch locks, reads and reachable states *)

Module Notions.

(** The test the synchronization services make before they fetch:
    the lock key holds a non-empty value that has not expired, and
    Redis says so. *)
Definition locked (key : string) (env : Env) (w : World) : bool :=
  match Cache.Get env key w with
  | Ok (Some _) => true
  | _ => false
  end.

(** The row of [iss_logs] that one synchronization of the ISS adds. *)
Definition row_of (env : Env) (w : World) (data : JMap) : ISSLog :=
  {| log_ID := ISSRepository.next_ID (iss_logs w);
     log_FetchedAt := now env; log_SourceURL := ISSService.SourceURL;
     log_Payload := JObj data;
     log_CreatedAt := now env; log_UpdatedAt := now env |}.

(** [d] is within one percent of 111. *)
Definition within_1pct_of_111 (d : float) : bool :=
  ((111 - 1.11 <=? d) && (d <=? 111 + 1.11))%float.

(** The neutral trend: no movement, no distance, no optional field. *)
Definition neutral (t : ISSTrend) : Prop :=
  Movement t = false /\ DeltaKm t = 0%float /\
  VelocityKmh t = None /\ FromTime t = None /\ ToTime t = None /\
  FromLat t = None /\ FromLon t = None /\ ToLat t = None /\ ToLon t = None.

(** The keys under which get-trend caches its result. *)
Definition is_trend_key (k : string) : Prop :=
  exists limit, k = ISSService.trendKey limit.

(** A trend is cached only when two positional samples are stored. *)
Definition no_stale_trend (w : World) : Prop :=
  forall k, is_trend_key k -> redis w !! k <> None ->
    (2 <= length (iss_logs w))%nat.

(** [w'] holds the samples of [w] and the same trend keys. *)
Definition trend_frame (w w' : World) : Prop :=
  (length (iss_logs w) <= length (iss_logs w'))%nat /\
  forall k, is_trend_key k -> redis w' !! k = redis w !! k.

(** The operations of the two services, as the workers and the HTTP
    layer invoke them. *)
Inductive op : Type :=
  | FetchAndStoreISSData (env : Env)
  | GetLastPosition (env : Env)
  | GetTrend (env : Env) (limit : Z)
  | GetPositionsHistory (env : Env) (hours : Z)
  | FetchAndStoreOSDR (env : Env)
  | FetchAndStoreAPOD (env : Env)
  | FetchAndStoreNEO (env : Env)
  | GetOSDRList (env : Env) (page limit : Z)
  | GetLatestAPOD (env : Env)
  | GetLatestNEO (env : Env) (days : Z)
  | GetDONKI (env : Env) (eventType : string) (days : Z)
  (* the Astro and JWST services share the cache: what they write
     there, under keys that start with "astro:" or "jwst:" *)
  | AstroCache (env : Env) (key : string) (v : CVal) (ttl : Duration)
  | JWSTCache (env : Env) (key : string) (v : CVal) (ttl : Duration).

Definition exec (s : ISSService.issService) (L : GoLib) (o : op) (w : World) : World :=
  match o with
  | FetchAndStoreISSData env => snd (ISSService.FetchAndStoreISSData s env w)
  | GetLastPosition env => snd (ISSService.GetLastPosition env w)
  | GetTrend env limit => snd (ISSService.GetTrend L env limit w)
  | GetPositionsHistory env hours => snd (ISSService.GetPositionsHistory env hours w)
  | FetchAndStoreOSDR env => snd (NASAService.FetchAndStoreOSDR L env w)
  | FetchAndStoreAPOD env => snd (NASAService.FetchAndStoreAPOD env w)
  | FetchAndStoreNEO env => snd (NASAService.FetchAndStoreNEO env w)
  | GetOSDRList env page limit => snd (NASAService.GetOSDRList env page limit w)
  | GetLatestAPOD env => snd (NASAService.GetLatestAPOD env w)
  | GetLatestNEO env days => snd (NASAService.GetLatestNEO env days w)
  | GetDONKI env eventType days => snd (NASAService.GetDONKI env eventType days w)
  | AstroCache env key v ttl => snd (Cache.SetJSON env ("astro:" +:+ key) (Ok v) ttl w)
  | JWSTCache env key v ttl => snd (Cache.SetJSON env ("jwst:" +:+ key) (Ok v) ttl w)
  end.

(** The states reached from an empty cache, whatever the tables hold
    at the start, whatever the operations invoked and however the
    collaborators behave. *)
Inductive reachable (s : ISSService.issService) (L : GoLib) : World -> Prop :=
  | reach_start (w : World) : redis w = ∅ -> reachable s L w
  | reach_step (o : op) (w : World) : reachable s L w -> reachable s L (exec s L o w).

End Notions.

(** * The rest of the repositories, the workers and the handlers *)

(** A call that returns, or a run-time panic. *)
Inductive Outcome (A : Type) : Type :=
  | Returned (a : A)
  | Panic.
Arguments Returned {A} a.
Arguments Panic {A}.

(** ** internal/repository/cache_repository.go: the other methods *)

Module CacheRepository.

(** [r.client.Del(ctx, key).Err()]: removing a key that is not there
    is no error. *)
Definition Delete (env : Env) (key : string) (w : World) : option error * World :=
  if redis_write_up env key then (None, set_redis (delete key (redis w)) w)
  else (Some ErrRedis, w).

(** [exists, err := r.client.Exists(ctx, key).Result(); return exists > 0, err] *)
Definition Exists (env : Env) (key : string) (w : World) : bool * option error :=
  match Cache.client_Get env key w with
  | Cache.Val _ => (true, None)
  | Cache.Nil => (false, None)
  | Cache.Fail e => (false, Some e)
  end.

(** [r.client.FlushAll(ctx).Err()]; [up] tells whether Redis answers. *)
Definition FlushAll (up : bool) (w : World) : option error * World :=
  if up then (None, set_redis ∅ w) else (Some ErrRedis, w).

End CacheRepository.

(** ** pkg/redis: the connection and the statistics of the server *)

Module Redis.

Record Config : Type := {
  Host : string;
  Port : string;
  Password : string;
  DB : Z
}.

(** The byte ['\n'].  Go ranges over the runes of a string with their
    byte offsets; a rune below 128 is one byte of the string and no
    byte of a longer rune is below 128, so the loops below compare
    bytes. *)
Definition newline : Ascii.ascii := Ascii.ascii_of_nat 10.

(** The bytes [':'] and ['#']. *)
Definition colon : Ascii.ascii := Ascii.ascii_of_nat 58.
Definition hash : Ascii.ascii := Ascii.ascii_of_nat 35.

(** [s[lo:hi]] *)
Definition slice (s : string) (lo hi : nat) : string :=
  String.substring lo (hi - lo) s.

(** The loop of [stringToLines]: [rest] is [s] from offset [i] on. *)
Fixpoint lines_loop (s rest : string) (i start : nat) (lines : list string)
    : list string * nat :=
  match rest with
  | EmptyString => (lines, start)
  | String c rest' =>
      if Ascii.eqb c newline
      then lines_loop s rest' (S i) (S i) (lines ++ [slice s start i])
      else lines_loop s rest' (S i) start lines
  end.

Definition stringToLines (s : string) : list string :=
  let '(lines, start) := lines_loop s s 0%nat 0%nat [] in
  if (start <? String.length s)%nat
  then lines ++ [slice s start (String.length s)]
  else lines.

(** The loop of [parseInfoLine]. *)
Fixpoint parse_loop (line rest : string) (i : nat) : string * string * bool :=
  match rest with
  | EmptyString => ("", "", false)
  | String c rest' =>
      if Ascii.eqb c colon
      then (slice line 0 i, slice line (S i) (String.length line), true)
      else parse_loop line rest' (S i)
  end.

Definition parseInfoLine (line : string) : string * string * bool :=
  parse_loop line line 0%nat.

Definition targetMetrics : list string :=
  ["redis_version"; "connected_clients"; "used_memory_human";
   "used_memory_peak_human"; "total_connections_received";
   "total_commands_processed"; "keyspace_hits"; "keyspace_misses";
   "uptime_in_seconds"].

(** [for _, target := range targetMetrics { if key == target { stats[key] = value; break } }] *)
Fixpoint record_metric (targets : list string) (key value : string)
    (stats : gmap string string) : gmap string string :=
  match targets with
  | [] => stats
  | target :: targets' =>
      if String.eqb key target then <[key := value]> stats
      else record_metric targets' key value stats
  end.

(** [infoLine[0] != '#'] *)
Definition is_comment (infoLine : string) : bool :=
  match infoLine with
  | String c _ => Ascii.eqb c hash
  | EmptyString => false
  end.

(** The body of the loop of [GetStats] over the lines. *)
Definition stats_line (stats : gmap string string) (infoLine : string)
    : gmap string string :=
  if (0 <? String.length infoLine)%nat && negb (is_comment infoLine) then
    match parseInfoLine infoLine with
    | (key, value, true) => record_metric targetMetrics key value stats
    | _ => stats
    end
  else stats.

(** [GetStats(client)]; [info] is what [client.Info(ctx).Result()]
    returns. *)
Definition GetStats (info : Res string) : Res (gmap string string) :=
  match info with
  | Err err => Err err
  | Ok info => Ok (fold_left stats_line (stringToLines info) ∅)
  end.

(** [Connect(config)]: the client (known by its options) or an error,
    and the lines logged.  [ping] and [info] are what
    [client.Ping(ctx).Err()] and [client.Info(ctx, "server").Result()]
    return. *)
Definition Connect (config : Config) (ping : option error) (info : Res string)
    : Outcome (Res Config) * list string :=
  let addr := Host config +:+ ":" +:+ Port config in
  match ping with
  | Some err => (Returned (Err (Wrap "failed to connect to Redis" err)), [])
  | None =>
      match info with
      | Err _ => (Returned (Ok config), ["Failed to get Redis info"])
      | Ok info =>
          let logs := ["Redis connected: " +:+ addr] in
          if (0 <? String.length info)%nat then
            (* info[:100] *)
            if (100 <=? String.length info)%nat
            then (Returned (Ok config), logs ++ ["Redis info: " +:+ slice info 0 100])
            else (Panic, logs)
          else (Returned (Ok config), logs)
      end
  end.

End Redis.

(** ** internal/repository: the other queries *)

Module ISSQueries.

(** [Count]: the number of rows and the error. *)
Definition Count (env : Env) (w : World) : Z * option error :=
  if db_up env then (Z.of_nat (length (iss_logs w)), None) else (0, Some ErrDB).

End ISSQueries.

Module OSDRQueries.

(** [First] orders by the primary key. *)
Definition id_asc (a b : OSDRItem) : bool := (ID a <=? ID b)%N.

(** [First(&item, cond)] over the rows that meet the condition. *)
Definition First (rows : list OSDRItem) : Res OSDRItem :=
  match order_by id_asc rows with
  | r :: _ => Ok r
  | [] => Err ErrRecordNotFound
  end.

Definition Create (env : Env) (item : OSDRItem) (w : World) : option error * World :=
  if db_up env then
    match OSDRRepository.Create env item (osdr_items w) with
    | Ok tbl => (None, set_osdr_items tbl w)
    | Err e => (Some e, w)
    end
  else (Some ErrDB, w).

Definition GetByID (env : Env) (id : N) (w : World) : Res OSDRItem :=
  if db_up env then First (List.filter (fun r => (ID r =? id)%N) (osdr_items w))
  else Err ErrDB.

Definition GetByDatasetID (env : Env) (datasetID : string) (w : World) : Res OSDRItem :=
  if db_up env
  then First (List.filter (fun r => String.eqb (DatasetID r) datasetID) (osdr_items w))
  else Err ErrDB.

(** [Save(item)] *)
Definition Update (env : Env) (item : OSDRItem) (w : World) : option error * World :=
  if db_up env then
    match OSDRRepository.Save env item (osdr_items w) with
    | Ok tbl => (None, set_osdr_items tbl w)
    | Err e => (Some e, w)
    end
  else (Some ErrDB, w).

(** [Delete(&models.OSDRItem{}, "id = ?", id)]: the rows are removed
    (the model has no soft-delete column); removing none is no
    error. *)
Definition Delete (env : Env) (id : N) (w : World) : option error * World :=
  if db_up env
  then (None, set_osdr_items (List.filter (fun r => negb (ID r =? id)%N) (osdr_items w)) w)
  else (Some ErrDB, w).

Definition Count (env : Env) (w : World) : Z * option error :=
  if db_up env then (Z.of_nat (length (osdr_items w)), None) else (0, Some ErrDB).

End OSDRQueries.

(** ** internal/worker/iss_worker.go *)

Module ISSWorker.

Record ISSWorker : Type := {
  service : ISSService.issService;
  isRunning : bool;
  stopChan_closed : bool;
  goroutines : nat          (* the number of [go w.run()] so far *)
}.

Definition NewISSWorker (service : ISSService.issService) : ISSWorker :=
  {| service := service; isRunning := false; stopChan_closed := false;
     goroutines := 0 |}.

Definition Start (w : ISSWorker) : ISSWorker :=
  if isRunning w then w
  else {| service := service w; isRunning := true;
          stopChan_closed := stopChan_closed w; goroutines := S (goroutines w) |}.

(** [close(w.stopChan)] panics on a channel that is closed already. *)
Definition Stop (w : ISSWorker) : Outcome ISSWorker :=
  if negb (isRunning w) then Returned w
  else if stopChan_closed w then Panic
  else Returned {| service := service w; isRunning := false;
                   stopChan_closed := true; goroutines := goroutines w |}.

(** The calls made on a worker, one after the other. *)
Inductive op : Type :=
  | OpStart
  | OpStop.

Definition step (o : Outcome ISSWorker) (c : op) : Outcome ISSWorker :=
  match o with
  | Panic => Panic
  | Returned w =>
      match c with
      | OpStart => Returned (Start w)
      | OpStop => Stop w
      end
  end.

Definition calls (ops : list op) (w : ISSWorker) : Outcome ISSWorker :=
  fold_left step ops (Returned w).

(** [run]: one synchronization at once, then one on each tick of the
    ticker until the stop channel is closed.  [first] and [ticks] are
    the collaborators at these instants. *)
Definition run (w : ISSWorker) (first : Env) (ticks : list Env) (world : World) : World :=
  fold_left (fun world env => Worker.fetchISSData (service w) env world) ticks
    (Worker.fetchISSData (service w) first world).

End ISSWorker.

(** ** internal/handlers: the dashboard *)

Module DashboardHandler.

Section Services.
(** The three other services of the handler are known by their
    interfaces: what [GetFeed(ctx, "jpg", "", "", "", 1, 12)],
    [GetEvents(ctx, 55.7558, 37.6176, 7)] and
    [GetTelemetryHistory(ctx, now - 24h, now)] return. *)
Context {JWSTImage AstroEvent Telemetry : Type}.
Variable L : GoLib.
Variable jwstService_GetFeed : Env -> World -> Res (list JWSTImage) * World.
Variable astroService_GetEvents : Env -> World -> Res (list AstroEvent) * World.
Variable telemetryService_GetTelemetryHistory
  : Env -> World -> Res (list Telemetry) * World.

Record summary : Type := {
  services_ok : bool;
  errors_count : nat
}.

(** A line of [errors]: the prefix and the error whose text follows. *)
Record dashboardData : Type := {
  ISS : option ISSLog;
  OSDR : option (option JMap);        (* {"apod": apod} *)
  JWST : option (list JWSTImage);
  Astro : option (list AstroEvent);
  Telemetry_ : option (list Telemetry);
  Summary : summary;
  Errors : list (string * error)
}.

Definition GetDashboardData (env : Env) (w : World)
    : Outcome (Z * dashboardData) * World :=
  let errors : list (string * error) := [] in
  (* 1 *)
  let '(r, w) := ISSService.GetLastPosition env w in
  let '(errors, data_ISS) :=
    match r with
    | Err err => (errors ++ [("ISS data: ", err)], None)
    | Ok issLast => (errors, Some issLast)
    end in
  (* 2 *)
  let '(r, w) := ISSService.GetTrend L env 240 w in
  match r, data_ISS with
  | Ok _, Some _ =>
      (* data.ISS.(map[string]interface{}) on a *models.ISSLog *)
      (Panic, w)
  | _, _ =>
      let errors :=
        match r with
        | Err err => errors ++ [("ISS trend: ", err)]
        | Ok _ => errors
        end in
      (* 3 *)
      let '(r, w) := NASAService.GetAPOD env "" w in
      let '(errors, data_OSDR) :=
        match r with
        | Err err => (errors ++ [("APOD: ", err)], None)
        | Ok apod => (errors, Some apod)
        end in
      (* 4 *)
      let '(r, w) := jwstService_GetFeed env w in
      let '(errors, data_JWST) :=
        match r with
        | Err err => (errors ++ [("JWST: ", err)], None)
        | Ok jwstImages => (errors, Some jwstImages)
        end in
      (* 5 *)
      let '(r, w) := astroService_GetEvents env w in
      let '(errors, data_Astro) :=
        match r with
        | Err err => (errors ++ [("Astronomy: ", err)], None)
        | Ok astroEvents => (errors, Some astroEvents)
        end in
      (* 6 *)
      let '(r, w) := telemetryService_GetTelemetryHistory env w in
      let '(errors, data_Telemetry) :=
        match r with
        | Err err => (errors ++ [("Telemetry: ", err)], None)
        | Ok telemetry => (errors, Some telemetry)
        end in
      (* 8 *)
      let summary :=
        {| services_ok := (length errors =? 0)%nat; errors_count := length errors |} in
      (Returned
         (200,
          {| ISS := data_ISS; OSDR := data_OSDR; JWST := data_JWST;
             Astro := data_Astro; Telemetry_ := data_Telemetry;
             Summary := summary;
             Errors := if (0 <? length errors)%nat then errors else [] |}),
       w)
  end.

End Services.

End DashboardHandler.

(** ** The cache keys of the operations *)

Module Keys.
Import Notions.

(** The keys an operation of the services may write. *)
Definition keys_of (o : op) : list string :=
  match o with
  | FetchAndStoreISSData _ => ["iss:last_position"; "iss:last_fetch"]
  | GetLastPosition _ => ["iss:last_position"]
  | GetTrend _ limit => [ISSService.trendKey (if limit <=? 0 then 240 else limit)]
  | GetPositionsHistory _ hours =>
      [ISSService.historyKey (if hours <=? 0 then 24 else hours)]
  | FetchAndStoreOSDR _ => ["nasa:osdr:last_fetch"]
  | FetchAndStoreAPOD _ => ["nasa:apod:today"]
  | FetchAndStoreNEO _ => ["nasa:neo:last_week"]
  | GetOSDRList _ page limit =>
      [NASAService.osdrListKey (if page <? 1 then 1 else page)
         (if (limit <? 1) || (100 <? limit) then 20 else limit)]
  | GetLatestAPOD _ => ["nasa:apod:today"]
  | GetLatestNEO _ _ => ["nasa:neo:last_week"]
  | GetDONKI _ eventType days =>
      [NASAService.donkiKey eventType (if (days <? 1) || (30 <? days) then 5 else days)]
  | AstroCache _ key _ _ => ["astro:" +:+ key]
  | JWSTCache _ key _ _ => ["jwst:" +:+ key]
  end.

(** The operations that only read the stores. *)
Definition is_read (o : op) : bool :=
  match o with
  | FetchAndStoreISSData _ | FetchAndStoreOSDR _ => false
  | _ => true
  end.

(** A sequence of operations, one after the other. *)
Definition execs (s : ISSService.issService) (L : GoLib) (ops : list op) (w : World)
    : World :=
  fold_left (fun w o => exec s L o w) ops w.

(** The synchronizations of the ISS among [ops]. *)
Definition iss_syncs (ops : list op) : nat :=
  length (List.filter (fun o => match o with FetchAndStoreISSData _ => true | _ => false end)
            ops).

End Keys.
(** ** Notions used to state the properties of this part *)

Module MoreNotions.

(** What the ticks of a worker keep true of the rows [added] since the
    world [w0]: they are [I] seconds apart, and the lock of the last
    of them is in place. *)
Definition spaced_since (I : Z) (w0 w : World) (added : list ISSLog) : Prop :=
  iss_logs w = iss_logs w0 ++ added /\
  StronglySorted (fun a b => log_FetchedAt a + I <= log_FetchedAt b) added /\
  (added = [] \/
   exists tl, redis w !! "iss:last_fetch" = Some (CStr "1", Some (tl + I)) /\
              forall r, In r added -> log_FetchedAt r <= tl).

(** The text [s] holds the byte [c]. *)
Fixpoint has_byte (c : Ascii.ascii) (s : string) : bool :=
  match s with
  | EmptyString => false
  | String a s' => Ascii.eqb a c || has_byte c s'
  end.

(** The text of one byte. *)
Definition byte (c : Ascii.ascii) : string := String c EmptyString.

(** The calls that are left for a worker to panic: what remains of
    Start, Stop, Start, Stop. *)
Definition fatal_calls (w : ISSWorker.ISSWorker) : list ISSWorker.op :=
  match ISSWorker.isRunning w, ISSWorker.stopChan_closed w with
  | false, false => [ISSWorker.OpStart; ISSWorker.OpStop; ISSWorker.OpStart; ISSWorker.OpStop]
  | true, false => [ISSWorker.OpStop; ISSWorker.OpStart; ISSWorker.OpStop]
  | false, true => [ISSWorker.OpStart; ISSWorker.OpStop]
  | true, true => [ISSWorker.OpStop]
  end.

(** Whether a call of the scheduler is [Stop]. *)
Definition is_Stop (o : Scheduler.op) : bool :=
  match o with
  | Scheduler.OpStop _ => true
  | _ => false
  end.

(** No call of [ops] is [Stop]. *)
Definition no_Stop (ops : list Scheduler.op) : bool :=
  forallb (fun o => negb (is_Stop o)) ops.

End MoreNotions.

(** ** Go's package math *)

(** What the properties of the great-circle distance take from the
    functions of Go's package math.  Its documentation lists the
    special cases [Sin(±0) = ±0], [Sin(NaN) = NaN],
    [Atan2(NaN, x) = NaN] and [Atan2(±0, x>=0) = ±0]; [Sin] is odd
    (it is computed on the absolute value of the argument and given
    the sign back); [Atan2(y, x)], the angle of a point of the upper
    half-plane when [y] is positive or [+0], is not negative then. *)
Record GoMath (L : GoLib) : Prop := {
  Sin_zero : math_Sin L 0 = 0%float;
  Sin_nan : math_Sin L nan = nan;
  Sin_odd : forall x, math_Sin L (- x) = (- math_Sin L x)%float;
  Atan2_nan : forall x, math_Atan2 L nan x = nan;
  Atan2_zero : forall x, (0 <=? x)%float = true -> math_Atan2 L 0 x = 0%float;
  Atan2_neg_zero : forall x, (0 <=? x)%float = true -> math_Atan2 L (-0) x = (-0)%float;
  Atan2_sign : forall y x,
    (0 <? y)%float = true \/ y = 0%float -> (math_Atan2 L y x <? 0)%float = false
}.

(** * Properties *)

(** ** The scheduler *)

Module SchedulerFacts.
Import Scheduler.

Lemma Stop_marks_stopped (d : bool) (s : Scheduler) :
  stopped (snd (Stop d s)) = true.
Proof. reflexivity. Qed.

Lemma Start_after_stop (s : Scheduler) :
  stopped s = true -> Start s = s.
Proof. intros Hs. unfold Start. now rewrite Hs. Qed.

Lemma step_keeps_stopped (s : Scheduler) (o : op) :
  stopped s = true -> stopped (step s o) = true.
Proof.
  intros Hs. destruct o as [worker| |d]; cbn.
  - exact Hs.
  - now rewrite (Start_after_stop s Hs).
  - reflexivity.
Qed.

Lemma step_launches_nothing (s : Scheduler) (o : op) :
  stopped s = true -> launched (step s o) = launched s.
Proof.
  intros Hs. destruct o as [worker| |d]; cbn.
  - reflexivity.
  - now rewrite (Start_after_stop s Hs).
  - reflexivity.
Qed.

Lemma run_launches_nothing (ops : list op) :
  forall s, stopped s = true ->
    launched (run ops s) = launched s /\ stopped (run ops s) = true.
Proof.
  induction ops as [|o ops IH]; intros s Hs; cbn.
  - now split.
  - destruct (IH (step s o) (step_keeps_stopped s o Hs)) as [Hl Hst].
    split; [|exact Hst].
    unfold run in Hl. rewrite Hl. now apply step_launches_nothing.
Qed.

(** C9, as the specification states it, fails: a worker added after
    [Stop] is appended to the collection like any other. *)
Lemma late_AddWorker_changes_workers :
  let s := snd (Stop true (AddWorker 1%nat NewScheduler)) in
  stopped s = true /\
  workers (AddWorker 2%nat s) = [1%nat; 2%nat] /\
  workers (AddWorker 2%nat s) <> workers s.
Proof. cbn. repeat split. discriminate. Qed.

(** C9, amended: once [Stop] has been called the scheduler is marked
    stopped; every later [Start] is rejected and leaves the scheduler
    as it is; whatever calls follow ([AddWorker], [Start], [Stop], in
    any number and order), no further worker is launched and the
    scheduler stays stopped.  A late [AddWorker] is not rejected: it
    appends the worker, which is then never launched. *)
Theorem stop_rejects_late_start (d : bool) (s : Scheduler) :
  let s' := snd (Stop d s) in
  stopped s' = true /\
  IsRunning s' = false /\
  Start s' = s' /\
  (forall worker, workers (AddWorker worker s') = workers s' ++ [worker]) /\
  (forall ops, launched (run ops s') = launched s /\ stopped (run ops s') = true).
Proof.
  cbn zeta. repeat split.
  - apply (run_launches_nothing ops (snd (Stop d s))). reflexivity.
  - apply (run_launches_nothing ops (snd (Stop d s))). reflexivity.
Qed.

End SchedulerFacts.

(** ** The batch upsert of the OSDR repository *)

Module OSDRFacts.
Import OSDRRepository OSDRTable.

Lemma key_is_true (k : string) (r : OSDRItem) :
  key_is k r = true <-> DatasetID r = k.
Proof. unfold key_is. apply String.eqb_eq. Qed.

Lemma key_is_false (k : string) (r : OSDRItem) :
  key_is k r = false <-> DatasetID r <> k.
Proof. unfold key_is. apply String.eqb_neq. Qed.

Lemma In_map_unique {A B : Type} (f : A -> B) (l : list A) (a b : A) :
  List.NoDup (map f l) -> In a l -> In b l -> f a = f b -> a = b.
Proof.
  induction l as [|x l IH]; cbn; intros Hnd Ha Hb Hab; [contradiction|].
  inversion Hnd as [|? ? Hnotin Hnd']; subst.
  destruct Ha as [->|Ha], Hb as [->|Hb]; trivial.
  - exfalso. apply Hnotin. rewrite Hab. now apply in_map.
  - exfalso. apply Hnotin. rewrite <- Hab. now apply in_map.
  - now apply IH.
Qed.

Lemma rows_with_In (k : string) (tbl : list OSDRItem) (r : OSDRItem) :
  In r (rows_with k tbl) <-> In r tbl /\ DatasetID r = k.
Proof. unfold rows_with. rewrite filter_In, key_is_true. reflexivity. Qed.

Lemma rows_with_unique (k : string) (tbl : list OSDRItem) (r : OSDRItem) :
  List.NoDup (map DatasetID tbl) -> In r tbl -> DatasetID r = k ->
  rows_with k tbl = [r].
Proof.
  unfold rows_with.
  induction tbl as [|x tbl IH]; cbn; intros Hnd Hin Hk; [contradiction|].
  inversion Hnd as [|? ? Hnotin Hnd']; subst.
  destruct Hin as [->|Hin].
  - rewrite (proj2 (key_is_true _ r) eq_refl). f_equal.
    destruct (List.filter (key_is (DatasetID r)) tbl) as [|y ys] eqn:E; [reflexivity|].
    exfalso. apply Hnotin.
    assert (Hy : In y (List.filter (key_is (DatasetID r)) tbl)) by (rewrite E; now left).
    apply filter_In in Hy as [Hy1 Hy2]. apply key_is_true in Hy2.
    rewrite <- Hy2. now apply in_map.
  - destruct (key_is (DatasetID r) x) eqn:Ex.
    + exfalso. apply Hnotin. apply key_is_true in Ex. rewrite Ex. now apply in_map.
    + now apply IH.
Qed.

Lemma rows_with_none (k : string) (tbl : list OSDRItem) :
  List.find (key_is k) tbl = None -> rows_with k tbl = [].
Proof.
  intros Hf. destruct (rows_with k tbl) as [|y ys] eqn:E; [reflexivity|].
  assert (Hy : In y (rows_with k tbl)) by (rewrite E; now left).
  apply filter_In in Hy as [Hy1 Hy2].
  now rewrite (find_none _ _ Hf y Hy1) in Hy2.
Qed.

Lemma find_of_row (k : string) (tbl : list OSDRItem) (r : OSDRItem) :
  List.NoDup (map DatasetID tbl) -> In r (rows_with k tbl) ->
  List.find (key_is k) tbl = Some r.
Proof.
  intros Hnd Hin. apply rows_with_In in Hin as [Hin Hk].
  destruct (List.find (key_is k) tbl) as [x|] eqn:E.
  - apply find_some in E as [Hx Hkx]. apply key_is_true in Hkx.
    f_equal. apply (In_map_unique DatasetID tbl); trivial. congruence.
  - apply (find_none _ _ E) in Hin. apply key_is_false in Hin. contradiction.
Qed.

Lemma next_ID_above (tbl : list OSDRItem) (r : OSDRItem) :
  In r tbl -> (ID r < next_ID tbl)%N.
Proof.
  unfold next_ID. induction tbl as [|x tbl IH]; cbn; [contradiction|].
  intros [->|Hin]; [lia|]. specialize (IH Hin). lia.
Qed.

Lemma filter_map_same {A : Type} (p : A -> bool) (f : A -> A) (l : list A) :
  (forall x, In x l -> p (f x) = p x /\ (p x = true -> f x = x)) ->
  List.filter p (map f l) = List.filter p l.
Proof.
  induction l as [|x l IH]; cbn; intros H; [reflexivity|].
  destruct (H x (or_introl eq_refl)) as [H1 H2]. rewrite H1.
  rewrite IH by (intros y Hy; apply H; now right).
  destruct (p x) eqn:E; [now rewrite H2|reflexivity].
Qed.

Section Rounds.
Variable env : Env.

Lemma merged_fields (tbl : list OSDRItem) (item : OSDRItem) :
  same_fields (merged env tbl item) item.
Proof.
  unfold merged, same_fields.
  destruct (List.find _ tbl); cbn; repeat split.
Qed.

Lemma merged_identity (tbl : list OSDRItem) (item r0 : OSDRItem) :
  List.NoDup (map DatasetID tbl) ->
  In r0 (rows_with (DatasetID item) tbl) ->
  ID (merged env tbl item) = ID r0 /\
  CreatedAt (merged env tbl item) = CreatedAt r0 /\
  UpdatedAt (merged env tbl item) = orm_UpdatedAt_update env (UpdatedAt item).
Proof.
  intros Hnd Hin. unfold merged.
  rewrite (find_of_row _ _ _ Hnd Hin). cbn. repeat split.
Qed.

(** On a table that meets the constraints, a record without
    identity goes through [Create] or [Save] without an error. *)
Lemma upsert_each_cons (item : OSDRItem) (rest tbl : list OSDRItem) :
  wf_table tbl -> ID item = 0%N ->
  upsert_each env (item :: rest) tbl = upsert_each env rest (upsert_one env item tbl).
Proof.
  intros [Hk Hi] Hz. cbn [upsert_each]. unfold upsert_one, valid.
  destruct (String.eqb (DatasetID item) "") eqn:Ekey; cbn [negb]; [reflexivity|].
  unfold First_by_dataset_id. fold (key_is (DatasetID item)).
  destruct (List.find (key_is (DatasetID item)) tbl) as [ex|] eqn:Ef.
  - apply find_some in Ef as [Hex Hkex]. apply key_is_true in Hkex.
    unfold Save. cbn [ID DatasetID with_identity updated].
    assert (H1 : existsb (fun r => (ID r =? ID ex)%N) tbl = true).
    { apply existsb_exists. exists ex. split; [exact Hex|apply N.eqb_refl]. }
    rewrite H1.
    assert (H2 : existsb (fun r => negb (ID r =? ID ex)%N
                     && String.eqb (DatasetID r) (DatasetID item)) tbl = false).
    { apply not_true_is_false. intros H. apply existsb_exists in H as (r & Hr & Hc).
      apply andb_true_iff in Hc as [Hc1 Hc2].
      apply String.eqb_eq in Hc2.
      assert (r = ex) by (apply (In_map_unique DatasetID tbl); trivial; congruence).
      subst r. now rewrite N.eqb_refl in Hc1. }
    rewrite H2. reflexivity.
  - unfold Create. rewrite Hz. cbn [N.eqb].
    assert (H1 : existsb (fun r => (ID r =? next_ID tbl)%N
                     || String.eqb (DatasetID r) (DatasetID item)) tbl = false).
    { apply not_true_is_false. intros H. apply existsb_exists in H as (r & Hr & Hc).
      apply orb_true_iff in Hc as [Hc|Hc].
      - apply N.eqb_eq in Hc. pose proof (next_ID_above tbl r Hr). lia.
      - pose proof (find_none _ _ Ef r Hr) as Hn. unfold key_is in Hn. congruence. }
    rewrite H1. reflexivity.
Qed.

Lemma upsert_one_wf (item : OSDRItem) (tbl : list OSDRItem) :
  wf_table tbl -> wf_table (upsert_one env item tbl).
Proof.
  intros [Hk Hi]. unfold upsert_one.
  destruct (valid item); [|now split].
  destruct (List.find (key_is (DatasetID item)) tbl) as [ex|] eqn:Ef.
  - apply find_some in Ef as [Hex Hkex]. apply key_is_true in Hkex.
    unfold wf_table. rewrite !map_map.
    rewrite (map_ext_in _ DatasetID), (map_ext_in _ ID); [now split| |].
    + intros r Hr. destruct (ID r =? ID ex)%N eqn:E; [|reflexivity].
      apply N.eqb_eq in E. cbn. congruence.
    + intros r Hr. destruct (ID r =? ID ex)%N eqn:E; [|reflexivity].
      apply N.eqb_eq in E.
      assert (r = ex) by (apply (In_map_unique ID tbl); trivial).
      subst r. cbn. congruence.
  - unfold wf_table. rewrite !map_app. cbn [map created ID DatasetID].
    split; apply List.NoDup_app; trivial.
    + constructor; [intros []|constructor].
    + intros k Hin [Hk'|[]]. subst k.
      apply in_map_iff in Hin as (r & Hr1 & Hr2).
      pose proof (find_none _ _ Ef r Hr2) as Hn. apply key_is_false in Hn. congruence.
    + constructor; [intros []|constructor].
    + intros i Hin [Hi'|[]]. subst i.
      apply in_map_iff in Hin as (r & Hr1 & Hr2).
      pose proof (next_ID_above tbl r Hr2). lia.
Qed.

(** What is stored under each key after one round. *)
Lemma rows_with_upsert_one (k : string) (item : OSDRItem) (tbl : list OSDRItem) :
  wf_table tbl ->
  rows_with k (upsert_one env item tbl) =
    if valid item && key_is k item then [merged env tbl item] else rows_with k tbl.
Proof.
  intros Hwf. pose proof (upsert_one_wf item tbl Hwf) as [Hk' _].
  destruct Hwf as [Hk Hi]. revert Hk'. unfold upsert_one, merged.
  destruct (valid item); cbn [andb]; [|reflexivity].
  destruct (List.find (key_is (DatasetID item)) tbl) as [ex|] eqn:Ef; intros Hk'.
  - apply find_some in Ef as [Hex Hkex]. apply key_is_true in Hkex.
    destruct (key_is k item) eqn:Ek.
    + apply key_is_true in Ek. apply rows_with_unique; [exact Hk'| |exact Ek].
      apply in_map_iff. exists ex. now rewrite N.eqb_refl.
    + apply key_is_false in Ek. unfold rows_with. apply filter_map_same.
      intros r Hr. destruct (ID r =? ID ex)%N eqn:E.
      * apply N.eqb_eq in E.
        assert (r = ex) by (apply (In_map_unique ID tbl); trivial). subst r.
        assert (Hf : key_is k ex = false) by (apply key_is_false; congruence).
        rewrite Hf. split; [|discriminate].
        apply key_is_false. cbn. exact Ek.
      * split; [reflexivity|trivial].
  - unfold rows_with. rewrite List.filter_app. cbn [List.filter].
    change (key_is k (created env tbl item)) with (key_is k item).
    destruct (key_is k item) eqn:Ek.
    + apply key_is_true in Ek. subst k.
      fold (rows_with (DatasetID item) tbl). now rewrite (rows_with_none _ _ Ef).
    + apply app_nil_r.
Qed.

(** The loop of [BulkUpsert] over a whole batch: it ends without
    an error, the constraints still hold, and under every key lies
    the last record of the batch with that key, with the identity
    and the creation time of the record it replaces. *)
Lemma upsert_each_rows (items : list OSDRItem) :
  forall tbl, wf_table tbl -> Forall (fun i => ID i = 0%N) items ->
  exists tbl',
    upsert_each env items tbl = Ok tbl' /\ wf_table tbl' /\
    forall k,
      match last_with k items with
      | None => rows_with k tbl' = rows_with k tbl
      | Some j =>
          exists r, rows_with k tbl' = [r] /\ same_fields r j /\
            forall r0, In r0 (rows_with k tbl) ->
              ID r = ID r0 /\ CreatedAt r = CreatedAt r0 /\
              UpdatedAt r = orm_UpdatedAt_update env (UpdatedAt j)
      end.
Proof.
  induction items as [|item rest IH]; intros tbl Hwf Hz.
  - exists tbl. split; [reflexivity|]. split; [exact Hwf|]. intros k. reflexivity.
  - inversion Hz as [|? ? Hz1 Hz2]; subst.
    destruct (IH (upsert_one env item tbl) (upsert_one_wf item tbl Hwf) Hz2)
      as (tbl' & Hrun & Hwf' & Hrows).
    exists tbl'. rewrite (upsert_each_cons item rest tbl Hwf Hz1).
    split; [exact Hrun|]. split; [exact Hwf'|].
    intros k. specialize (Hrows k). cbn [last_with].
    rewrite (rows_with_upsert_one k item tbl Hwf) in Hrows.
    destruct (last_with k rest) as [j|].
    + destruct Hrows as (r & Hr & Hf & Hid). exists r.
      split; [exact Hr|]. split; [exact Hf|].
      intros r0 Hr0. destruct (valid item && key_is k item) eqn:E.
      * apply andb_true_iff in E as [_ E]. apply key_is_true in E. subst k.
        destruct (Hid _ (or_introl eq_refl)) as (H1 & H2 & H5).
        destruct (merged_identity tbl item r0 (proj1 Hwf) Hr0) as (H3 & H4 & _).
        repeat split; congruence.
      * apply Hid. exact Hr0.
    + destruct (valid item && key_is k item) eqn:E; [|exact Hrows].
      apply andb_true_iff in E as [_ E]. apply key_is_true in E. subst k.
      exists (merged env tbl item).
      split; [exact Hrows|]. split; [apply merged_fields|].
      intros r0 Hr0. apply merged_identity; [apply Hwf|exact Hr0].
Qed.

End Rounds.

(** A record with an empty key leaves no trace in the loop. *)
Lemma upsert_each_filter_valid (env : Env) (items : list OSDRItem) :
  forall tbl,
    upsert_each env items tbl = upsert_each env (List.filter valid items) tbl.
Proof.
  induction items as [|item rest IH]; intros tbl; [reflexivity|].
  cbn [List.filter]. unfold valid at 1.
  destruct (String.eqb (DatasetID item) "") eqn:E; cbn [negb].
  - cbn [upsert_each]. rewrite E. apply IH.
  - cbn [upsert_each]. rewrite E.
    destruct (First_by_dataset_id (DatasetID item) tbl) as [ex|[]]; trivial.
    + destruct (Save env _ tbl); trivial.
    + destruct (Create env item tbl); trivial.
Qed.

Lemma last_with_empty_key (items : list OSDRItem) : last_with "" items = None.
Proof.
  induction items as [|i rest IH]; cbn; [reflexivity|]. rewrite IH.
  unfold valid, key_is. now destruct (String.eqb (DatasetID i) "").
Qed.

Lemma last_with_exists (i : OSDRItem) (items : list OSDRItem) :
  In i items -> valid i = true ->
  exists j, last_with (DatasetID i) items = Some j /\
            In j items /\ DatasetID j = DatasetID i.
Proof.
  induction items as [|x rest IH]; cbn; intros Hin Hv; [contradiction|].
  destruct (last_with (DatasetID i) rest) as [j|] eqn:E.
  - destruct Hin as [->|Hin].
    + exists j. split; [reflexivity|].
      clear IH. revert E. generalize (DatasetID i) as k.
      induction rest as [|y rest IH]; cbn; intros k E; [discriminate|].
      destruct (last_with k rest) as [j'|] eqn:E'.
      * injection E as ->. destruct (IH k E') as [H1 H2]. split; [|exact H2].
        destruct H1 as [H1|H1]; [left; exact H1|right; right; exact H1].
      * destruct (valid y && key_is k y) eqn:Ey; [|discriminate].
        injection E as ->. apply andb_true_iff in Ey as [_ Ey].
        apply key_is_true in Ey. split; [right; left; reflexivity|exact Ey].
    + destruct (IH Hin Hv) as (j' & Hj & Hj1 & Hj2). injection Hj as <-.
      exists j. split; [reflexivity|]. split; [right; exact Hj1|exact Hj2].
  - destruct Hin as [->|Hin].
    + rewrite Hv. rewrite (proj2 (key_is_true _ i) eq_refl). cbn.
      exists i. split; [reflexivity|]. split; [left; reflexivity|reflexivity].
    + destruct (IH Hin Hv) as (j' & Hj & _). discriminate.
Qed.



(** Two calls of the batch upsert, each with fresh records and
    each carrying the natural key [K] ([i1] and [i2] are the last
    records with key [K] of the first and of the second batch), on a
    table that meets its constraints while the database answers:
    both calls commit; after each exactly one record is stored under
    [K]; the second has the identity and the creation time of the
    first, the title, status and raw payload of [i2], and the
    updated-time the second call writes (what the ORM's update makes
    of the updated-time of [i2]). *)
Theorem BulkUpsert_twice_same_key
    (env1 env2 : Env) (b1 b2 : list OSDRItem) (K : string) (i1 i2 : OSDRItem)
    (w : World) :
  db_up env1 = true -> db_up env2 = true ->
  wf_table (osdr_items w) ->
  Forall (fun i => ID i = 0%N) b1 -> Forall (fun i => ID i = 0%N) b2 ->
  last_with K b1 = Some i1 -> last_with K b2 = Some i2 ->
  exists w1 w2 r1 r2,
    BulkUpsert env1 b1 w = (None, w1) /\
    BulkUpsert env2 b2 w1 = (None, w2) /\
    rows_with K (osdr_items w1) = [r1] /\
    rows_with K (osdr_items w2) = [r2] /\
    ID r2 = ID r1 /\ CreatedAt r2 = CreatedAt r1 /\
    same_fields r1 i1 /\ same_fields r2 i2 /\
    UpdatedAt r2 = orm_UpdatedAt_update env2 (UpdatedAt i2).
Proof.
  intros Hdb1 Hdb2 Hwf Hz1 Hz2 Hl1 Hl2.
  destruct (upsert_each_rows env1 b1 (osdr_items w) Hwf Hz1) as (t1 & Hrun1 & Hwf1 & Hrows1).
  destruct (upsert_each_rows env2 b2 t1 Hwf1 Hz2) as (t2 & Hrun2 & Hwf2 & Hrows2).
  specialize (Hrows1 K). rewrite Hl1 in Hrows1. destruct Hrows1 as (r1 & Hr1 & Hf1 & _).
  specialize (Hrows2 K). rewrite Hl2 in Hrows2. destruct Hrows2 as (r2 & Hr2 & Hf2 & Hid).
  exists (set_osdr_items t1 w), (set_osdr_items t2 (set_osdr_items t1 w)), r1, r2.
  unfold BulkUpsert. rewrite Hdb1, Hdb2, Hrun1. cbn [osdr_items set_osdr_items].
  rewrite Hrun2.
  destruct (Hid r1) as (Hid1 & Hid2 & Hid3); [rewrite Hr1; now left|].
  repeat split; trivial; try apply Hf1; try apply Hf2.
Qed.

Lemma BulkUpsert_twice_same_key_witness :
  exists w1 w2 r1 r2,
    BulkUpsert (Examples.healthy 1000)
      [Examples.record "OSD-1" "first" "open" None] Examples.fresh = (None, w1) /\
    BulkUpsert (Examples.healthy 2000)
      [Examples.record "OSD-1" "second" "closed" (Some 1500)] w1 = (None, w2) /\
    rows_with "OSD-1" (osdr_items w1) = [r1] /\
    rows_with "OSD-1" (osdr_items w2) = [r2] /\
    ID r2 = ID r1 /\ CreatedAt r2 = CreatedAt r1 /\
    same_fields r1 (Examples.record "OSD-1" "first" "open" None) /\
    same_fields r2 (Examples.record "OSD-1" "second" "closed" (Some 1500)) /\
    UpdatedAt r2 = Some 2000.
Proof.
  apply (BulkUpsert_twice_same_key (Examples.healthy 1000) (Examples.healthy 2000)
           [Examples.record "OSD-1" "first" "open" None]
           [Examples.record "OSD-1" "second" "closed" (Some 1500)]
           "OSD-1").
  - reflexivity.
  - reflexivity.
  - split; constructor.
  - repeat constructor.
  - repeat constructor.
  - reflexivity.
  - reflexivity.
Defined.

(** The two calls of the witness, evaluated: one row, created at
    time 1000 and carrying the fields of the second call. *)
Example BulkUpsert_twice_run :
  let w1 := snd (BulkUpsert (Examples.healthy 1000)
                   [Examples.record "OSD-1" "first" "open" None] Examples.fresh) in
  let w2 := snd (BulkUpsert (Examples.healthy 2000)
                   [Examples.record "OSD-1" "second" "closed" (Some 1500)] w1) in
  map (fun r => (ID r, DatasetID r, Title r, Status r, CreatedAt r))
      (osdr_items w2)
  = [(1%N, "OSD-1", "second", "closed", 1000)].
Proof. reflexivity. Qed.

(** C4: the updated-time of the second call is not applied.  A
    record with the key OSD-1 is upserted at time 1000 with the
    updated-time 900, and again at time 2000 with other fields and
    the updated-time 1500.  One record is left under the key, with
    the identity and the creation time of the first call and the
    title, status and payload of the second; the insert stored the
    updated-time as the call gave it (900), the update stored the
    time of the write (2000) in place of the 1500 the second call
    carried. *)
Theorem BulkUpsert_twice_updated_time :
  let first := Examples.record "OSD-1" "first" "open" (Some 900) in
  let second := Examples.record "OSD-1" "second" "closed" (Some 1500) in
  let w1 := snd (BulkUpsert (Examples.healthy 1000) [first] Examples.fresh) in
  let w2 := snd (BulkUpsert (Examples.healthy 2000) [second] w1) in
  map (fun r => (ID r, DatasetID r, Title r, Status r, Raw r, CreatedAt r, UpdatedAt r))
      (osdr_items w1)
  = [(1%N, "OSD-1", "first", "open", Raw first, 1000, Some 900)] /\
  map (fun r => (ID r, DatasetID r, Title r, Status r, Raw r, CreatedAt r, UpdatedAt r))
      (osdr_items w2)
  = [(1%N, "OSD-1", "second", "closed", Raw second, 1000, Some 2000)] /\
  UpdatedAt second = Some 1500.
Proof. cbv zeta. split; [reflexivity|]. split; reflexivity. Qed.

End OSDRFacts.

(** ** The synchronization services *)

Module SyncFacts.
Import Notions.

Lemma locked_Get (key : string) (env : Env) (w : World) :
  locked key env w = false ->
  (exists e, Cache.Get env key w = Err e) \/ Cache.Get env key w = Ok None.
Proof.
  unfold locked. destruct (Cache.Get env key w) as [[v|]|e]; intros H.
  - discriminate.
  - now right.
  - left. now exists e.
Qed.

(** A lock written at time [t1] for [ttl] seconds is seen until it
    expires. *)
Lemma locked_after (key : string) (e2 : Env) (w : World) (t1 ttl : Z) :
  redis_read_up e2 key = true ->
  redis w !! key = Some (CStr "1", Some (t1 + ttl)) ->
  now e2 < t1 + ttl ->
  locked key e2 w = true.
Proof.
  intros Hup Hk Hlt. unfold locked, Cache.Get, Cache.client_Get. rewrite Hup, Hk.
  cbn [Cache.live]. now rewrite (proj2 (Z.ltb_lt _ _) Hlt).
Qed.

Section ISS.
Variable s : ISSService.issService.

Lemma ISS_next_ID_above (tbl : list ISSLog) (r : ISSLog) :
  In r tbl -> log_ID r < ISSRepository.next_ID tbl.
Proof.
  unfold ISSRepository.next_ID. induction tbl as [|x tbl IH]; cbn; [contradiction|].
  intros [->|Hin]; [lia|]. specialize (IH Hin). lia.
Qed.

Lemma ISS_next_ID_pos (tbl : list ISSLog) : 0 < ISSRepository.next_ID tbl.
Proof.
  unfold ISSRepository.next_ID. induction tbl as [|x tbl IH]; cbn; lia.
Qed.

Lemma ISS_Create_fresh (env : Env) (w : World) (data : JMap) :
  db_up env = true ->
  ISSRepository.Create env
    {| log_ID := 0; log_FetchedAt := now env; log_SourceURL := ISSService.SourceURL;
       log_Payload := JObj data;
       log_CreatedAt := zero_time; log_UpdatedAt := zero_time |} w
  = (None, set_iss_logs (iss_logs w ++ [row_of env w data]) w).
Proof.
  intros Hdb. unfold ISSRepository.Create. rewrite Hdb. cbn.
  assert (H : existsb (fun r => log_ID r =? ISSRepository.next_ID (iss_logs w))
                (iss_logs w) = false).
  { apply not_true_is_false. intros H. apply existsb_exists in H as (r & Hr & Hc).
    apply Z.eqb_eq in Hc. pose proof (ISS_next_ID_above _ r Hr). lia. }
  rewrite H. reflexivity.
Qed.

(** A tick that finds the lock does nothing at all. *)
Lemma FetchAndStoreISSData_locked (env : Env) (w : World) :
  locked "iss:last_fetch" env w = true ->
  ISSService.FetchAndStoreISSData s env w = (None, w).
Proof.
  unfold locked, ISSService.FetchAndStoreISSData.
  destruct (Cache.Get env "iss:last_fetch" w) as [[v|]|e]; now intros.
Qed.

(** A tick that finds no lock, whose fetch, whose persistence and
    whose write of the lock succeed (the write of the cached position
    may fail: it is only logged). *)
Lemma FetchAndStoreISSData_fetches (env : Env) (w : World) (data : JMap) :
  locked "iss:last_fetch" env w = false ->
  iss_api env = Ok data -> db_up env = true ->
  redis_write_up env "iss:last_fetch" = true ->
  exists w',
    ISSService.FetchAndStoreISSData s env w = (None, w') /\
    upstream w' = upstream w ++ [CallISS] /\
    iss_logs w' = iss_logs w ++ [row_of env w data] /\
    osdr_items w' = osdr_items w /\
    redis w' !! "iss:last_fetch"
      = Some (CStr "1", if 0 <? ISSService.interval s
                        then Some (now env + ISSService.interval s) else None).
Proof.
  intros Hl Hapi Hdb Hwr.
  exists (snd (ISSService.FetchAndStoreISSData s env w)).
  unfold ISSService.FetchAndStoreISSData.
  assert (Hget : match Cache.Get env "iss:last_fetch" w with
                 | Ok (Some _) => false | _ => true end = true).
  { unfold locked in Hl. now destruct (Cache.Get env "iss:last_fetch" w) as [[v|]|e]. }
  destruct (Cache.Get env "iss:last_fetch" w) as [[v|]|e]; try discriminate Hget.
  all: rewrite Hapi; cbn [json_Marshal].
  all: rewrite (ISS_Create_fresh env _ data) by exact Hdb.
  all: unfold Cache.Set_, Cache.client_Set; rewrite Hwr.
  all: destruct (redis_write_up env "iss:last_position"); cbn.
  all: repeat split; apply lookup_insert_eq.
Qed.

(** The failure of a cache write is only logged: the invocation still
    returns nil, and without the lock when it is the write of the lock
    that failed. *)
Lemma FetchAndStoreISSData_lock_write_fails (env : Env) (w : World) (data : JMap) :
  locked "iss:last_fetch" env w = false ->
  iss_api env = Ok data -> db_up env = true ->
  redis_write_up env "iss:last_fetch" = false ->
  exists w',
    ISSService.FetchAndStoreISSData s env w = (None, w') /\
    In "Failed to set fetch lock" (logged w') /\
    redis w' !! "iss:last_fetch" = redis w !! "iss:last_fetch".
Proof.
  intros Hl Hapi Hdb Hwr.
  exists (snd (ISSService.FetchAndStoreISSData s env w)).
  unfold ISSService.FetchAndStoreISSData.
  assert (Hget : match Cache.Get env "iss:last_fetch" w with
                 | Ok (Some _) => false | _ => true end = true).
  { unfold locked in Hl. now destruct (Cache.Get env "iss:last_fetch" w) as [[v|]|e]. }
  destruct (Cache.Get env "iss:last_fetch" w) as [[v|]|e]; try discriminate Hget.
  all: rewrite Hapi; cbn [json_Marshal].
  all: rewrite (ISS_Create_fresh env _ data) by exact Hdb.
  all: unfold Cache.Set_, Cache.client_Set; rewrite Hwr.
  all: destruct (redis_write_up env "iss:last_position"); cbn.
  all: split; [reflexivity|].
  all: split; [rewrite !in_app_iff; cbn; tauto|].
  all: try reflexivity; now rewrite lookup_insert_ne.
Qed.

(** A fetch that fails ends the invocation before anything is stored
    or cached. *)
Lemma FetchAndStoreISSData_fetch_fails (env : Env) (w : World) (e : error) :
  locked "iss:last_fetch" env w = false ->
  iss_api env = Err e ->
  exists w',
    ISSService.FetchAndStoreISSData s env w
      = (Some (Wrap "failed to fetch ISS data" e), w') /\
    upstream w' = upstream w ++ [CallISS] /\
    redis w' = redis w /\ iss_logs w' = iss_logs w.
Proof.
  intros Hl Hapi. eexists. unfold ISSService.FetchAndStoreISSData.
  unfold locked in Hl.
  destruct (Cache.Get env "iss:last_fetch" w) as [[v|]|e0]; try discriminate Hl.
  all: rewrite Hapi; repeat split.
Qed.

(** A row that cannot be saved ends the invocation too: the error is
    returned and no key is written. *)
Lemma FetchAndStoreISSData_save_fails (env : Env) (w : World) (data : JMap) :
  locked "iss:last_fetch" env w = false ->
  iss_api env = Ok data -> db_up env = false ->
  exists w',
    ISSService.FetchAndStoreISSData s env w
      = (Some (Wrap "failed to save ISS data to DB" ErrDB), w') /\
    upstream w' = upstream w ++ [CallISS] /\
    redis w' = redis w /\ iss_logs w' = iss_logs w.
Proof.
  intros Hl Hapi Hdb. eexists. unfold ISSService.FetchAndStoreISSData.
  unfold locked in Hl.
  destruct (Cache.Get env "iss:last_fetch" w) as [[v|]|e0]; try discriminate Hl.
  all: rewrite Hapi; cbn [json_Marshal]; unfold ISSRepository.Create; cbn [db_up log call].
  all: rewrite Hdb; repeat split.
Qed.

End ISS.

Section OSDR.
Variable L : GoLib.
Import OSDRTable.

Lemma FetchAndStoreOSDR_locked (env : Env) (w : World) :
  locked "nasa:osdr:last_fetch" env w = true ->
  NASAService.FetchAndStoreOSDR L env w = (None, w).
Proof.
  unfold locked, NASAService.FetchAndStoreOSDR.
  destruct (Cache.Get env "nasa:osdr:last_fetch" w) as [[v|]|e]; now intros.
Qed.

Lemma osdr_items_fresh (items : list JMap) :
  Forall (fun i => ID i = 0%N) (map (NASAService.osdr_item_of L) items).
Proof. induction items; constructor; trivial. Qed.

Lemma FetchAndStoreOSDR_fetches (env : Env) (w : World) (items : list JMap) :
  locked "nasa:osdr:last_fetch" env w = false ->
  osdr_api env = Ok items -> db_up env = true ->
  redis_write_up env "nasa:osdr:last_fetch" = true ->
  wf_table (osdr_items w) ->
  exists w',
    NASAService.FetchAndStoreOSDR L env w = (None, w') /\
    upstream w' = upstream w ++ [CallOSDR] /\
    iss_logs w' = iss_logs w /\
    wf_table (osdr_items w') /\
    redis w' = <["nasa:osdr:last_fetch" := (CStr "1", Some (now env + 600))]> (redis w).
Proof.
  intros Hl Hapi Hdb Hwr Hwf.
  destruct (OSDRFacts.upsert_each_rows env (map (NASAService.osdr_item_of L) items)
              (osdr_items w) Hwf (osdr_items_fresh items)) as (tbl' & Hrun & Hwf' & _).
  unfold NASAService.FetchAndStoreOSDR. unfold locked in Hl.
  destruct (Cache.Get env "nasa:osdr:last_fetch" w) as [[v|]|e0]; try discriminate Hl.
  all: rewrite Hapi.
  all: destruct (map (NASAService.osdr_item_of L) items) as [|i rest] eqn:Ei.
  all: unfold OSDRRepository.BulkUpsert; cbn [db_up osdr_items log call];
       try rewrite Hdb; try rewrite Hrun.
  all: unfold Cache.Set_, Cache.client_Set; rewrite Hwr; cbn.
  all: eexists; repeat split; try apply Hwf; try apply Hwf'.
Qed.

Lemma FetchAndStoreOSDR_fetch_fails (env : Env) (w : World) (e : error) :
  locked "nasa:osdr:last_fetch" env w = false ->
  osdr_api env = Err e ->
  exists w',
    NASAService.FetchAndStoreOSDR L env w
      = (Some (Wrap "failed to fetch OSDR data" e), w') /\
    upstream w' = upstream w ++ [CallOSDR] /\
    redis w' = redis w /\ osdr_items w' = osdr_items w.
Proof.
  intros Hl Hapi. eexists. unfold NASAService.FetchAndStoreOSDR.
  unfold locked in Hl.
  destruct (Cache.Get env "nasa:osdr:last_fetch" w) as [[v|]|e0]; try discriminate Hl.
  all: rewrite Hapi; repeat split.
Qed.

Lemma FetchAndStoreOSDR_save_fails (env : Env) (w : World) (item : JMap)
    (items : list JMap) :
  locked "nasa:osdr:last_fetch" env w = false ->
  osdr_api env = Ok (item :: items) -> db_up env = false ->
  exists w',
    NASAService.FetchAndStoreOSDR L env w
      = (Some (Wrap "failed to save OSDR data" ErrDB), w') /\
    upstream w' = upstream w ++ [CallOSDR] /\
    redis w' = redis w /\ osdr_items w' = osdr_items w.
Proof.
  intros Hl Hapi Hdb. eexists. unfold NASAService.FetchAndStoreOSDR.
  unfold locked in Hl.
  destruct (Cache.Get env "nasa:osdr:last_fetch" w) as [[v|]|e0]; try discriminate Hl.
  all: rewrite Hapi; cbn [map]; unfold OSDRRepository.BulkUpsert; cbn [db_up log call].
  all: rewrite Hdb; repeat split.
Qed.

End OSDR.

(** APOD and NEO: every invocation enters the Source Client. *)
Lemma FetchAndStoreAPOD_calls (env : Env) (w : World) :
  upstream (snd (NASAService.FetchAndStoreAPOD env w)) = upstream w ++ [CallAPOD ""].
Proof.
  unfold NASAService.FetchAndStoreAPOD, Cache.SetJSON, Cache.client_Set.
  destruct (apod_api env); [|reflexivity].
  destruct (redis_write_up env _); reflexivity.
Qed.

Lemma FetchAndStoreNEO_calls (env : Env) (w : World) :
  upstream (snd (NASAService.FetchAndStoreNEO env w)) = upstream w ++ [CallNEO 7].
Proof.
  unfold NASAService.FetchAndStoreNEO, Cache.SetJSON, Cache.client_Set.
  destruct (neo_api env); [|reflexivity].
  destruct (redis_write_up env _); reflexivity.
Qed.

Lemma locked_redis (key : string) (env : Env) (w w' : World) :
  redis w' !! key = redis w !! key -> locked key env w' = locked key env w.
Proof.
  intros H. unfold locked, Cache.Get, Cache.client_Get. now rewrite H.
Qed.

(** What an APOD or NEO synchronization leaves behind: one more call,
    the tables as they were, and no other key touched than its own. *)
Lemma FetchAndStoreAPOD_frame (env : Env) (w : World) (key : string) :
  key <> "nasa:apod:today" ->
  let w' := snd (NASAService.FetchAndStoreAPOD env w) in
  redis w' !! key = redis w !! key /\
  iss_logs w' = iss_logs w /\ osdr_items w' = osdr_items w.
Proof.
  intros Hk. unfold NASAService.FetchAndStoreAPOD, Cache.SetJSON, Cache.client_Set.
  destruct (apod_api env); [|now repeat split].
  destruct (redis_write_up env _); cbn; [|now repeat split].
  rewrite lookup_insert_ne by congruence. now repeat split.
Qed.

Lemma FetchAndStoreNEO_frame (env : Env) (w : World) (key : string) :
  key <> "nasa:neo:last_week" ->
  let w' := snd (NASAService.FetchAndStoreNEO env w) in
  redis w' !! key = redis w !! key /\
  iss_logs w' = iss_logs w /\ osdr_items w' = osdr_items w.
Proof.
  intros Hk. unfold NASAService.FetchAndStoreNEO, Cache.SetJSON, Cache.client_Set.
  destruct (neo_api env); [|now repeat split].
  destruct (redis_write_up env _); cbn; [|now repeat split].
  rewrite lookup_insert_ne by congruence. now repeat split.
Qed.

(** The tick of a worker is the service call with its error logged. *)
Lemma log_result (r : option error * World) (a b : string) :
  match r with
  | (Some _, w) => log a w
  | (None, w) => log b w
  end = log (match fst r with Some _ => a | None => b end) (snd r).
Proof. now destruct r as [[e|] w]. Qed.

Lemma fetchISSData_world (s : ISSService.issService) (env : Env) (w : World) :
  exists line,
    Worker.fetchISSData s env w
      = log line (snd (ISSService.FetchAndStoreISSData s env w)).
Proof. unfold Worker.fetchISSData. rewrite log_result. eexists. reflexivity. Qed.

Lemma syncNASA_world (L : GoLib) (env : Env) (w : World) :
  exists l1 l2 l3,
    Worker.syncNASA L env w
      = log "NASA Worker: Sync completed"
          (log l3 (snd (NASAService.FetchAndStoreNEO env
             (log l2 (snd (NASAService.FetchAndStoreAPOD env
                (log l1 (snd (NASAService.FetchAndStoreOSDR L env
                   (log "NASA Worker: Starting sync..." w)))))))))).
Proof.
  unfold Worker.syncNASA. cbn zeta. rewrite !log_result.
  do 3 eexists. reflexivity.
Qed.




(** The scenario of the specification: an interval of 120 seconds, a
    tick at 0 that fetches, a tick at 60 that finds the lock, a tick
    at 130 that finds it expired and fetches again. *)
Example ticks_at_0_60_130 :
  let w0 := Worker.fetchISSData Examples.iss (Examples.healthy 0) Examples.fresh in
  let w60 := Worker.fetchISSData Examples.iss (Examples.healthy 60) w0 in
  let w130 := Worker.fetchISSData Examples.iss (Examples.healthy 130) w60 in
  upstream w0 = [CallISS] /\ upstream w60 = [CallISS] /\
  upstream w130 = [CallISS; CallISS] /\
  map log_FetchedAt (iss_logs w130) = [0; 130].
Proof. repeat split. Qed.




(** The manual trigger is the synchronization itself, lock test
    included. *)
Lemma ForceFetchISS_locked (s : ISSService.issService) (env : Env) (w : World) :
  locked "iss:last_fetch" env w = true ->
  Handlers.ForceFetchISS s env w
    = (Handlers.Success 200 "ISS data fetched successfully", w).
Proof.
  intros Hl. unfold Handlers.ForceFetchISS.
  now rewrite (FetchAndStoreISSData_locked s env w Hl).
Qed.

(** The error of the synchronization reaches the caller. *)
Lemma ForceFetchISS_propagates (s : ISSService.issService) (env : Env) (w w' : World)
    (e : error) :
  ISSService.FetchAndStoreISSData s env w = (Some e, w') ->
  Handlers.ForceFetchISS s env w = (Handlers.Failure 500 "failed to fetch ISS data" e, w').
Proof. intros H. unfold Handlers.ForceFetchISS. now rewrite H. Qed.

(** C8 on the code: a synchronization at time 1000 sets the lock for
    120 seconds; the manual trigger ten seconds later answers 200
    "ISS data fetched successfully" and has called nothing upstream. *)
Theorem ForceFetchISS_under_lock :
  let w1 := snd (ISSService.FetchAndStoreISSData Examples.iss (Examples.healthy 1000)
                   Examples.fresh) in
  let r := Handlers.ForceFetchISS Examples.iss (Examples.healthy 1010) w1 in
  locked "iss:last_fetch" (Examples.healthy 1010) w1 = true /\
  fst r = Handlers.Success 200 "ISS data fetched successfully" /\
  upstream w1 = [CallISS] /\
  upstream (snd r) = [CallISS].
Proof. repeat split. Qed.

End SyncFacts.

(** ** The read path *)

Module ReadFacts.
Import Notions.

(** Case analysis on what the collaborators do, then on what is left
    to match on. *)
Ltac env_cases env := destruct (db_up env) eqn:?.

Ltac split_cases :=
  repeat (cbn -[Z.add Z.ltb Z.leb pretty];
          match goal with
          | |- context [match ?x with _ => _ end] =>
              lazymatch x with
              | context [match _ with _ => _ end] => fail
              | _ => destruct x eqn:?
              end
          end);
  cbn -[Z.add Z.ltb Z.leb pretty].

(** Reads of the ISS service and the list of OSDR items never enter a
    Source Client. *)
Lemma GetLastPosition_upstream (env : Env) (w : World) :
  upstream (snd (ISSService.GetLastPosition env w)) = upstream w.
Proof.
  unfold ISSService.GetLastPosition, ISSRepository.GetLast, Cache.Get, Cache.client_Get,
    Cache.Set_, Cache.client_Set.
  env_cases env; split_cases; reflexivity.
Qed.

Lemma GetTrend_upstream (L : GoLib) (env : Env) (limit : Z) (w : World) :
  upstream (snd (ISSService.GetTrend L env limit w)) = upstream w.
Proof.
  unfold ISSService.GetTrend, ISSRepository.GetLastN, Cache.GetJSON, Cache.client_Get,
    Cache.SetJSON, Cache.client_Set.
  env_cases env; split_cases; reflexivity.
Qed.

Lemma GetPositionsHistory_upstream (env : Env) (hours : Z) (w : World) :
  upstream (snd (ISSService.GetPositionsHistory env hours w)) = upstream w.
Proof.
  unfold ISSService.GetPositionsHistory, ISSRepository.GetSince, Cache.GetJSON,
    Cache.client_Get, Cache.SetJSON, Cache.client_Set.
  env_cases env; split_cases; reflexivity.
Qed.

Lemma GetOSDRList_upstream (env : Env) (page limit : Z) (w : World) :
  upstream (snd (NASAService.GetOSDRList env page limit w)) = upstream w.
Proof.
  unfold NASAService.GetOSDRList, OSDRRepository.GetPaginated, Cache.GetJSON,
    Cache.client_Get, Cache.SetJSON, Cache.client_Set.
  env_cases env; split_cases; reflexivity.
Qed.

(** On a miss they answer from the repository. *)
Lemma GetLastPosition_miss (env : Env) (w : World) :
  Cache.client_Get env "iss:last_position" w = Cache.Nil ->
  fst (ISSService.GetLastPosition env w)
    = match ISSRepository.GetLast env w with
      | Ok issLog => Ok issLog
      | Err e => Err (Wrap "failed to get last ISS position" e)
      end.
Proof.
  intros H. unfold ISSService.GetLastPosition, Cache.Get. rewrite H.
  now destruct (ISSRepository.GetLast env w).
Qed.

Lemma GetOSDRList_miss (env : Env) (page limit : Z) (w : World) :
  let page' := if page <? 1 then 1 else page in
  let limit' := if (limit <? 1) || (100 <? limit) then 20 else limit in
  Cache.client_Get env (NASAService.osdrListKey page' limit') w = Cache.Nil ->
  fst (NASAService.GetOSDRList env page limit w)
    = match OSDRRepository.GetPaginated env page' limit' w with
      | Ok items => Ok items
      | Err e => Err (Wrap "failed to get OSDR list" e)
      end.
Proof.
  cbn zeta. intros H. unfold NASAService.GetOSDRList, Cache.GetJSON. rewrite H.
  now destruct (OSDRRepository.GetPaginated _ _ _ w).
Qed.

(** The APOD, NEO and DONKI reads go upstream on a miss. *)
Lemma GetLatestAPOD_miss (env : Env) (w : World) :
  Cache.client_Get env "nasa:apod:today" w = Cache.Nil ->
  upstream (snd (NASAService.GetLatestAPOD env w)) = upstream w ++ [CallAPOD ""].
Proof.
  intros H. unfold NASAService.GetLatestAPOD. unfold Cache.GetJSON at 1. rewrite H.
  pose proof (SyncFacts.FetchAndStoreAPOD_calls env w) as Hc.
  destruct (NASAService.FetchAndStoreAPOD env w) as [[e|] w']; cbn [snd] in *; trivial.
  now destruct (Cache.GetJSON unmarshal_map env "nasa:apod:today" w') as [[[m|]|]|e].
Qed.

Lemma GetLatestNEO_miss (env : Env) (days : Z) (w : World) :
  let days' := if (days <? 1) || (30 <? days) then 7 else days in
  Cache.client_Get env (NASAService.neoKey days') w = Cache.Nil ->
  upstream (snd (NASAService.GetLatestNEO env days w)) = upstream w ++ [CallNEO 7].
Proof.
  cbn zeta. intros H.
  unfold NASAService.GetLatestNEO. unfold Cache.GetJSON at 1. rewrite H.
  pose proof (SyncFacts.FetchAndStoreNEO_calls env w) as Hc.
  destruct (NASAService.FetchAndStoreNEO env w) as [[e|] w']; cbn [snd] in *; trivial.
  now destruct (Cache.GetJSON unmarshal_map env _ w') as [[[m|]|]|e].
Qed.

Lemma GetDONKI_miss (env : Env) (eventType : string) (days : Z) (w : World) :
  let days' := if (days <? 1) || (30 <? days) then 5 else days in
  Cache.client_Get env (NASAService.donkiKey eventType days') w = Cache.Nil ->
  upstream (snd (NASAService.GetDONKI env eventType days w))
    = upstream w ++ [CallDONKI eventType days'].
Proof.
  cbn zeta. intros H. unfold NASAService.GetDONKI, Cache.GetJSON. rewrite H.
  unfold Cache.SetJSON, Cache.client_Set.
  destruct (donki_api env); [|reflexivity].
  now destruct (redis_write_up env _).
Qed.

(** C1, as the specification states it, fails: with nothing cached,
    serving get-latest for the APOD domain enters the Source Client. *)
Lemma GetLatestAPOD_fetches_on_miss :
  let r := NASAService.GetLatestAPOD (Examples.healthy 0) Examples.fresh in
  fst r = Ok (Some [("title", JStr "Orion")]) /\
  upstream Examples.fresh = [] /\
  upstream (snd r) = [CallAPOD ""].
Proof. repeat split. Qed.

(** C1, amended: get-latest position, get-trend and get-history of
    the ISS service and get-list of the OSDR items never call a Source
    Client, whatever the cache and the stores do; on a cache miss
    get-latest position and get-list answer with what the Durable
    Repository returns.  The get-latest operations of the APOD and NEO domains
    and the DONKI read are read-through: on a cache miss each of them
    calls its Source Client once. *)
Theorem reads_and_the_source_client
    (L : GoLib) (env : Env) (w : World) (limit page days hours : Z)
    (eventType : string) :
  let page' := if page <? 1 then 1 else page in
  let limit' := if (limit <? 1) || (100 <? limit) then 20 else limit in
  let days7 := if (days <? 1) || (30 <? days) then 7 else days in
  let days5 := if (days <? 1) || (30 <? days) then 5 else days in
  (upstream (snd (ISSService.GetLastPosition env w)) = upstream w /\
   upstream (snd (ISSService.GetTrend L env limit w)) = upstream w /\
   upstream (snd (ISSService.GetPositionsHistory env hours w)) = upstream w /\
   upstream (snd (NASAService.GetOSDRList env page limit w)) = upstream w) /\
  (Cache.client_Get env "iss:last_position" w = Cache.Nil ->
   fst (ISSService.GetLastPosition env w)
     = match ISSRepository.GetLast env w with
       | Ok issLog => Ok issLog
       | Err e => Err (Wrap "failed to get last ISS position" e)
       end) /\
  (Cache.client_Get env (NASAService.osdrListKey page' limit') w = Cache.Nil ->
   fst (NASAService.GetOSDRList env page limit w)
     = match OSDRRepository.GetPaginated env page' limit' w with
       | Ok items => Ok items
       | Err e => Err (Wrap "failed to get OSDR list" e)
       end) /\
  (Cache.client_Get env "nasa:apod:today" w = Cache.Nil ->
   upstream (snd (NASAService.GetLatestAPOD env w)) = upstream w ++ [CallAPOD ""]) /\
  (Cache.client_Get env (NASAService.neoKey days7) w = Cache.Nil ->
   upstream (snd (NASAService.GetLatestNEO env days w)) = upstream w ++ [CallNEO 7]) /\
  (Cache.client_Get env (NASAService.donkiKey eventType days5) w = Cache.Nil ->
   upstream (snd (NASAService.GetDONKI env eventType days w))
     = upstream w ++ [CallDONKI eventType days5]).
Proof.
  cbn zeta. repeat split.
  - apply GetLastPosition_upstream.
  - apply GetTrend_upstream.
  - apply GetPositionsHistory_upstream.
  - apply GetOSDRList_upstream.
  - apply GetLastPosition_miss.
  - apply GetOSDRList_miss.
  - apply GetLatestAPOD_miss.
  - apply GetLatestNEO_miss.
  - apply GetDONKI_miss.
Qed.

Lemma reads_and_the_source_client_witness :
  fst (ISSService.GetLastPosition (Examples.healthy 0) Examples.fresh)
    = Err (Wrap "failed to get last ISS position" ErrRecordNotFound) /\
  fst (NASAService.GetOSDRList (Examples.healthy 0) 1 20 Examples.fresh) = Ok [] /\
  upstream (snd (NASAService.GetLatestAPOD (Examples.healthy 0) Examples.fresh))
    = [CallAPOD ""] /\
  upstream (snd (NASAService.GetLatestNEO (Examples.healthy 0) 7 Examples.fresh))
    = [CallNEO 7] /\
  upstream (snd (NASAService.GetDONKI (Examples.healthy 0) "FLR" 7 Examples.fresh))
    = [CallDONKI "FLR" 7].
Proof.
  destruct (reads_and_the_source_client Examples.lib (Examples.healthy 0) Examples.fresh
              20 1 7 24 "FLR") as (_ & H1 & H2 & H3 & H4 & H5).
  split; [exact (H1 eq_refl)|]. split; [exact (H2 eq_refl)|].
  split; [exact (H3 eq_refl)|]. split; [exact (H4 eq_refl)|exact (H5 eq_refl)].
Defined.

(** ** The trend *)

(** A missing trend key is answered with the zero value of the
    destination: the repository is not consulted. *)
Lemma GetTrend_miss (L : GoLib) (env : Env) (limit : Z) (w : World) :
  Cache.client_Get env (ISSService.trendKey (if limit <=? 0 then 240 else limit)) w
    = Cache.Nil ->
  ISSService.GetTrend L env limit w = (Ok ISSTrend_zero, w).
Proof.
  intros H. unfold ISSService.GetTrend, Cache.GetJSON. now rewrite H.
Qed.

(** The trend is computed from the two latest rows only when the read
    of the cache fails. *)
Lemma GetTrend_cache_error (L : GoLib) (env : Env) (limit : Z) (w : World)
    (current previous : ISSLog) (rest : list ISSLog) :
  redis_read_up env (ISSService.trendKey (if limit <=? 0 then 240 else limit)) = false ->
  ISSRepository.GetLastN env 2 w = Ok (current :: previous :: rest) ->
  fst (ISSService.GetTrend L env limit w)
    = Ok (ISSService.calculateTrend L current previous).
Proof.
  intros Hr Hn. unfold ISSService.GetTrend, Cache.GetJSON, Cache.client_Get.
  rewrite Hr, Hn. reflexivity.
Qed.

(** C5 on the code: two synchronizations store the positions 10N 20E
    and 11N 20E, one degree of latitude apart; nothing is cached under
    the trend key and Redis answers; get-trend then returns the zero
    trend, whose [delta_km] is 0 and not within one percent of 111. *)
Theorem GetTrend_one_degree_apart (L : GoLib) :
  let w1 := snd (ISSService.FetchAndStoreISSData Examples.iss
                   (Examples.over 10 20 1000) Examples.fresh) in
  let w2 := snd (ISSService.FetchAndStoreISSData Examples.iss
                   (Examples.over 11 20 1200) w1) in
  map log_Payload (iss_logs w2)
    = [JObj (Examples.position 10 20); JObj (Examples.position 11 20)] /\
  Cache.client_Get (Examples.healthy 1210) (ISSService.trendKey 240) w2 = Cache.Nil /\
  ISSService.GetTrend L (Examples.healthy 1210) 0 w2 = (Ok ISSTrend_zero, w2) /\
  DeltaKm ISSTrend_zero = 0%float /\
  within_1pct_of_111 (DeltaKm ISSTrend_zero) = false.
Proof. repeat split. Qed.

(** *** No trend is cached before two samples are stored *)

Ltac not_trend_key Hk :=
  let n := fresh "n" in let Hn := fresh "Hn" in
  let Heq := fresh "Heq" in
  intros Heq; rewrite <- Heq in Hk; destruct Hk as [n Hn];
  unfold ISSService.trendKey, ISSService.historyKey, NASAService.osdrListKey,
    NASAService.neoKey, NASAService.donkiKey in Hn;
  cbn in Hn; discriminate Hn.

Ltac frame_cases :=
  split_cases;
  (split;
   [ cbn; rewrite ?length_app; cbn; lia
   | let k := fresh "k" in let Hk := fresh "Hk" in
     intros k Hk; cbn;
     repeat (rewrite lookup_insert_ne; [|not_trend_key Hk]); reflexivity ]).

Lemma trend_frame_keeps (w w' : World) :
  trend_frame w w' -> no_stale_trend w -> no_stale_trend w'.
Proof.
  intros [Hlen Hkeys] Hinv k Hk Hsome. rewrite (Hkeys k Hk) in Hsome.
  specialize (Hinv k Hk Hsome). lia.
Qed.

Lemma FetchAndStoreISSData_frame (s : ISSService.issService) (env : Env) (w : World) :
  trend_frame w (snd (ISSService.FetchAndStoreISSData s env w)).
Proof.
  unfold ISSService.FetchAndStoreISSData, ISSRepository.Create, Cache.Get,
    Cache.client_Get, Cache.Set_, Cache.client_Set, json_Marshal.
  env_cases env; frame_cases.
Qed.

Lemma GetLastPosition_frame (env : Env) (w : World) :
  trend_frame w (snd (ISSService.GetLastPosition env w)).
Proof.
  unfold ISSService.GetLastPosition, ISSRepository.GetLast, Cache.Get,
    Cache.client_Get, Cache.Set_, Cache.client_Set.
  env_cases env; frame_cases.
Qed.

Lemma GetPositionsHistory_frame (env : Env) (hours : Z) (w : World) :
  trend_frame w (snd (ISSService.GetPositionsHistory env hours w)).
Proof.
  unfold ISSService.GetPositionsHistory, ISSRepository.GetSince, Cache.GetJSON,
    Cache.client_Get, Cache.SetJSON, Cache.client_Set.
  env_cases env; frame_cases.
Qed.

Lemma other_cache_frame (env : Env) (pre key : string) (v : CVal) (ttl : Z) (w : World) :
  pre = "astro:" \/ pre = "jwst:" ->
  trend_frame w (snd (Cache.SetJSON env (pre +:+ key) (Ok v) ttl w)).
Proof.
  intros Hpre. unfold Cache.SetJSON, Cache.client_Set.
  destruct (redis_write_up env _); [|now split].
  split; [cbn; lia|]. intros k Hk. cbn.
  rewrite lookup_insert_ne; [reflexivity|].
  intros Heq. rewrite <- Heq in Hk. destruct Hk as [n Hn].
  unfold ISSService.trendKey in Hn. destruct Hpre as [-> | ->]; cbn in Hn; discriminate Hn.
Qed.

Lemma BulkUpsert_trend_frame (env : Env) (items : list OSDRItem) (w : World) :
  trend_frame w (snd (OSDRRepository.BulkUpsert env items w)).
Proof.
  unfold OSDRRepository.BulkUpsert.
  destruct (db_up env); [|now split].
  destruct (OSDRRepository.upsert_each env items (osdr_items w)); now split.
Qed.

Lemma trend_frame_trans (w1 w2 w3 : World) :
  trend_frame w1 w2 -> trend_frame w2 w3 -> trend_frame w1 w3.
Proof.
  intros [H1 H2] [H3 H4]. split; [lia|].
  intros k Hk. now rewrite (H4 k Hk), (H2 k Hk).
Qed.

Lemma FetchAndStoreOSDR_frame (L : GoLib) (env : Env) (w : World) :
  trend_frame w (snd (NASAService.FetchAndStoreOSDR L env w)).
Proof.
  unfold NASAService.FetchAndStoreOSDR.
  destruct (Cache.Get env "nasa:osdr:last_fetch" w) as [[v|]|e]; [now split| |].
  all: destruct (osdr_api env) as [items|e']; [|now split].
  all: set (w0 := call CallOSDR (log "Fetching NASA OSDR data..." w)).
  all: assert (H0 : trend_frame w w0) by now split.
  all: destruct (map (NASAService.osdr_item_of L) items) as [|i rest].
  all: try (pose proof (BulkUpsert_trend_frame env (i :: rest) w0) as HB;
            destruct (OSDRRepository.BulkUpsert env (i :: rest) w0) as [[e1|] w1];
            cbn [snd] in HB).
  all: unfold Cache.Set_, Cache.client_Set.
  all: destruct (redis_write_up env "nasa:osdr:last_fetch"); cbn [snd fst].
  all: try (apply (trend_frame_trans _ _ _ H0); exact HB).
  all: try (apply (trend_frame_trans _ _ _ H0)).
  all: try (apply (trend_frame_trans _ _ _ HB)).
  all: split; [cbn; lia|].
  all: intros k Hk; cbn.
  all: try (rewrite lookup_insert_ne; [|not_trend_key Hk]); reflexivity.
Qed.

Lemma FetchAndStoreAPOD_trend_frame (env : Env) (w : World) :
  trend_frame w (snd (NASAService.FetchAndStoreAPOD env w)).
Proof.
  unfold NASAService.FetchAndStoreAPOD, Cache.SetJSON, Cache.client_Set.
  env_cases env; frame_cases.
Qed.

Lemma FetchAndStoreNEO_trend_frame (env : Env) (w : World) :
  trend_frame w (snd (NASAService.FetchAndStoreNEO env w)).
Proof.
  unfold NASAService.FetchAndStoreNEO, Cache.SetJSON, Cache.client_Set.
  env_cases env; frame_cases.
Qed.

Lemma GetOSDRList_frame (env : Env) (page limit : Z) (w : World) :
  trend_frame w (snd (NASAService.GetOSDRList env page limit w)).
Proof.
  unfold NASAService.GetOSDRList, OSDRRepository.GetPaginated, Cache.GetJSON,
    Cache.client_Get, Cache.SetJSON, Cache.client_Set.
  env_cases env; frame_cases.
Qed.

Lemma GetLatestAPOD_frame (env : Env) (w : World) :
  trend_frame w (snd (NASAService.GetLatestAPOD env w)).
Proof.
  unfold NASAService.GetLatestAPOD.
  pose proof (FetchAndStoreAPOD_trend_frame env w) as HF.
  destruct (NASAService.FetchAndStoreAPOD env w) as [[e|] w']; cbn [snd] in HF.
  all: destruct (Cache.GetJSON unmarshal_map env "nasa:apod:today" w) as [[[m|]|]|e0].
  all: try (now split); try exact HF.
  all: now destruct (Cache.GetJSON unmarshal_map env "nasa:apod:today" w') as [[[m|]|]|e1].
Qed.

Lemma GetLatestNEO_frame (env : Env) (days : Z) (w : World) :
  trend_frame w (snd (NASAService.GetLatestNEO env days w)).
Proof.
  unfold NASAService.GetLatestNEO.
  pose proof (FetchAndStoreNEO_trend_frame env w) as HF.
  destruct (NASAService.FetchAndStoreNEO env w) as [[e|] w']; cbn [snd] in HF.
  all: destruct (Cache.GetJSON unmarshal_map env _ w) as [[[m|]|]|e0].
  all: try (now split); try exact HF.
  all: now destruct (Cache.GetJSON unmarshal_map env _ w') as [[[m|]|]|e1].
Qed.

Lemma GetDONKI_frame (env : Env) (eventType : string) (days : Z) (w : World) :
  trend_frame w (snd (NASAService.GetDONKI env eventType days w)).
Proof.
  unfold NASAService.GetDONKI, Cache.GetJSON, Cache.client_Get, Cache.SetJSON,
    Cache.client_Set.
  env_cases env; frame_cases.
Qed.

Lemma length_insert_ordered {A : Type} (before : A -> A -> bool) (x : A) (l : list A) :
  length (insert_ordered before x l) = S (length l).
Proof.
  induction l as [|y l IH]; cbn; [reflexivity|].
  destruct (before x y); cbn; [reflexivity|now rewrite IH].
Qed.

Lemma length_order_by {A : Type} (before : A -> A -> bool) (l : list A) :
  length (order_by before l) = length l.
Proof.
  induction l as [|x l IH]; cbn; [reflexivity|].
  now rewrite length_insert_ordered, IH.
Qed.

(** [GetLastN(ctx, 2)] returns two rows exactly when two are stored. *)
Lemma GetLastN_2_length (env : Env) (w : World) (positions : list ISSLog) :
  ISSRepository.GetLastN env 2 w = Ok positions ->
  length positions = Nat.min 2 (length (iss_logs w)).
Proof.
  unfold ISSRepository.GetLastN. destruct (db_up env); [|discriminate].
  intros H. injection H as <-. unfold Limit. cbn [Z.ltb Z.compare].
  rewrite length_firstn, length_order_by. reflexivity.
Qed.

Lemma GetTrend_keeps (L : GoLib) (env : Env) (limit : Z) (w : World) :
  no_stale_trend w -> no_stale_trend (snd (ISSService.GetTrend L env limit w)).
Proof.
  intros Hinv. unfold ISSService.GetTrend.
  destruct (Cache.GetJSON unmarshal_trend env _ w) as [[t|]|e]; try exact Hinv.
  destruct (ISSRepository.GetLastN env 2 w) as [positions|e'] eqn:E; [|exact Hinv].
  destruct positions as [|current [|previous rest]]; try exact Hinv.
  apply GetLastN_2_length in E. cbn [length] in E.
  assert (Hlen : (2 <= length (iss_logs w))%nat) by lia.
  unfold Cache.SetJSON, Cache.client_Set.
  destruct (marshal_trend _); try destruct (redis_write_up env _); cbn [snd].
  all: intros k Hk Hsome; exact Hlen.
Qed.

(** Every reachable state keeps the invariant. *)
Lemma reachable_no_stale_trend (s : ISSService.issService) (L : GoLib) (w : World) :
  reachable s L w -> no_stale_trend w.
Proof.
  induction 1 as [w Hempty|o w Hreach IH].
  - intros k _ Hsome. now rewrite Hempty, lookup_empty in Hsome.
  - destruct o; cbn [exec].
    + exact (trend_frame_keeps _ _ (FetchAndStoreISSData_frame s env w) IH).
    + exact (trend_frame_keeps _ _ (GetLastPosition_frame env w) IH).
    + exact (GetTrend_keeps L env limit w IH).
    + exact (trend_frame_keeps _ _ (GetPositionsHistory_frame env hours w) IH).
    + exact (trend_frame_keeps _ _ (FetchAndStoreOSDR_frame L env w) IH).
    + exact (trend_frame_keeps _ _ (FetchAndStoreAPOD_trend_frame env w) IH).
    + exact (trend_frame_keeps _ _ (FetchAndStoreNEO_trend_frame env w) IH).
    + exact (trend_frame_keeps _ _ (GetOSDRList_frame env page limit w) IH).
    + exact (trend_frame_keeps _ _ (GetLatestAPOD_frame env w) IH).
    + exact (trend_frame_keeps _ _ (GetLatestNEO_frame env days w) IH).
    + exact (trend_frame_keeps _ _ (GetDONKI_frame env eventType days w) IH).
    + exact (trend_frame_keeps _ _
               (other_cache_frame env "astro:" key v ttl w (or_introl eq_refl)) IH).
    + exact (trend_frame_keeps _ _
               (other_cache_frame env "jwst:" key v ttl w (or_intror eq_refl)) IH).
Qed.

Lemma neutral_zero : neutral ISSTrend_zero.
Proof. repeat split. Qed.

(** With fewer than two samples stored, get-trend answers with the
    neutral trend as soon as one of the two stores answers. *)
Lemma GetTrend_few_stored
    (s : ISSService.issService) (L : GoLib) (w : World) (env : Env) (limit : Z) :
  reachable s L w ->
  (length (iss_logs w) < 2)%nat ->
  redis_read_up env (ISSService.trendKey (if limit <=? 0 then 240 else limit)) = true
  \/ db_up env = true ->
  ISSService.GetTrend L env limit w = (Ok ISSTrend_zero, w).
Proof.
  intros Hreach Hlen Hup.
  pose proof (reachable_no_stale_trend s L w Hreach) as Hinv.
  set (key := ISSService.trendKey (if limit <=? 0 then 240 else limit)) in *.
  assert (Hnone : redis w !! key = None).
  { destruct (redis w !! key) as [p|] eqn:E; [|reflexivity].
    assert (Hk : is_trend_key key) by (eexists; reflexivity).
    assert (Hs : redis w !! key <> None) by (rewrite E; discriminate).
    specialize (Hinv key Hk Hs). lia. }
  unfold ISSService.GetTrend, Cache.GetJSON, Cache.client_Get. fold key.
  rewrite Hnone.
  destruct (redis_read_up env key); [reflexivity|].
  destruct Hup as [Hup|Hup]; [discriminate|].
  destruct (ISSRepository.GetLastN env 2 w) as [positions|e] eqn:Hn.
  - pose proof (GetLastN_2_length env w positions Hn) as Hl.
    destruct positions as [|current [|previous rest]]; try reflexivity.
    cbn [length] in Hl. lia.
  - unfold ISSRepository.GetLastN in Hn. now rewrite Hup in Hn.
Qed.

(** It fails only when neither the cache nor the repository answers. *)
Lemma GetTrend_stores_down (L : GoLib) (env : Env) (limit : Z) (w : World) :
  redis_read_up env (ISSService.trendKey (if limit <=? 0 then 240 else limit)) = false ->
  db_up env = false ->
  ISSService.GetTrend L env limit w
    = (Err (Wrap "failed to get ISS positions" ErrDB), w).
Proof.
  intros Hr Hd.
  unfold ISSService.GetTrend, Cache.GetJSON, Cache.client_Get, ISSRepository.GetLastN.
  now rewrite Hr, Hd.
Qed.

(** C6, as the specification states it, fails: with no sample
    stored, when neither the cache nor the repository answers,
    get-trend returns a failure. *)
Lemma GetTrend_no_sample_stores_down :
  let env :=
    {| now := 10; redis_read_up := fun _ => false; redis_write_up := fun _ => false;
       db_up := false;
       orm_UpdatedAt_insert := fun v => v; orm_UpdatedAt_update := fun v => v;
       iss_api := Err ErrJSON; osdr_api := Err ErrJSON; apod_api := Err ErrJSON;
       neo_api := Err ErrJSON; donki_api := Err ErrJSON |} in
  iss_logs Examples.fresh = [] /\
  reachable Examples.iss Examples.lib Examples.fresh /\
  ISSService.GetTrend Examples.lib env 0 Examples.fresh
  = (Err (Wrap "failed to get ISS positions" ErrDB), Examples.fresh).
Proof.
  cbv zeta. split; [reflexivity|]. split; [|reflexivity].
  now apply reach_start.
Qed.

(** C6, amended: in every state the services reach from an empty
    cache, when fewer than two positional samples are stored,
    get-trend changes nothing and returns the neutral trend (no
    movement, [delta_km] 0, no optional field) and no failure as soon
    as the cache or the repository answers; when neither answers it
    returns the failure of the repository. *)
Theorem GetTrend_few_samples_or_stores_down
    (s : ISSService.issService) (L : GoLib) (w : World) (env : Env) (limit : Z) :
  reachable s L w ->
  (length (iss_logs w) < 2)%nat ->
  ISSService.GetTrend L env limit w
  = (if redis_read_up env (ISSService.trendKey (if limit <=? 0 then 240 else limit))
        || db_up env
     then Ok ISSTrend_zero
     else Err (Wrap "failed to get ISS positions" ErrDB), w) /\
  neutral ISSTrend_zero.
Proof.
  intros Hreach Hlen. split; [|exact ReadFacts.neutral_zero].
  destruct (redis_read_up env _) eqn:Hr; cbn [orb].
  - apply (ReadFacts.GetTrend_few_stored s L w env limit Hreach Hlen). now left.
  - destruct (db_up env) eqn:Hd.
    + apply (ReadFacts.GetTrend_few_stored s L w env limit Hreach Hlen). now right.
    + now apply ReadFacts.GetTrend_stores_down.
Qed.

Lemma GetTrend_few_samples_or_stores_down_witness :
  let w1 := snd (ISSService.FetchAndStoreISSData Examples.iss (Examples.healthy 0)
                   Examples.fresh) in
  length (iss_logs w1) = 1%nat /\
  ISSService.GetTrend Examples.lib (Examples.redis_down 10) 0 w1
  = (Ok ISSTrend_zero, w1) /\
  neutral ISSTrend_zero.
Proof.
  cbv zeta. split; [reflexivity|].
  apply (GetTrend_few_samples_or_stores_down Examples.iss Examples.lib _
           (Examples.redis_down 10) 0).
  - exact (reach_step Examples.iss Examples.lib
             (FetchAndStoreISSData (Examples.healthy 0)) Examples.fresh
             (reach_start Examples.iss Examples.lib Examples.fresh eq_refl)).
  - vm_compute. lia.
Defined.

End ReadFacts.

(** ** Ordered queries *)

Module OrderFacts.

Lemma insert_ordered_In {A : Type} (before : A -> A -> bool) (x y : A) (l : list A) :
  In y (insert_ordered before x l) <-> y = x \/ In y l.
Proof.
  induction l as [|z l IH]; cbn.
  - intuition congruence.
  - destruct (before x z); cbn; [intuition congruence|].
    rewrite IH. intuition congruence.
Qed.

Lemma order_by_In {A : Type} (before : A -> A -> bool) (y : A) (l : list A) :
  In y (order_by before l) <-> In y l.
Proof.
  induction l as [|x l IH]; cbn; [reflexivity|].
  rewrite insert_ordered_In, IH. intuition congruence.
Qed.

Lemma insert_ordered_perm {A : Type} (before : A -> A -> bool) (x : A) (l : list A) :
  Permutation (insert_ordered before x l) (x :: l).
Proof.
  induction l as [|z l IH]; cbn; [reflexivity|].
  destruct (before x z); [reflexivity|].
  rewrite IH. apply perm_swap.
Qed.

Lemma order_by_perm {A : Type} (before : A -> A -> bool) (l : list A) :
  Permutation (order_by before l) l.
Proof.
  induction l as [|x l IH]; cbn; [reflexivity|].
  rewrite insert_ordered_perm. now constructor.
Qed.

Section Sorting.
Context {A : Type} (before : A -> A -> bool).
Hypothesis total : forall a b, before a b = false -> before b a = true.
Hypothesis trans : forall a b c, before a b = true -> before b c = true -> before a c = true.

Lemma insert_ordered_sorted (x : A) (l : list A) :
  StronglySorted (fun a b => before a b = true) l ->
  StronglySorted (fun a b => before a b = true) (insert_ordered before x l).
Proof.
  induction 1 as [|z l Hs IH Hz]; cbn.
  - constructor; constructor.
  - destruct (before x z) eqn:E.
    + constructor; [now constructor|].
      constructor; [exact E|].
      rewrite List.Forall_forall in *. intros b Hb. apply (trans x z b E). now apply Hz.
    + constructor; [exact IH|].
      rewrite List.Forall_forall in *. intros b Hb.
      apply insert_ordered_In in Hb as [->|Hb]; [now apply total|now apply Hz].
Qed.

Lemma order_by_sorted (l : list A) :
  StronglySorted (fun a b => before a b = true) (order_by before l).
Proof.
  induction l as [|x l IH]; cbn; [constructor|].
  now apply insert_ordered_sorted.
Qed.

End Sorting.

Lemma sorted_app {A : Type} (R : A -> A -> Prop) (l1 l2 : list A) :
  StronglySorted R (l1 ++ l2) ->
  forall a b, In a l1 -> In b l2 -> R a b.
Proof.
  induction l1 as [|x l1 IH]; cbn; intros Hs a b Ha Hb; [contradiction|].
  inversion Hs as [|? ? Hs' Hx]; subst.
  destruct Ha as [->|Ha].
  - rewrite List.Forall_forall in Hx. apply Hx. apply in_or_app. now right.
  - now apply IH.
Qed.

Lemma sorted_firstn {A : Type} (R : A -> A -> Prop) (n : nat) (l : list A) :
  StronglySorted R l -> StronglySorted R (firstn n l).
Proof.
  intros Hs. revert n. induction Hs as [|x l Hs IH Hx]; intros [|n]; cbn; try constructor.
  - apply IH.
  - rewrite List.Forall_forall in *. intros b Hb. apply Hx.
    rewrite <- (firstn_skipn n l). apply in_or_app. now left.
Qed.

Lemma sorted_skipn {A : Type} (R : A -> A -> Prop) (n : nat) (l : list A) :
  StronglySorted R l -> StronglySorted R (skipn n l).
Proof.
  intros Hs. revert n.
  induction Hs as [|x l Hs IH Hx]; intros [|n]; cbn; try constructor; trivial.
Qed.

Lemma sorted_weaken {A : Type} (R R' : A -> A -> Prop) (l : list A) :
  (forall a b, R a b -> R' a b) -> StronglySorted R l -> StronglySorted R' l.
Proof.
  intros H. induction 1 as [|x l Hs IH Hx]; constructor; trivial.
  rewrite List.Forall_forall in *. auto.
Qed.

Lemma fetched_at_desc_total (a b : ISSLog) :
  ISSRepository.fetched_at_desc a b = false -> ISSRepository.fetched_at_desc b a = true.
Proof. unfold ISSRepository.fetched_at_desc. lia. Qed.

Lemma fetched_at_desc_trans (a b c : ISSLog) :
  ISSRepository.fetched_at_desc a b = true -> ISSRepository.fetched_at_desc b c = true ->
  ISSRepository.fetched_at_desc a c = true.
Proof. unfold ISSRepository.fetched_at_desc. lia. Qed.

(** The rows of [iss_logs], latest first. *)
Lemma latest_first_sorted (l : list ISSLog) :
  StronglySorted (fun a b => log_FetchedAt b <= log_FetchedAt a)
    (order_by ISSRepository.fetched_at_desc l).
Proof.
  apply (sorted_weaken (fun a b => ISSRepository.fetched_at_desc a b = true)).
  - unfold ISSRepository.fetched_at_desc. intros a b. lia.
  - apply order_by_sorted; [apply fetched_at_desc_total|apply fetched_at_desc_trans].
Qed.

Lemma updated_desc_total (a b : OSDRItem) :
  OSDRRepository.updated_desc_nulls_last a b = false ->
  OSDRRepository.updated_desc_nulls_last b a = true.
Proof.
  unfold OSDRRepository.updated_desc_nulls_last.
  destruct (UpdatedAt a) as [ta|], (UpdatedAt b) as [tb|]; try easy.
  - destruct (tb <? ta) eqn:E1, (ta <? tb) eqn:E2; try easy; lia.
  - lia.
Qed.

Lemma updated_desc_trans (a b c : OSDRItem) :
  OSDRRepository.updated_desc_nulls_last a b = true ->
  OSDRRepository.updated_desc_nulls_last b c = true ->
  OSDRRepository.updated_desc_nulls_last a c = true.
Proof.
  unfold OSDRRepository.updated_desc_nulls_last.
  destruct (UpdatedAt a) as [ta|], (UpdatedAt b) as [tb|], (UpdatedAt c) as [tc|];
    try easy.
  - destruct (tb <? ta) eqn:E1, (tc <? tb) eqn:E2, (tc <? ta) eqn:E3; try easy; try lia.
    all: destruct (ta <? tb) eqn:E4, (tb <? tc) eqn:E5, (ta <? tc) eqn:E6; try easy; lia.
  - lia.
Qed.

End OrderFacts.

(** ** The repository of positional samples *)

Module ISSRepositoryFacts.
Import OrderFacts.

(** [GetLast] answers with a stored row than which none was fetched
    later; it fails with [ErrRecordNotFound] exactly when the table
    is empty (and with the error of the database when that is down). *)
Theorem GetLast_is_latest (env : Env) (w : World) :
  match ISSRepository.GetLast env w with
  | Ok l =>
      db_up env = true /\ In l (iss_logs w) /\
      forall r, In r (iss_logs w) -> log_FetchedAt r <= log_FetchedAt l
  | Err e =>
      (db_up env = false /\ e = ErrDB) \/
      (db_up env = true /\ e = ErrRecordNotFound /\ iss_logs w = [])
  end.
Proof.
  unfold ISSRepository.GetLast. destruct (db_up env); [|now left].
  pose proof (latest_first_sorted (iss_logs w)) as Hs.
  pose proof (fun y => order_by_In ISSRepository.fetched_at_desc y (iss_logs w)) as Hin.
  pose proof (ReadFacts.length_order_by ISSRepository.fetched_at_desc (iss_logs w)) as Hlen.
  destruct (order_by ISSRepository.fetched_at_desc (iss_logs w)) as [|l rest].
  - right. repeat split. destruct (iss_logs w); [reflexivity|discriminate].
  - split; [reflexivity|]. split; [apply Hin; now left|].
    intros r Hr. apply Hin in Hr. destruct Hr as [->|Hr]; [lia|].
    inversion Hs as [|? ? _ Hl]; subst. rewrite List.Forall_forall in Hl. now apply Hl.
Qed.

(** [GetSince] answers with exactly the stored rows fetched at
    [since] or later, latest first; it fails only with the error of
    the database. *)
Theorem GetSince_window (env : Env) (since : Z) (w : World) :
  match ISSRepository.GetSince env since w with
  | Ok l =>
      db_up env = true /\
      (forall r, In r l <-> In r (iss_logs w) /\ since <= log_FetchedAt r) /\
      StronglySorted (fun a b => log_FetchedAt b <= log_FetchedAt a) l /\
      Permutation l (List.filter (fun r => since <=? log_FetchedAt r) (iss_logs w))
  | Err e => db_up env = false /\ e = ErrDB
  end.
Proof.
  unfold ISSRepository.GetSince. destruct (db_up env); [|now split].
  split; [reflexivity|]. split; [|split].
  - intros r. rewrite order_by_In, filter_In. rewrite Z.leb_le. reflexivity.
  - apply latest_first_sorted.
  - apply order_by_perm.
Qed.

(** [GetLastN(ctx, n)] with a positive [n] answers with the [n] rows
    fetched last (all of them when fewer are stored), latest first:
    no row left out was fetched later than a row returned. *)
Theorem GetLastN_most_recent (env : Env) (n : Z) (w : World) :
  0 < n -> db_up env = true ->
  exists latest older,
    ISSRepository.GetLastN env n w = Ok latest /\
    Permutation (latest ++ older) (iss_logs w) /\
    length latest = Nat.min (Z.to_nat n) (length (iss_logs w)) /\
    StronglySorted (fun a b => log_FetchedAt b <= log_FetchedAt a) latest /\
    forall a b, In a latest -> In b older -> log_FetchedAt b <= log_FetchedAt a.
Proof.
  intros Hn Hdb. unfold ISSRepository.GetLastN, Limit. rewrite Hdb.
  rewrite (proj2 (Z.ltb_lt 0 n) Hn).
  set (sorted := order_by ISSRepository.fetched_at_desc (iss_logs w)).
  pose proof (latest_first_sorted (iss_logs w)) as Hs. fold sorted in Hs.
  exists (firstn (Z.to_nat n) sorted), (skipn (Z.to_nat n) sorted).
  split; [reflexivity|]. split; [|split; [|split]].
  - rewrite firstn_skipn. apply order_by_perm.
  - rewrite length_firstn. unfold sorted. now rewrite ReadFacts.length_order_by.
  - now apply sorted_firstn.
  - intros a b Ha Hb. rewrite <- (firstn_skipn (Z.to_nat n) sorted) in Hs.
    exact (sorted_app _ _ _ Hs a b Ha Hb).
Qed.

Lemma GetLastN_most_recent_witness :
  let w := snd (ISSService.FetchAndStoreISSData Examples.iss (Examples.healthy 200)
                  (snd (ISSService.FetchAndStoreISSData Examples.iss (Examples.healthy 0)
                          Examples.fresh))) in
  exists latest older,
    ISSRepository.GetLastN (Examples.healthy 300) 1 w = Ok latest /\
    Permutation (latest ++ older) (iss_logs w) /\
    length latest = Nat.min (Z.to_nat 1) (length (iss_logs w)) /\
    StronglySorted (fun a b => log_FetchedAt b <= log_FetchedAt a) latest /\
    forall a b, In a latest -> In b older -> log_FetchedAt b <= log_FetchedAt a.
Proof.
  cbn zeta.
  apply (GetLastN_most_recent (Examples.healthy 300) 1); [lia|reflexivity].
Defined.

End ISSRepositoryFacts.

(** ** The ISS service: reads after writes *)

Module ISSServiceFacts.
Import Notions MoreNotions OrderFacts.

Lemma wrap64_small (z : Z) : - 2 ^ 63 <= z < 2 ^ 63 -> wrap64 z = z.
Proof. intros H. unfold wrap64. rewrite Z.mod_small; lia. Qed.

(** Up to 2562047 hours (the range of [time.Duration]) the window of
    the history starts [hours] hours before now. *)
Lemma history_since_hours (t hours : Z) :
  0 < hours <= 2562047 -> ISSService.history_since t hours = t - 3600 * hours.
Proof.
  intros H. unfold ISSService.history_since.
  rewrite (wrap64_small (- hours)) by lia.
  rewrite wrap64_small by lia.
  replace (- (- hours * 3600000000000)) with (3600 * hours * 1000000000) by lia.
  now rewrite Z.div_mul.
Qed.

(** The head of the rows taken latest first. *)
Lemma latest_first_head (l rest : list ISSLog) (h : ISSLog) :
  order_by ISSRepository.fetched_at_desc l = h :: rest ->
  In h l /\ forall r, In r l -> log_FetchedAt r <= log_FetchedAt h.
Proof.
  intros E.
  pose proof (latest_first_sorted l) as Hs.
  pose proof (fun y => order_by_In ISSRepository.fetched_at_desc y l) as Hin.
  rewrite E in Hs, Hin. split; [apply Hin; now left|].
  intros r Hr. apply Hin in Hr. destruct Hr as [->|Hr]; [lia|].
  inversion Hs as [|? ? _ Hl]; subst. rewrite List.Forall_forall in Hl. now apply Hl.
Qed.

(** A row fetched after every other row is the one [GetLast] finds. *)
Lemma GetLast_newest (env : Env) (w : World) (x : ISSLog) :
  db_up env = true -> In x (iss_logs w) ->
  (forall r, In r (iss_logs w) -> r = x \/ log_FetchedAt r < log_FetchedAt x) ->
  ISSRepository.GetLast env w = Ok x.
Proof.
  intros Hdb Hx Hmax. unfold ISSRepository.GetLast. rewrite Hdb.
  destruct (order_by ISSRepository.fetched_at_desc (iss_logs w)) as [|h rest] eqn:E.
  - apply (order_by_In ISSRepository.fetched_at_desc) in Hx. rewrite E in Hx. destruct Hx.
  - destruct (latest_first_head _ _ _ E) as [Hh Hle].
    f_equal. destruct (Hmax h Hh) as [->|Hlt]; [reflexivity|].
    specialize (Hle x Hx). lia.
Qed.

(** What a synchronization that fetched leaves under the key of the
    last position, when Redis takes the write. *)
Lemma FetchAndStoreISSData_caches
    (s : ISSService.issService) (env : Env) (w : World) (data : JMap) :
  locked "iss:last_fetch" env w = false ->
  iss_api env = Ok data -> db_up env = true ->
  redis_write_up env "iss:last_position" = true ->
  let w1 := snd (ISSService.FetchAndStoreISSData s env w) in
  redis w1 !! "iss:last_position" = Some (CJSON (JObj data), Some (now env + 120)) /\
  iss_logs w1 = iss_logs w ++ [row_of env w data].
Proof.
  intros Hl Hapi Hdb Hwr. cbn zeta.
  unfold ISSService.FetchAndStoreISSData. unfold locked in Hl.
  destruct (Cache.Get env "iss:last_fetch" w) as [[v|]|e]; try discriminate Hl.
  all: rewrite Hapi; cbn [json_Marshal].
  all: rewrite (SyncFacts.ISS_Create_fresh env _ data) by exact Hdb.
  all: unfold Cache.Set_, Cache.client_Set; rewrite Hwr.
  all: destruct (redis_write_up env "iss:last_fetch"); cbn.
  all: split; [|reflexivity].
  all: try (rewrite lookup_insert_ne by discriminate).
  all: apply lookup_insert_eq.
Qed.

(** A synchronization that fetched and could cache the position, then
    a read of the last position while Redis answers.  Within the two
    minutes of the cached position the read is served from the cache,
    without the database: it carries the payload fetched, but the
    time of the read as its fetch time and no identifier.  After
    them it is served by the database and is the row as stored
    (fetched at the time of the synchronization). *)
Theorem GetLastPosition_after_fetch
    (s : ISSService.issService) (e1 e2 : Env) (w : World) (data : JMap) :
  locked "iss:last_fetch" e1 w = false ->
  iss_api e1 = Ok data -> db_up e1 = true ->
  redis_write_up e1 "iss:last_position" = true ->
  redis_read_up e2 "iss:last_position" = true ->
  let w1 := snd (ISSService.FetchAndStoreISSData s e1 w) in
  (now e2 < now e1 + 120 ->
   ISSService.GetLastPosition e2 w1
   = (Ok {| log_ID := 0; log_FetchedAt := now e2;
            log_SourceURL := ISSService.SourceURL; log_Payload := JObj data;
            log_CreatedAt := zero_time; log_UpdatedAt := zero_time |}, w1)) /\
  (now e1 + 120 <= now e2 -> db_up e2 = true ->
   (forall r, In r (iss_logs w) -> log_FetchedAt r < now e1) ->
   fst (ISSService.GetLastPosition e2 w1) = Ok (row_of e1 w data)).
Proof.
  intros Hl Hapi Hdb Hwr Hrd. cbn zeta.
  destruct (FetchAndStoreISSData_caches s e1 w data Hl Hapi Hdb Hwr) as [Hkey Hlogs].
  set (w1 := snd (ISSService.FetchAndStoreISSData s e1 w)) in *.
  split.
  - intros Hlt. unfold ISSService.GetLastPosition, Cache.Get, Cache.client_Get.
    rewrite Hrd, Hkey. cbn [Cache.live].
    rewrite (proj2 (Z.ltb_lt _ _) Hlt). reflexivity.
  - intros Hge Hdb2 Hold.
    assert (Hlast : ISSRepository.GetLast e2 w1 = Ok (row_of e1 w data)).
    { apply GetLast_newest; [exact Hdb2| |].
      - rewrite Hlogs. apply in_or_app. right. now left.
      - intros r Hr. rewrite Hlogs in Hr. apply in_app_or in Hr as [Hr|[<-|[]]].
        + right. cbn. now apply Hold.
        + now left. }
    unfold ISSService.GetLastPosition, Cache.Get, Cache.client_Get.
    rewrite Hrd, Hkey. cbn [Cache.live].
    rewrite (proj2 (Z.ltb_ge _ _) Hge). rewrite Hlast.
    now destruct (Cache.Set_ e2 "iss:last_position" _ 120 w1) as [[e|] w2].
Qed.

Lemma GetLastPosition_after_fetch_witness :
  let w1 := snd (ISSService.FetchAndStoreISSData Examples.iss (Examples.healthy 1000)
                   Examples.fresh) in
  fst (ISSService.GetLastPosition (Examples.healthy 1060) w1)
    = Ok {| log_ID := 0; log_FetchedAt := 1060;
            log_SourceURL := ISSService.SourceURL;
            log_Payload := JObj (Examples.position 10 20);
            log_CreatedAt := zero_time; log_UpdatedAt := zero_time |} /\
  fst (ISSService.GetLastPosition (Examples.healthy 1120) w1)
    = Ok (row_of (Examples.healthy 1000) Examples.fresh (Examples.position 10 20)).
Proof.
  cbn zeta. split.
  - destruct (GetLastPosition_after_fetch Examples.iss (Examples.healthy 1000)
                (Examples.healthy 1060) Examples.fresh (Examples.position 10 20)
                eq_refl eq_refl eq_refl eq_refl eq_refl) as [H _].
    now rewrite H.
  - destruct (GetLastPosition_after_fetch Examples.iss (Examples.healthy 1000)
                (Examples.healthy 1120) Examples.fresh (Examples.position 10 20)
                eq_refl eq_refl eq_refl eq_refl eq_refl) as [_ H].
    apply H; [cbn; lia|reflexivity|intros r []].
Defined.

(** An interval that is not positive makes the fetch lock permanent:
    it is stored without expiry, and after one synchronization that
    fetched, no later invocation that can read the lock fetches or
    changes anything, whenever it comes. *)
Theorem FetchAndStoreISSData_lock_without_expiry
    (s : ISSService.issService) (e1 : Env) (w : World) (data : JMap) (later : list Env) :
  ISSService.interval s <= 0 ->
  locked "iss:last_fetch" e1 w = false ->
  iss_api e1 = Ok data -> db_up e1 = true ->
  redis_write_up e1 "iss:last_fetch" = true ->
  Forall (fun e => redis_read_up e "iss:last_fetch" = true) later ->
  let w1 := snd (ISSService.FetchAndStoreISSData s e1 w) in
  redis w1 !! "iss:last_fetch" = Some (CStr "1", None) /\
  fold_left (fun w e => snd (ISSService.FetchAndStoreISSData s e w)) later w1 = w1.
Proof.
  intros Hi Hl Hapi Hdb Hwr Hlater. cbn zeta.
  destruct (SyncFacts.FetchAndStoreISSData_fetches s e1 w data Hl Hapi Hdb Hwr)
    as (w1 & H1 & _ & _ & _ & Hkey).
  rewrite H1. cbn [snd].
  rewrite (proj2 (Z.ltb_ge _ _) Hi) in Hkey. split; [exact Hkey|].
  induction Hlater as [|e later He _ IH]; [reflexivity|].
  cbn [fold_left]. rewrite SyncFacts.FetchAndStoreISSData_locked; [exact IH|].
  unfold locked, Cache.Get, Cache.client_Get. now rewrite He, Hkey.
Qed.

Lemma FetchAndStoreISSData_lock_without_expiry_witness :
  let s := {| ISSService.interval := 0 |} in
  let w1 := snd (ISSService.FetchAndStoreISSData s (Examples.healthy 0) Examples.fresh) in
  redis w1 !! "iss:last_fetch" = Some (CStr "1", None) /\
  fold_left (fun w e => snd (ISSService.FetchAndStoreISSData s e w))
    [Examples.healthy 120; Examples.healthy 86400] w1 = w1.
Proof.
  cbn zeta.
  apply (FetchAndStoreISSData_lock_without_expiry {| ISSService.interval := 0 |}
           (Examples.healthy 0) Examples.fresh (Examples.position 10 20)).
  - cbn. lia.
  - reflexivity.
  - reflexivity.
  - reflexivity.
  - reflexivity.
  - repeat constructor.
Defined.

(** The history on a cache miss, for a number of hours up to 2562047
    (non-positive numbers stand for 24): while the database answers,
    the positions returned are exactly the stored rows fetched within
    the last [hours] hours, latest first. *)
Theorem GetPositionsHistory_window (env : Env) (hours : Z) (w : World) :
  let h := if hours <=? 0 then 24 else hours in
  hours <= 2562047 ->
  (forall p ps, Cache.GetJSON unmarshal_logs env (ISSService.historyKey h) w
                <> Ok (Some (p :: ps))) ->
  db_up env = true ->
  exists positions,
    fst (ISSService.GetPositionsHistory env hours w) = Ok positions /\
    (forall r, In r positions <->
       In r (iss_logs w) /\ now env - 3600 * h <= log_FetchedAt r) /\
    StronglySorted (fun a b => log_FetchedAt b <= log_FetchedAt a) positions.
Proof.
  cbn zeta. intros Hh Hmiss Hdb.
  set (h := if hours <=? 0 then 24 else hours) in *.
  assert (Hrange : 0 < h <= 2562047) by (unfold h; destruct (Z.leb_spec hours 0); lia).
  exists (order_by ISSRepository.fetched_at_desc
            (List.filter (fun l => now env - 3600 * h <=? log_FetchedAt l) (iss_logs w))).
  split; [|split].
  - unfold ISSService.GetPositionsHistory. fold h.
    unfold ISSRepository.GetSince. rewrite Hdb.
    rewrite (history_since_hours (now env) h Hrange).
    destruct (Cache.GetJSON unmarshal_logs env (ISSService.historyKey h) w)
      as [[[|p ps]|]|e] eqn:E.
    2: now destruct (Hmiss p ps).
    all: cbn [fst]; now destruct (order_by _ _).
  - intros r. rewrite order_by_In, filter_In, Z.leb_le. reflexivity.
  - apply latest_first_sorted.
Qed.

Lemma GetPositionsHistory_window_witness :
  let w1 := snd (ISSService.FetchAndStoreISSData Examples.iss (Examples.healthy 1000)
                   Examples.fresh) in
  exists positions,
    fst (ISSService.GetPositionsHistory (Examples.healthy 5000) 1 w1) = Ok positions /\
    (forall r, In r positions <->
       In r (iss_logs w1) /\ 5000 - 3600 * 1 <= log_FetchedAt r) /\
    StronglySorted (fun a b => log_FetchedAt b <= log_FetchedAt a) positions.
Proof.
  cbn zeta.
  apply (GetPositionsHistory_window (Examples.healthy 5000) 1).
  - lia.
  - intros p ps. discriminate.
  - reflexivity.
Defined.

(** *** At most one stored fetch per interval *)

Lemma sorted_snoc {A : Type} (R : A -> A -> Prop) (l : list A) (x : A) :
  StronglySorted R l -> (forall a, In a l -> R a x) -> StronglySorted R (l ++ [x]).
Proof.
  induction 1 as [|y l Hs IH Hy]; cbn; intros Hx.
  - constructor; constructor.
  - constructor.
    + apply IH. intros a Ha. apply Hx. now right.
    + rewrite List.Forall_forall in *. intros b Hb.
      apply in_app_or in Hb as [Hb|[<-|[]]]; [now apply Hy|apply Hx; now left].
Qed.

Lemma fetchISSData_spaced
    (s : ISSService.issService) (env : Env) (w0 w : World) (added : list ISSLog) :
  0 < ISSService.interval s ->
  redis_read_up env "iss:last_fetch" = true ->
  redis_write_up env "iss:last_fetch" = true ->
  spaced_since (ISSService.interval s) w0 w added ->
  exists added',
    spaced_since (ISSService.interval s) w0 (Worker.fetchISSData s env w) added' /\
    (length added' <= S (length added))%nat.
Proof.
  intros Hi Hrd Hwr (Hlogs & Hsp & Hlock).
  destruct (SyncFacts.fetchISSData_world s env w) as (line & ->).
  destruct (locked "iss:last_fetch" env w) eqn:Hl.
  { rewrite (SyncFacts.FetchAndStoreISSData_locked s env w Hl).
    exists added. split; [|lia]. now repeat split. }
  destruct (iss_api env) as [data|e] eqn:Hapi.
  2: { destruct (SyncFacts.FetchAndStoreISSData_fetch_fails s env w e Hl Hapi)
         as (w' & -> & _ & Hr & Hg).
       exists added. split; [|lia]. cbn [snd]. unfold spaced_since. cbn [iss_logs redis log].
       rewrite Hr, Hg. now repeat split. }
  destruct (db_up env) eqn:Hdb.
  2: { destruct (SyncFacts.FetchAndStoreISSData_save_fails s env w data Hl Hapi Hdb)
         as (w' & -> & _ & Hr & Hg).
       exists added. split; [|lia]. cbn [snd]. unfold spaced_since. cbn [iss_logs redis log].
       rewrite Hr, Hg. now repeat split. }
  destruct (SyncFacts.FetchAndStoreISSData_fetches s env w data Hl Hapi Hdb Hwr)
    as (w' & -> & _ & Hg & _ & Hkey).
  rewrite (proj2 (Z.ltb_lt _ _) Hi) in Hkey.
  exists (added ++ [row_of env w data]). split; [|rewrite length_app; cbn; lia].
  cbn [snd]. unfold spaced_since. cbn [iss_logs redis log].
  split; [now rewrite Hg, Hlogs, app_assoc|]. split.
  - apply sorted_snoc; [exact Hsp|].
    intros a Ha. cbn [row_of log_FetchedAt].
    destruct Hlock as [->|(tl & Hk & Hle)]; [destruct Ha|].
    specialize (Hle a Ha).
    unfold locked, Cache.Get, Cache.client_Get in Hl. rewrite Hrd, Hk in Hl.
    cbn [Cache.live Cache.text] in Hl.
    destruct (Z.ltb_spec (now env) (tl + ISSService.interval s)); [discriminate|lia].
  - right. exists (now env). split; [exact Hkey|].
    intros r Hr. apply in_app_or in Hr as [Hr|[<-|[]]]; [|cbn; lia].
    destruct Hlock as [->|(tl & Hk & Hle)]; [destruct Hr|].
    specialize (Hle r Hr).
    unfold locked, Cache.Get, Cache.client_Get in Hl. rewrite Hrd, Hk in Hl.
    cbn [Cache.live Cache.text] in Hl.
    destruct (Z.ltb_spec (now env) (tl + ISSService.interval s)); [discriminate|lia].
Qed.

Lemma ticks_spaced (s : ISSService.issService) (w0 : World) (ticks : list Env) :
  0 < ISSService.interval s ->
  Forall (fun e => redis_read_up e "iss:last_fetch" = true /\
                   redis_write_up e "iss:last_fetch" = true) ticks ->
  forall (w : World) (added : list ISSLog),
    spaced_since (ISSService.interval s) w0 w added ->
    exists added',
      spaced_since (ISSService.interval s) w0
        (fold_left (fun world env => Worker.fetchISSData s env world) ticks w) added' /\
      (length added' <= length added + length ticks)%nat.
Proof.
  intros Hi Hup. induction Hup as [|e ticks [Hr Hw] _ IH]; intros w added Hsp.
  - exists added. split; [exact Hsp|cbn; lia].
  - cbn [fold_left].
    destruct (fetchISSData_spaced s e w0 w added Hi Hr Hw Hsp) as (a2 & Ha2 & Hn2).
    destruct (IH _ a2 Ha2) as (a3 & Ha3 & Hn3).
    exists a3. split; [exact Ha3|cbn [length]; lia].
Qed.

(** The loop of the ISS worker, with a positive interval and Redis
    answering for the fetch lock at every tick: whatever the world it
    starts in, whenever the ticks come and whatever the upstream API
    and the database do, the rows it adds to [iss_logs] were fetched
    at least one interval apart, and there is at most one per
    tick. *)
Theorem ISSWorker_run_spacing
    (wk : ISSWorker.ISSWorker) (first : Env) (ticks : list Env) (w0 : World) :
  0 < ISSService.interval (ISSWorker.service wk) ->
  Forall (fun e => redis_read_up e "iss:last_fetch" = true /\
                   redis_write_up e "iss:last_fetch" = true) (first :: ticks) ->
  exists added,
    iss_logs (ISSWorker.run wk first ticks w0) = iss_logs w0 ++ added /\
    StronglySorted
      (fun a b => log_FetchedAt a + ISSService.interval (ISSWorker.service wk)
                  <= log_FetchedAt b) added /\
    (length added <= length (first :: ticks))%nat.
Proof.
  intros Hi Hup.
  assert (H0 : spaced_since (ISSService.interval (ISSWorker.service wk)) w0 w0 []).
  { split; [now rewrite app_nil_r|]. split; [constructor|now left]. }
  destruct (ticks_spaced (ISSWorker.service wk) w0 (first :: ticks) Hi Hup w0 [] H0)
    as (added & (H1 & H2 & _) & H3).
  exists added. repeat split; trivial.
Qed.

Lemma ISSWorker_run_spacing_witness :
  exists added,
    iss_logs (ISSWorker.run (ISSWorker.NewISSWorker Examples.iss) (Examples.healthy 0)
                [Examples.healthy 60; Examples.db_down 120; Examples.healthy 180]
                Examples.fresh)
    = iss_logs Examples.fresh ++ added /\
    StronglySorted (fun a b => log_FetchedAt a + 120 <= log_FetchedAt b) added /\
    (length added <= 4)%nat.
Proof.
  apply (ISSWorker_run_spacing (ISSWorker.NewISSWorker Examples.iss) (Examples.healthy 0)
           [Examples.healthy 60; Examples.db_down 120; Examples.healthy 180]
           Examples.fresh).
  - cbn. lia.
  - repeat constructor.
Defined.

End ISSServiceFacts.

(** ** What the operations leave alone *)

Module FrameFacts.
Import Notions Keys.

(** A key that is none of [keys] survives the writes of [keys]. *)
Ltac other_key Hk :=
  cbn; repeat (rewrite lookup_insert_ne; [|intros <-; apply Hk; cbn; tauto]); reflexivity.

Ltac redis_cases Hk := ReadFacts.split_cases; other_key Hk.

Lemma BulkUpsert_redis (env : Env) (items : list OSDRItem) (w : World) :
  redis (snd (OSDRRepository.BulkUpsert env items w)) = redis w.
Proof.
  unfold OSDRRepository.BulkUpsert.
  destruct (db_up env); [|reflexivity].
  now destruct (OSDRRepository.upsert_each env items (osdr_items w)).
Qed.

Lemma FetchAndStoreOSDR_redis (L : GoLib) (env : Env) (w : World) (k : string) :
  k <> "nasa:osdr:last_fetch" ->
  redis (snd (NASAService.FetchAndStoreOSDR L env w)) !! k = redis w !! k.
Proof.
  intros Hk. unfold NASAService.FetchAndStoreOSDR.
  destruct (Cache.Get env "nasa:osdr:last_fetch" w) as [[v|]|e]; [reflexivity| |].
  all: destruct (osdr_api env) as [items|e']; [|reflexivity].
  all: set (w0 := call CallOSDR (log "Fetching NASA OSDR data..." w)).
  all: destruct (map (NASAService.osdr_item_of L) items) as [|i rest].
  all: try (pose proof (BulkUpsert_redis env (i :: rest) w0) as HB;
            destruct (OSDRRepository.BulkUpsert env (i :: rest) w0) as [[e1|] w1];
            cbn [snd] in HB).
  all: unfold Cache.Set_, Cache.client_Set.
  all: destruct (redis_write_up env "nasa:osdr:last_fetch"); cbn [snd fst].
  all: cbn; try rewrite HB; try (rewrite lookup_insert_ne by congruence); reflexivity.
Qed.

(** Every operation of the services writes its own cache keys only. *)
Lemma exec_redis_frame
    (s : ISSService.issService) (L : GoLib) (o : op) (w : World) (k : string) :
  ~ In k (keys_of o) -> redis (exec s L o w) !! k = redis w !! k.
Proof.
  intros Hk. destruct o; cbn [exec keys_of] in *.
  - unfold ISSService.FetchAndStoreISSData, ISSRepository.Create, Cache.Get,
      Cache.client_Get, Cache.Set_, Cache.client_Set, json_Marshal.
    redis_cases Hk.
  - unfold ISSService.GetLastPosition, ISSRepository.GetLast, Cache.Get,
      Cache.client_Get, Cache.Set_, Cache.client_Set.
    redis_cases Hk.
  - unfold ISSService.GetTrend, ISSRepository.GetLastN, Cache.GetJSON, Cache.client_Get,
      Cache.SetJSON, Cache.client_Set.
    redis_cases Hk.
  - unfold ISSService.GetPositionsHistory, ISSRepository.GetSince, Cache.GetJSON,
      Cache.client_Get, Cache.SetJSON, Cache.client_Set.
    redis_cases Hk.
  - apply FetchAndStoreOSDR_redis. intros ->. apply Hk. now left.
  - unfold NASAService.FetchAndStoreAPOD, Cache.SetJSON, Cache.client_Set.
    redis_cases Hk.
  - unfold NASAService.FetchAndStoreNEO, Cache.SetJSON, Cache.client_Set.
    redis_cases Hk.
  - unfold NASAService.GetOSDRList, OSDRRepository.GetPaginated, Cache.GetJSON,
      Cache.client_Get, Cache.SetJSON, Cache.client_Set.
    redis_cases Hk.
  - unfold NASAService.GetLatestAPOD, NASAService.FetchAndStoreAPOD, Cache.GetJSON,
      Cache.client_Get, Cache.SetJSON, Cache.client_Set.
    redis_cases Hk.
  - unfold NASAService.GetLatestNEO, NASAService.FetchAndStoreNEO, Cache.GetJSON,
      Cache.client_Get, Cache.SetJSON, Cache.client_Set.
    redis_cases Hk.
  - unfold NASAService.GetDONKI, Cache.GetJSON, Cache.client_Get, Cache.SetJSON,
      Cache.client_Set.
    redis_cases Hk.
  - unfold Cache.SetJSON, Cache.client_Set. redis_cases Hk.
  - unfold Cache.SetJSON, Cache.client_Set. redis_cases Hk.
Qed.

(** *** The tables and the calls *)

Ltac appended :=
  first [ exists []; rewrite app_nil_r; reflexivity | eexists; reflexivity ].

Lemma BulkUpsert_rest (env : Env) (items : list OSDRItem) (w : World) :
  let w' := snd (OSDRRepository.BulkUpsert env items w) in
  iss_logs w' = iss_logs w /\ upstream w' = upstream w.
Proof.
  cbn zeta. unfold OSDRRepository.BulkUpsert.
  destruct (db_up env); [|now split].
  now destruct (OSDRRepository.upsert_each env items (osdr_items w)).
Qed.

Lemma FetchAndStoreOSDR_rest (L : GoLib) (env : Env) (w : World) :
  let w' := snd (NASAService.FetchAndStoreOSDR L env w) in
  iss_logs w' = iss_logs w /\ exists calls, upstream w' = upstream w ++ calls.
Proof.
  cbn zeta. unfold NASAService.FetchAndStoreOSDR.
  destruct (Cache.Get env "nasa:osdr:last_fetch" w) as [[v|]|e].
  1: split; [reflexivity|appended].
  all: destruct (osdr_api env) as [items|e']; [|split; [reflexivity|appended]].
  all: set (w0 := call CallOSDR (log "Fetching NASA OSDR data..." w)).
  all: destruct (map (NASAService.osdr_item_of L) items) as [|i rest].
  all: try (pose proof (BulkUpsert_rest env (i :: rest) w0) as [HB1 HB2];
            destruct (OSDRRepository.BulkUpsert env (i :: rest) w0) as [[e1|] w1];
            cbn [snd] in HB1, HB2).
  all: unfold Cache.Set_, Cache.client_Set.
  all: destruct (redis_write_up env "nasa:osdr:last_fetch"); cbn [snd fst].
  all: cbn; try rewrite HB1; try rewrite HB2; split; [reflexivity|appended].
Qed.

(** One operation: the positional samples and the calls made so far
    are kept, and what is added comes after them; only the
    synchronization of the ISS adds a sample (one at most), only the
    two synchronizations that persist touch a table. *)
Lemma exec_appends (s : ISSService.issService) (L : GoLib) (o : op) (w : World) :
  (exists added,
     iss_logs (exec s L o w) = iss_logs w ++ added /\
     (length added <= iss_syncs [o])%nat) /\
  (exists calls, upstream (exec s L o w) = upstream w ++ calls) /\
  (is_read o = true -> osdr_items (exec s L o w) = osdr_items w).
Proof.
  destruct o; cbn [exec is_read iss_syncs List.filter length].
  - unfold ISSService.FetchAndStoreISSData, ISSRepository.Create, Cache.Get,
      Cache.client_Get, Cache.Set_, Cache.client_Set, json_Marshal.
    ReadFacts.split_cases.
    all: (split; [|split; [appended|discriminate]]).
    all: first [ exists []; rewrite app_nil_r; split; [reflexivity|cbn; lia]
               | eexists; split; [reflexivity|cbn; lia] ].
  - unfold ISSService.GetLastPosition, ISSRepository.GetLast, Cache.Get,
      Cache.client_Get, Cache.Set_, Cache.client_Set.
    ReadFacts.split_cases.
    all: split; [exists []; rewrite app_nil_r; now split|split; [appended|reflexivity]].
  - unfold ISSService.GetTrend, ISSRepository.GetLastN, Cache.GetJSON, Cache.client_Get,
      Cache.SetJSON, Cache.client_Set.
    ReadFacts.split_cases.
    all: split; [exists []; rewrite app_nil_r; now split|split; [appended|reflexivity]].
  - unfold ISSService.GetPositionsHistory, ISSRepository.GetSince, Cache.GetJSON,
      Cache.client_Get, Cache.SetJSON, Cache.client_Set.
    ReadFacts.split_cases.
    all: split; [exists []; rewrite app_nil_r; now split|split; [appended|reflexivity]].
  - destruct (FetchAndStoreOSDR_rest L env w) as [H1 H2].
    split; [exists []; rewrite app_nil_r; now split|]. split; [exact H2|discriminate].
  - unfold NASAService.FetchAndStoreAPOD, Cache.SetJSON, Cache.client_Set.
    ReadFacts.split_cases.
    all: split; [exists []; rewrite app_nil_r; now split|split; [appended|reflexivity]].
  - unfold NASAService.FetchAndStoreNEO, Cache.SetJSON, Cache.client_Set.
    ReadFacts.split_cases.
    all: split; [exists []; rewrite app_nil_r; now split|split; [appended|reflexivity]].
  - unfold NASAService.GetOSDRList, OSDRRepository.GetPaginated, Cache.GetJSON,
      Cache.client_Get, Cache.SetJSON, Cache.client_Set.
    ReadFacts.split_cases.
    all: split; [exists []; rewrite app_nil_r; now split|split; [appended|reflexivity]].
  - unfold NASAService.GetLatestAPOD, NASAService.FetchAndStoreAPOD, Cache.GetJSON,
      Cache.client_Get, Cache.SetJSON, Cache.client_Set.
    ReadFacts.split_cases.
    all: split; [exists []; rewrite app_nil_r; now split|split; [appended|reflexivity]].
  - unfold NASAService.GetLatestNEO, NASAService.FetchAndStoreNEO, Cache.GetJSON,
      Cache.client_Get, Cache.SetJSON, Cache.client_Set.
    ReadFacts.split_cases.
    all: split; [exists []; rewrite app_nil_r; now split|split; [appended|reflexivity]].
  - unfold NASAService.GetDONKI, Cache.GetJSON, Cache.client_Get, Cache.SetJSON,
      Cache.client_Set.
    ReadFacts.split_cases.
    all: split; [exists []; rewrite app_nil_r; now split|split; [appended|reflexivity]].
  - unfold Cache.SetJSON, Cache.client_Set. ReadFacts.split_cases.
    all: split; [exists []; rewrite app_nil_r; now split|split; [appended|reflexivity]].
  - unfold Cache.SetJSON, Cache.client_Set. ReadFacts.split_cases.
    all: split; [exists []; rewrite app_nil_r; now split|split; [appended|reflexivity]].
Qed.

(** Whatever the operations invoked, in any number and order, and
    however the collaborators behave: the positional samples stored
    are never deleted nor rewritten (what is stored afterwards is
    what was stored before, followed by at most one new sample per
    synchronization of the ISS); the record of upstream calls only
    grows; and a sequence of reads leaves both tables as they
    were. *)
Theorem history_is_append_only
    (s : ISSService.issService) (L : GoLib) (ops : list op) (w : World) :
  (exists added,
     iss_logs (execs s L ops w) = iss_logs w ++ added /\
     (length added <= iss_syncs ops)%nat) /\
  (exists calls, upstream (execs s L ops w) = upstream w ++ calls) /\
  (forallb is_read ops = true ->
   iss_logs (execs s L ops w) = iss_logs w /\
   osdr_items (execs s L ops w) = osdr_items w).
Proof.
  revert w. induction ops as [|o ops IH]; intros w.
  - cbn. split; [exists []; rewrite app_nil_r; now split|].
    split; [exists []; now rewrite app_nil_r|now split].
  - unfold execs. cbn [fold_left]. fold (execs s L ops (exec s L o w)).
    destruct (exec_appends s L o w) as ((a1 & Ha1 & Hn1) & (c1 & Hc1) & Hr1).
    destruct (IH (exec s L o w)) as ((a2 & Ha2 & Hn2) & (c2 & Hc2) & Hr2).
    split; [|split].
    + exists (a1 ++ a2). rewrite Ha2, Ha1, app_assoc. split; [reflexivity|].
      rewrite length_app. unfold iss_syncs in *. cbn [List.filter] in *.
      destruct o; cbn [length] in *; lia.
    + exists (c1 ++ c2). now rewrite Hc2, Hc1, app_assoc.
    + cbn [forallb]. intros H. apply andb_true_iff in H as [Ho Hops].
      destruct (Hr2 Hops) as [H1 H2]. rewrite H1, H2, (Hr1 Ho).
      split; [|reflexivity].
      assert (a1 = []) as ->.
      { destruct a1; [reflexivity|]. unfold iss_syncs in Hn1.
        destruct o; cbn in Hn1, Ho; try lia; discriminate. }
      now rewrite app_nil_r in Ha1.
Qed.

End FrameFacts.

(** ** The NASA service *)

Module NASAFacts.
Import Notions Keys OSDRTable.

(** [extractString] answers with the string under the first of the
    keys, in the order given, that holds a string that is not empty;
    it answers with the empty string exactly when no key does. *)
Theorem extractString_first_hit (data : JMap) (keys : list string) :
  let v := NASAService.extractString data keys in
  (v = "" <->
   forall key str, In key keys -> map_index data key = Some (JStr str) -> str = "") /\
  (v <> "" ->
   exists before key after,
     keys = before ++ key :: after /\
     map_index data key = Some (JStr v) /\
     forall k str, In k before -> map_index data k = Some (JStr str) -> str = "").
Proof.
  cbn zeta. induction keys as [|key keys [IH1 IH2]]; cbn [NASAService.extractString].
  - split; [split; [intros _ key str []|reflexivity]|congruence].
  - destruct (map_index data key) as [[| | |str| |]|] eqn:E.
    4: destruct (String.eqb_spec str "") as [->|Hne].
    5: { split.
         - split; [intros ->; congruence|].
           intros H. apply (H key str); [now left|exact E].
         - intros _. exists [], key, keys. split; [reflexivity|]. split; [exact E|].
           intros k s0 []. }
    all: split.
    all: try (rewrite IH1; split;
              [ intros H k s0 [<-|Hk] Hs; [congruence|now apply (H k s0)]
              | intros H k s0 Hk Hs; apply (H k s0); [now right|exact Hs] ]).
    all: intros Hv; destruct (IH2 Hv) as (before & k1 & after & -> & Hk1 & Hb).
    all: exists (key :: before), k1, after.
    all: split; [reflexivity|]; split; [exact Hk1|].
    all: intros k s0 [<-|Hk] Hs; [congruence|now apply (Hb k s0)].
Qed.

Lemma upsert_each_unkeyed (env : Env) (items tbl : list OSDRItem) :
  Forall (fun i => DatasetID i = "") items ->
  OSDRRepository.upsert_each env items tbl = Ok tbl.
Proof.
  induction 1 as [|i items Hi _ IH]; [reflexivity|].
  cbn [OSDRRepository.upsert_each]. now rewrite Hi.
Qed.

(** Upstream documents that carry none of [dataset_id], [id] and
    [uuid] as a non-empty string (an identifier given as a number,
    say) are dropped without a trace: when a synchronization of the
    OSDR fetches only such documents, it stores nothing, returns no
    error, and still sets the fetch lock for ten minutes. *)
Theorem FetchAndStoreOSDR_drops_unkeyed
    (L : GoLib) (env : Env) (w : World) (items : list JMap) :
  locked "nasa:osdr:last_fetch" env w = false ->
  osdr_api env = Ok items -> db_up env = true ->
  Forall (fun d => NASAService.extractString d ["dataset_id"; "id"; "uuid"] = "") items ->
  exists w',
    NASAService.FetchAndStoreOSDR L env w = (None, w') /\
    osdr_items w' = osdr_items w /\
    upstream w' = upstream w ++ [CallOSDR] /\
    (redis_write_up env "nasa:osdr:last_fetch" = true ->
     redis w' !! "nasa:osdr:last_fetch" = Some (CStr "1", Some (now env + 600))).
Proof.
  intros Hl Hapi Hdb Hkeys.
  assert (Hun : Forall (fun i => DatasetID i = "") (map (NASAService.osdr_item_of L) items)).
  { clear Hapi. induction Hkeys as [|d ds Hd _ IH]; cbn [map]; [constructor|].
    constructor; [exact Hd|exact IH]. }
  pose proof (upsert_each_unkeyed env _ (osdr_items w) Hun) as Hrun.
  unfold NASAService.FetchAndStoreOSDR. unfold locked in Hl.
  destruct (Cache.Get env "nasa:osdr:last_fetch" w) as [[v|]|e0]; try discriminate Hl.
  all: rewrite Hapi.
  all: destruct (map (NASAService.osdr_item_of L) items) as [|i rest] eqn:Ei.
  all: unfold OSDRRepository.BulkUpsert; cbn [db_up osdr_items log call];
       try rewrite Hdb; try rewrite Hrun.
  all: unfold Cache.Set_, Cache.client_Set.
  all: destruct (redis_write_up env "nasa:osdr:last_fetch"); cbn.
  all: eexists; repeat split; try discriminate.
  all: intros _; apply lookup_insert_eq.
Qed.

Lemma FetchAndStoreOSDR_drops_unkeyed_witness :
  let env :=
    {| now := 1000; redis_read_up := fun _ => true; redis_write_up := fun _ => true;
       db_up := true;
       orm_UpdatedAt_insert := fun v => v; orm_UpdatedAt_update := fun v => v;
       iss_api := Err ErrJSON;
       osdr_api := Ok [[("id", JNum 87%float); ("title", JStr "Rodent research")]];
       apod_api := Err ErrJSON; neo_api := Err ErrJSON; donki_api := Err ErrJSON |} in
  exists w',
    NASAService.FetchAndStoreOSDR Examples.lib env Examples.fresh = (None, w') /\
    osdr_items w' = [] /\
    upstream w' = [CallOSDR] /\
    redis w' !! "nasa:osdr:last_fetch" = Some (CStr "1", Some 1600).
Proof.
  cbn zeta.
  destruct (FetchAndStoreOSDR_drops_unkeyed Examples.lib
              {| now := 1000; redis_read_up := fun _ => true;
                 redis_write_up := fun _ => true; db_up := true;
                 orm_UpdatedAt_insert := fun v => v; orm_UpdatedAt_update := fun v => v;
                 iss_api := Err ErrJSON;
                 osdr_api := Ok [[("id", JNum 87%float); ("title", JStr "Rodent research")]];
                 apod_api := Err ErrJSON; neo_api := Err ErrJSON;
                 donki_api := Err ErrJSON |}
              Examples.fresh
              [[("id", JNum 87%float); ("title", JStr "Rodent research")]]
              eq_refl eq_refl eq_refl)
    as (w' & H1 & H2 & H3 & H4).
  - repeat constructor.
  - exists w'. split; [exact H1|]. split; [exact H2|]. split; [exact H3|].
    exact (H4 eq_refl).
Defined.

(** *** NEO: the key read is never the key written *)

(** No text that ends in [d] is the text [last_week]. *)
Lemma not_last_week (s : string) : s +:+ "d" <> "last_week".
Proof.
  destruct s as [|c1 [|c2 [|c3 [|c4 [|c5 [|c6 [|c7 [|c8 [|c9 [|c10 s]]]]]]]]]];
    intros H; cbn in H; discriminate H.
Qed.

Lemma neoKey_not_written (days : Z) (o : op) : ~ In (NASAService.neoKey days) (keys_of o).
Proof.
  unfold NASAService.neoKey.
  destruct o; cbn [keys_of In];
    unfold ISSService.trendKey, ISSService.historyKey, NASAService.osdrListKey,
      NASAService.donkiKey.
  all: intros H; repeat destruct H as [H|H]; try contradiction.
  all: cbn in H; try discriminate H.
  all: injection H as H; symmetry in H; exact (not_last_week _ H).
Qed.

Lemma reachable_no_neo (s : ISSService.issService) (L : GoLib) (w : World) :
  reachable s L w -> forall days, redis w !! NASAService.neoKey days = None.
Proof.
  induction 1 as [w Hempty|o w Hreach IH]; intros days.
  - now rewrite Hempty, lookup_empty.
  - rewrite (FrameFacts.exec_redis_frame s L o w _ (neoKey_not_written days o)). apply IH.
Qed.

(** In every state the services reach from an empty cache, the read
    of the NEO data is never served from the cache: the
    synchronization writes the feed under [nasa:neo:last_week], the
    read looks under [nasa:neo:<days>d], which nothing writes.  So
    every read calls the NEO client once, and never returns the
    data: it fails, or answers with a nil map and a nil error (which
    it does whenever the collaborators that are consulted answer). *)
Theorem GetLatestNEO_never_served
    (s : ISSService.issService) (L : GoLib) (w : World) (env : Env) (days : Z) :
  reachable s L w ->
  let r := NASAService.GetLatestNEO env days w in
  upstream (snd r) = upstream w ++ [CallNEO 7] /\
  (fst r = Ok None \/ exists e, fst r = Err e) /\
  (forall neoData,
     neo_api env = Ok neoData ->
     redis_write_up env "nasa:neo:last_week" = true ->
     redis_read_up env
       (NASAService.neoKey (if (days <? 1) || (30 <? days) then 7 else days)) = true ->
     fst r = Ok None).
Proof.
  intros Hreach. cbn zeta.
  set (key := NASAService.neoKey (if (days <? 1) || (30 <? days) then 7 else days)).
  pose proof (reachable_no_neo s L w Hreach
                (if (days <? 1) || (30 <? days) then 7 else days)) as Hnone.
  fold key in Hnone.
  assert (Hkey : key <> "nasa:neo:last_week").
  { intros H. apply (neoKey_not_written (if (days <? 1) || (30 <? days) then 7 else days)
                       (FetchAndStoreNEO env)). left. now rewrite <- H. }
  pose proof (SyncFacts.FetchAndStoreNEO_calls env w) as Hcalls.
  destruct (SyncFacts.FetchAndStoreNEO_frame env w key Hkey) as (Hframe & _ & _).
  cbn zeta in Hframe. rewrite Hnone in Hframe.
  unfold NASAService.GetLatestNEO. fold key.
  assert (H1 : forall w0, redis w0 !! key = None ->
            Cache.GetJSON unmarshal_map env key w0
            = if redis_read_up env key then Ok None else Err ErrRedis).
  { intros w0 H0. unfold Cache.GetJSON, Cache.client_Get. rewrite H0.
    now destruct (redis_read_up env key). }
  rewrite (H1 w Hnone).
  assert (Hwrite : forall neoData, neo_api env = Ok neoData ->
            redis_write_up env "nasa:neo:last_week" = true ->
            fst (NASAService.FetchAndStoreNEO env w) = None).
  { intros neoData Ha Hw. unfold NASAService.FetchAndStoreNEO, Cache.SetJSON,
      Cache.client_Set. now rewrite Ha, Hw. }
  destruct (NASAService.FetchAndStoreNEO env w) as [[e|] w'] eqn:Ef;
    cbn [snd fst] in *.
  - destruct (redis_read_up env key); cbn [snd fst].
    all: split; [exact Hcalls|]; split; [right; now exists e|].
    all: intros neoData Ha Hw Hr; specialize (Hwrite neoData Ha Hw); discriminate.
  - rewrite (H1 w' Hframe).
    destruct (redis_read_up env key); cbn [snd fst].
    all: split; [exact Hcalls|]; split.
    all: try (now left); try (right; eexists; reflexivity).
    all: intros neoData Ha Hw Hr; try reflexivity; discriminate.
Qed.

Lemma GetLatestNEO_never_served_witness :
  let w1 := snd (NASAService.FetchAndStoreNEO (Examples.healthy 0) Examples.fresh) in
  let r := NASAService.GetLatestNEO (Examples.healthy 60) 7 w1 in
  upstream (snd r) = upstream w1 ++ [CallNEO 7] /\ fst r = Ok None.
Proof.
  cbn zeta.
  destruct (GetLatestNEO_never_served Examples.iss Examples.lib
              (snd (NASAService.FetchAndStoreNEO (Examples.healthy 0) Examples.fresh))
              (Examples.healthy 60) 7) as (H1 & _ & H3).
  - exact (reach_step Examples.iss Examples.lib
             (FetchAndStoreNEO (Examples.healthy 0)) Examples.fresh
             (reach_start Examples.iss Examples.lib Examples.fresh eq_refl)).
  - split; [exact H1|]. exact (H3 _ eq_refl eq_refl eq_refl).
Defined.

(** *** APOD: read-through, then a hit *)

(** With nothing cached under the key of the picture of the day, a
    read fetches it (one call), caches it for 24 hours and returns
    it; a second read before the 24 hours are over is served from the
    cache: it returns the same picture, calls nothing and changes
    nothing. *)
Theorem GetLatestAPOD_read_through (e1 e2 : Env) (w : World) (apod : JMap) :
  Cache.client_Get e1 "nasa:apod:today" w = Cache.Nil ->
  apod_api e1 = Ok apod ->
  redis_write_up e1 "nasa:apod:today" = true ->
  redis_read_up e2 "nasa:apod:today" = true ->
  now e2 < now e1 + 86400 ->
  let r1 := NASAService.GetLatestAPOD e1 w in
  fst r1 = Ok (Some apod) /\
  upstream (snd r1) = upstream w ++ [CallAPOD ""] /\
  NASAService.GetLatestAPOD e2 (snd r1) = (Ok (Some apod), snd r1).
Proof.
  intros Hmiss Hapi Hwr Hrd Hlt. cbn zeta.
  assert (Hup : redis_read_up e1 "nasa:apod:today" = true).
  { unfold Cache.client_Get in Hmiss. now destruct (redis_read_up e1 _). }
  assert (H24 : (now e1 <? now e1 + 86400) = true) by lia.
  set (w1 := log "APOD data cached successfully"
               (set_redis
                  (<["nasa:apod:today" := (CJSON (JObj apod), Some (now e1 + 86400))]>
                     (redis w))
                  (call (CallAPOD "") (log "Fetching NASA APOD..." w)))).
  assert (Hr1 : NASAService.GetLatestAPOD e1 w = (Ok (Some apod), w1)).
  { unfold NASAService.GetLatestAPOD. unfold Cache.GetJSON at 1. rewrite Hmiss.
    unfold NASAService.FetchAndStoreAPOD, Cache.SetJSON, Cache.client_Set.
    rewrite Hapi, Hwr.
    unfold Cache.GetJSON, Cache.client_Get. rewrite Hup.
    cbn -[Z.ltb Z.add]. rewrite lookup_insert_eq.
    change (0 <? 86400) with true. cbn -[Z.ltb Z.add].
    now rewrite H24. }
  rewrite Hr1. cbn [fst snd]. split; [reflexivity|]. split; [reflexivity|].
  unfold NASAService.GetLatestAPOD, Cache.GetJSON, Cache.client_Get.
  rewrite Hrd. cbn -[Z.ltb Z.add]. rewrite lookup_insert_eq. cbn -[Z.ltb Z.add].
  now rewrite (proj2 (Z.ltb_lt _ _) Hlt).
Qed.

Lemma GetLatestAPOD_read_through_witness :
  let r1 := NASAService.GetLatestAPOD (Examples.healthy 0) Examples.fresh in
  fst r1 = Ok (Some [("title", JStr "Orion")]) /\
  upstream (snd r1) = [CallAPOD ""] /\
  NASAService.GetLatestAPOD (Examples.healthy 3600) (snd r1)
    = (Ok (Some [("title", JStr "Orion")]), snd r1).
Proof.
  cbn zeta.
  apply (GetLatestAPOD_read_through (Examples.healthy 0) (Examples.healthy 3600)
           Examples.fresh [("title", JStr "Orion")]); try reflexivity.
Defined.

End NASAFacts.

(** ** The repository of OSDR items: queries and repeated upserts *)

Module OSDRQueryFacts.
Import Notions OSDRRepository OSDRTable OrderFacts.

(** *** Pages *)

Lemma In_firstn {A : Type} (n : nat) (l : list A) (x : A) :
  In x (firstn n l) -> In x l.
Proof.
  intros H. rewrite <- (firstn_skipn n l). apply in_or_app. now left.
Qed.

Lemma In_skipn {A : Type} (n : nat) (l : list A) (x : A) :
  In x (skipn n l) -> In x l.
Proof.
  intros H. rewrite <- (firstn_skipn n l). apply in_or_app. now right.
Qed.

(** A page of the list: at most [limit] items (20 when [limit] is not
    between 1 and 100), so never more than 100; all of them stored;
    in the order of the query (updated last first, then created last
    first, the items never updated at the end). *)
Theorem GetPaginated_page (env : Env) (page limit : Z) (w : World) :
  let limit' := if (limit <? 1) || (100 <? limit) then 20 else limit in
  match GetPaginated env page limit w with
  | Ok items =>
      db_up env = true /\
      (length items <= Z.to_nat limit' <= 100)%nat /\
      (forall i, In i items -> In i (osdr_items w)) /\
      StronglySorted (fun a b => updated_desc_nulls_last a b = true) items /\
      (forall front a back, items = front ++ a :: back -> UpdatedAt a = None ->
         forall b, In b back -> UpdatedAt b = None)
  | Err e => db_up env = false /\ e = ErrDB
  end.
Proof.
  cbn zeta. unfold GetPaginated. destruct (db_up env); [|now split].
  set (limit' := if (limit <? 1) || (100 <? limit) then 20 else limit).
  set (offset := wrap64 _).
  set (sorted := order_by updated_desc_nulls_last (osdr_items w)).
  assert (Hl : 1 <= limit' <= 100).
  { unfold limit'. destruct (Z.ltb_spec limit 1), (Z.ltb_spec 100 limit); cbn; lia. }
  assert (Hs : StronglySorted (fun a b => updated_desc_nulls_last a b = true) sorted).
  { apply order_by_sorted; [apply updated_desc_total|apply updated_desc_trans]. }
  assert (Hs' : StronglySorted (fun a b => updated_desc_nulls_last a b = true)
                  (Limit limit' (Offset offset sorted))).
  { unfold Limit, Offset. rewrite (proj2 (Z.ltb_lt 0 limit')) by lia.
    apply sorted_firstn. destruct (0 <? offset); [now apply sorted_skipn|exact Hs]. }
  split; [reflexivity|]. split; [|split; [|split; [exact Hs'|]]].
  - unfold Limit. rewrite (proj2 (Z.ltb_lt 0 limit')) by lia.
    rewrite length_firstn. lia.
  - intros i Hi. unfold Limit, Offset in Hi.
    rewrite (proj2 (Z.ltb_lt 0 limit')) in Hi by lia.
    apply In_firstn in Hi. apply (order_by_In updated_desc_nulls_last).
    destruct (0 <? offset); [now apply In_skipn in Hi|exact Hi].
  - intros front a back E Ha b Hb. rewrite E in Hs'.
    assert (Hab : updated_desc_nulls_last a b = true).
    { apply (sorted_app (fun a b => updated_desc_nulls_last a b = true)
               (front ++ [a]) back); [now rewrite <- app_assoc| |exact Hb].
      apply in_or_app. right. now left. }
    unfold updated_desc_nulls_last in Hab. rewrite Ha in Hab.
    now destruct (UpdatedAt b).
Qed.

Lemma firstn_add {A : Type} (n m : nat) (l : list A) :
  firstn (n + m) l = firstn n l ++ firstn m (skipn n l).
Proof.
  revert l. induction n as [|n IH]; intros [|x l]; cbn; trivial.
  - now rewrite firstn_nil.
  - now rewrite IH.
Qed.

(** The page [p] (counted from 1) of a walk with a limit between 1
    and 100. *)
Lemma GetPaginated_nth_page (env : Env) (limit : Z) (w : World) (p : nat) :
  db_up env = true -> 1 <= limit <= 100 -> Z.of_nat p * limit < 2 ^ 63 ->
  GetPaginated env (Z.of_nat (S p)) limit w
  = Ok (firstn (Z.to_nat limit)
          (skipn (p * Z.to_nat limit)
             (order_by updated_desc_nulls_last (osdr_items w)))).
Proof.
  intros Hdb Hl Hp. unfold GetPaginated. rewrite Hdb.
  rewrite (proj2 (Z.ltb_ge (Z.of_nat (S p)) 1)) by lia.
  rewrite (proj2 (Z.ltb_ge limit 1)), (proj2 (Z.ltb_ge 100 limit)) by lia.
  cbn [orb].
  replace (Z.of_nat (S p) - 1) with (Z.of_nat p) by lia.
  rewrite ISSServiceFacts.wrap64_small by lia.
  unfold Limit, Offset. rewrite (proj2 (Z.ltb_lt 0 limit)) by lia.
  f_equal. f_equal.
  destruct p as [|p].
  - reflexivity.
  - rewrite (proj2 (Z.ltb_lt 0 _)) by lia. f_equal. lia.
Qed.

(** Walking the pages 1, 2, ..., [n] with one limit between 1 and 100
    enumerates the first [n * limit] items in the order of the query,
    each once; so a walk long enough returns every stored item
    exactly once. *)
Theorem GetPaginated_walk (env : Env) (limit : Z) (w : World) (n : nat) :
  db_up env = true -> 1 <= limit <= 100 -> Z.of_nat n * limit < 2 ^ 63 ->
  let page p :=
    match GetPaginated env (Z.of_nat p) limit w with
    | Ok items => items
    | Err _ => []
    end in
  concat (map page (seq 1 n))
  = firstn (n * Z.to_nat limit) (order_by updated_desc_nulls_last (osdr_items w)) /\
  ((length (osdr_items w) <= n * Z.to_nat limit)%nat ->
   Permutation (concat (map page (seq 1 n))) (osdr_items w)).
Proof.
  intros Hdb Hl Hn. cbn zeta.
  set (sorted := order_by updated_desc_nulls_last (osdr_items w)).
  assert (Hwalk : forall m, (m <= n)%nat ->
            concat (map (fun p => match GetPaginated env (Z.of_nat p) limit w with
                                  | Ok items => items
                                  | Err _ => []
                                  end) (seq 1 m))
            = firstn (m * Z.to_nat limit) sorted).
  { induction m as [|m IH]; intros Hm; [reflexivity|].
    rewrite seq_S, map_app, concat_app, IH by lia. cbn [map concat Nat.add].
    rewrite (GetPaginated_nth_page env limit w m Hdb Hl) by nia.
    rewrite app_nil_r. fold sorted.
    replace (S m * Z.to_nat limit)%nat with (m * Z.to_nat limit + Z.to_nat limit)%nat
      by lia.
    now rewrite firstn_add. }
  split; [now apply Hwalk|].
  intros Hlen. rewrite (Hwalk n) by lia.
  rewrite firstn_all2; [apply order_by_perm|].
  unfold sorted. now rewrite ReadFacts.length_order_by.
Qed.

Lemma GetPaginated_walk_witness :
  let w := snd (BulkUpsert (Examples.healthy 1000)
                  [Examples.record "OSD-1" "first" "open" None;
                   Examples.record "OSD-2" "second" "open" (Some 900);
                   Examples.record "OSD-3" "third" "open" (Some 950)] Examples.fresh) in
  let page p :=
    match GetPaginated (Examples.healthy 2000) (Z.of_nat p) 2 w with
    | Ok items => items
    | Err _ => []
    end in
  Permutation (concat (map page (seq 1 2))) (osdr_items w).
Proof.
  cbn zeta.
  apply (GetPaginated_walk (Examples.healthy 2000) 2 _ 2).
  - reflexivity.
  - lia.
  - reflexivity.
  - vm_compute. lia.
Defined.

(** *** Lookup after an upsert *)

Lemma First_single (r : OSDRItem) : OSDRQueries.First [r] = Ok r.
Proof. reflexivity. Qed.



(** [Delete] removes the rows with the identifier and no other: the
    identifier is not found afterwards, every other identifier is
    found as before, no row is added, and deleting again (or deleting
    an identifier that is not stored) is no error and changes
    nothing. *)
Theorem Delete_removes_the_row (env : Env) (id : N) (w : World) :
  db_up env = true ->
  let w' := snd (OSDRQueries.Delete env id w) in
  fst (OSDRQueries.Delete env id w) = None /\
  OSDRQueries.GetByID env id w' = Err ErrRecordNotFound /\
  (forall id', id' <> id ->
     OSDRQueries.GetByID env id' w' = OSDRQueries.GetByID env id' w) /\
  (forall r, In r (osdr_items w') <-> In r (osdr_items w) /\ ID r <> id) /\
  OSDRQueries.Delete env id w' = (None, w') /\
  (OSDRQueries.GetByID env id w = Err ErrRecordNotFound -> osdr_items w' = osdr_items w).
Proof.
  intros Hdb. cbn zeta. unfold OSDRQueries.Delete, OSDRQueries.GetByID. rewrite Hdb.
  cbn [fst snd osdr_items set_osdr_items].
  set (tbl := osdr_items w).
  assert (Hnone : List.filter (fun r => (ID r =? id)%N)
                    (List.filter (fun r => negb (ID r =? id)%N) tbl) = []).
  { induction tbl as [|x tbl IH]; [reflexivity|]. cbn [List.filter].
    destruct (ID x =? id)%N eqn:E; cbn [negb List.filter]; [exact IH|].
    now rewrite E. }
  split; [reflexivity|]. split; [now rewrite Hnone|]. split; [|split; [|split]].
  - intros id' Hne. f_equal. clear Hnone.
    induction tbl as [|x tbl IH]; [reflexivity|]. cbn [List.filter].
    destruct (ID x =? id)%N eqn:E; cbn [negb List.filter].
    + apply N.eqb_eq in E. rewrite <- E in Hne.
      rewrite (proj2 (N.eqb_neq (ID x) id')) by congruence. exact IH.
    + destruct (ID x =? id')%N; [now rewrite IH|exact IH].
  - intros r. rewrite filter_In, negb_true_iff, N.eqb_neq. reflexivity.
  - f_equal. unfold set_osdr_items. cbn. f_equal. clear Hnone.
    induction tbl as [|x tbl IH]; [reflexivity|]. cbn [List.filter].
    destruct (ID x =? id)%N eqn:E; cbn [negb List.filter]; [exact IH|].
    rewrite E. cbn [negb]. now rewrite IH.
  - unfold OSDRQueries.First. intros Hnf.
    destruct (order_by OSDRQueries.id_asc (List.filter (fun r => (ID r =? id)%N) tbl))
      as [|r rest] eqn:E; [|discriminate].
    assert (Hf : List.filter (fun r => (ID r =? id)%N) tbl = []).
    { pose proof (ReadFacts.length_order_by OSDRQueries.id_asc
                    (List.filter (fun r => (ID r =? id)%N) tbl)) as Hlen.
      rewrite E in Hlen.
      destruct (List.filter (fun r => (ID r =? id)%N) tbl); [reflexivity|].
      cbn in Hlen. discriminate Hlen. }
    clear E Hnf Hnone. induction tbl as [|x tbl IH]; [reflexivity|].
    cbn [List.filter] in *. destruct (ID x =? id)%N; [discriminate|].
    cbn [negb]. now rewrite IH.
Qed.

Lemma Delete_removes_the_row_witness :
  let w := snd (BulkUpsert (Examples.healthy 1000)
                  [Examples.record "OSD-1" "first" "open" None;
                   Examples.record "OSD-2" "second" "open" None] Examples.fresh) in
  let w' := snd (OSDRQueries.Delete (Examples.healthy 2000) 1%N w) in
  OSDRQueries.GetByID (Examples.healthy 2000) 1%N w' = Err ErrRecordNotFound /\
  map DatasetID (osdr_items w') = ["OSD-2"].
Proof.
  cbn zeta.
  destruct (Delete_removes_the_row (Examples.healthy 2000) 1%N
              (snd (BulkUpsert (Examples.healthy 1000)
                      [Examples.record "OSD-1" "first" "open" None;
                       Examples.record "OSD-2" "second" "open" None] Examples.fresh))
              eq_refl) as (_ & H & _).
  split; [exact H|reflexivity].
Defined.

(** *** The same batch again *)

(** The insertion time of a row that an upsert overwrites is the one
    the batch carries. *)
Lemma upsert_each_inserted (env : Env) (items : list OSDRItem) :
  forall tbl tbl', wf_table tbl -> Forall (fun i => ID i = 0%N) items ->
    upsert_each env items tbl = Ok tbl' ->
    forall k j, last_with k items = Some j -> rows_with k tbl <> [] ->
      forall r, In r (rows_with k tbl') -> InsertedAt r = InsertedAt j.
Proof.
  induction items as [|item rest IH]; intros tbl tbl' Hwf Hz Hrun k j Hlast Hne r Hr.
  - discriminate Hlast.
  - inversion Hz as [|? ? Hz1 Hz2]; subst.
    rewrite (OSDRFacts.upsert_each_cons env item rest tbl Hwf Hz1) in Hrun.
    pose proof (OSDRFacts.upsert_one_wf env item tbl Hwf) as Hwf1.
    pose proof (OSDRFacts.rows_with_upsert_one env k item tbl Hwf) as Hone.
    cbn [last_with] in Hlast.
    destruct (last_with k rest) as [j'|] eqn:Er.
    + injection Hlast as ->.
      apply (IH _ tbl' Hwf1 Hz2 Hrun k j Er); [|exact Hr].
      rewrite Hone. destruct (valid item && key_is k item); [discriminate|exact Hne].
    + destruct (valid item && key_is k item) eqn:Ec; [|discriminate].
      injection Hlast as <-.
      destruct (OSDRFacts.upsert_each_rows env rest _ Hwf1 Hz2) as (t & Ht & _ & Hrows).
      rewrite Hrun in Ht. injection Ht as <-.
      specialize (Hrows k). rewrite Er, Hone in Hrows. rewrite Hrows in Hr.
      destruct Hr as [<-|[]].
      apply andb_true_iff in Ec as [_ Ek]. apply OSDRFacts.key_is_true in Ek. subst k.
      unfold merged.
      destruct (List.find (key_is (DatasetID item)) tbl) as [ex|] eqn:Ef; [reflexivity|].
      now rewrite (OSDRFacts.rows_with_none _ _ Ef) in Hne.
Qed.



(** The two calls of the witness, evaluated: the row keeps its
    identifier and its creation time; its insertion time, set when
    the row was inserted, is the zero time of the record after the
    second call. *)
Example BulkUpsert_same_batch_again_run :
  let w1 := snd (BulkUpsert (Examples.healthy 1000)
                   [Examples.record "OSD-1" "first" "open" None] Examples.fresh) in
  let w2 := snd (BulkUpsert (Examples.healthy 2000)
                   [Examples.record "OSD-1" "first" "open" None] w1) in
  map (fun r => (ID r, CreatedAt r, InsertedAt r)) (osdr_items w1)
    = [(1%N, 1000, 1000)] /\
  map (fun r => (ID r, CreatedAt r, InsertedAt r)) (osdr_items w2)
    = [(1%N, 1000, zero_time)].
Proof. split; reflexivity. Qed.

(** *** The list is served from the cache while it lasts *)

Lemma osdrListKey_not_lock (page limit : Z) :
  NASAService.osdrListKey page limit <> "nasa:osdr:last_fetch".
Proof. unfold NASAService.osdrListKey. cbn. discriminate. Qed.

(** A list read from the database and cached (it was not empty) is
    what every read of the same page returns for the next five
    minutes, whatever the synchronizations of the OSDR stored in
    between: they do not touch the cached lists. *)
Theorem GetOSDRList_served_from_cache
    (L : GoLib) (e1 e3 : Env) (syncs : list Env) (page limit : Z) (w : World)
    (item : OSDRItem) (items : list OSDRItem) :
  let key := NASAService.osdrListKey (if page <? 1 then 1 else page)
               (if (limit <? 1) || (100 <? limit) then 20 else limit) in
  Cache.client_Get e1 key w = Cache.Nil ->
  fst (NASAService.GetOSDRList e1 page limit w) = Ok (item :: items) ->
  redis_write_up e1 key = true ->
  redis_read_up e3 key = true ->
  now e3 < now e1 + 300 ->
  let w1 := snd (NASAService.GetOSDRList e1 page limit w) in
  let w2 := fold_left (fun w e => snd (NASAService.FetchAndStoreOSDR L e w)) syncs w1 in
  NASAService.GetOSDRList e3 page limit w2 = (Ok (item :: items), w2).
Proof.
  cbn zeta. intros Hmiss Hres Hwr Hrd Hlt.
  set (key := NASAService.osdrListKey (if page <? 1 then 1 else page)
                (if (limit <? 1) || (100 <? limit) then 20 else limit)) in *.
  set (w1 := snd (NASAService.GetOSDRList e1 page limit w)).
  assert (Hk1 : redis w1 !! key = Some (CItems (item :: items), Some (now e1 + 300))).
  { unfold w1. revert Hres.
    unfold NASAService.GetOSDRList. fold key. unfold Cache.GetJSON. rewrite Hmiss.
    destruct (GetPaginated e1 _ _ w) as [l|e]; [|discriminate].
    cbn [fst]. intros H. injection H as ->.
    unfold Cache.SetJSON, Cache.client_Set. rewrite Hwr. cbn.
    apply lookup_insert_eq. }
  assert (Hk2 : forall w0, redis w0 !! key = redis w1 !! key ->
            redis (fold_left (fun w e => snd (NASAService.FetchAndStoreOSDR L e w))
                     syncs w0) !! key = redis w1 !! key).
  { induction syncs as [|e syncs IH]; intros w0 H0; [exact H0|].
    cbn [fold_left]. apply IH.
    rewrite FrameFacts.FetchAndStoreOSDR_redis; [exact H0|apply osdrListKey_not_lock]. }
  specialize (Hk2 w1 eq_refl). rewrite Hk1 in Hk2.
  unfold NASAService.GetOSDRList. fold key.
  unfold Cache.GetJSON, Cache.client_Get. rewrite Hrd, Hk2. cbn [Cache.live].
  now rewrite (proj2 (Z.ltb_lt _ _) Hlt).
Qed.

Lemma GetOSDRList_served_from_cache_witness :
  let w := snd (BulkUpsert (Examples.healthy 0)
                  [Examples.record "OSD-7" "seventh" "open" None] Examples.fresh) in
  let w1 := snd (NASAService.GetOSDRList (Examples.healthy 10) 1 20 w) in
  let w2 := fold_left (fun w e => snd (NASAService.FetchAndStoreOSDR Examples.lib e w))
              [Examples.healthy 20] w1 in
  length (osdr_items w2) = 2%nat /\
  exists item,
    NASAService.GetOSDRList (Examples.healthy 30) 1 20 w2 = (Ok [item], w2).
Proof.
  cbn zeta. split; [reflexivity|]. eexists.
  apply (GetOSDRList_served_from_cache Examples.lib (Examples.healthy 10)
           (Examples.healthy 30) [Examples.healthy 20] 1 20); try reflexivity.
Defined.

End OSDRQueryFacts.

(** ** The cache store *)

Module CacheFacts.
Import Notions.

(** A value written with [Set] is what [Get] returns for the key until
    the expiration runs out, and the empty string (with a nil error)
    from then on; an expiration that is not positive never runs out;
    no other key is affected. *)
Theorem Set_then_Get
    (e1 e2 : Env) (key : string) (v : CVal) (expiration : Z) (w : World) :
  redis_write_up e1 key = true -> redis_read_up e2 key = true ->
  let w1 := snd (Cache.Set_ e1 key v expiration w) in
  fst (Cache.Set_ e1 key v expiration w) = None /\
  Cache.Get e2 key w1
    = Ok (if (expiration <=? 0) || (now e2 <? now e1 + expiration)
          then Cache.text v else None) /\
  forall key', key' <> key -> Cache.Get e2 key' w1 = Cache.Get e2 key' w.
Proof.
  intros Hwr Hrd. cbn zeta. unfold Cache.Set_, Cache.client_Set. rewrite Hwr.
  cbn [fst snd]. split; [reflexivity|]. split.
  - unfold Cache.Get, Cache.client_Get. rewrite Hrd. cbn [redis set_redis].
    rewrite lookup_insert_eq.
    destruct (Z.ltb_spec 0 expiration), (Z.leb_spec expiration 0); try lia;
      cbn [orb Cache.live]; [|reflexivity].
    now destruct (now e2 <? now e1 + expiration).
  - intros key' Hne. unfold Cache.Get, Cache.client_Get. cbn [redis set_redis].
    now rewrite lookup_insert_ne by congruence.
Qed.

Lemma Set_then_Get_witness :
  let w1 := snd (Cache.Set_ (Examples.healthy 0) "iss:last_fetch" (CStr "1") 120
                   Examples.fresh) in
  Cache.Get (Examples.healthy 119) "iss:last_fetch" w1 = Ok (Some (CStr "1")) /\
  Cache.Get (Examples.healthy 120) "iss:last_fetch" w1 = Ok None.
Proof.
  cbn zeta. split.
  - exact (proj1 (proj2 (Set_then_Get (Examples.healthy 0) (Examples.healthy 119)
                           "iss:last_fetch" (CStr "1") 120 Examples.fresh
                           eq_refl eq_refl))).
  - exact (proj1 (proj2 (Set_then_Get (Examples.healthy 0) (Examples.healthy 120)
                           "iss:last_fetch" (CStr "1") 120 Examples.fresh
                           eq_refl eq_refl))).
Defined.

(** [Exists] tells whether [Get] would find a value that has not
    expired; after [Delete] the key does not exist and [Get] returns
    the empty string, whatever was stored and however long it had to
    live; deleting a key that is not there is no error; no other key
    is affected. *)
Theorem Delete_then_Exists (e1 e2 : Env) (key : string) (w : World) :
  redis_write_up e1 key = true -> redis_read_up e2 key = true ->
  let w1 := snd (CacheRepository.Delete e1 key w) in
  fst (CacheRepository.Delete e1 key w) = None /\
  CacheRepository.Exists e2 key w1 = (false, None) /\
  Cache.Get e2 key w1 = Ok None /\
  (forall key', key' <> key -> redis w1 !! key' = redis w !! key') /\
  (CacheRepository.Exists e2 key w = (true, None) <->
   exists v, Cache.client_Get e2 key w = Cache.Val v) /\
  (forall v expiration,
     0 < expiration -> now e2 < now e1 + expiration ->
     CacheRepository.Exists e2 key (snd (Cache.Set_ e1 key v expiration w))
     = (true, None)).
Proof.
  intros Hwr Hrd. cbn zeta. unfold CacheRepository.Delete. rewrite Hwr. cbn [fst snd].
  split; [reflexivity|].
  unfold CacheRepository.Exists, Cache.Get, Cache.client_Get. rewrite Hrd.
  cbn [redis set_redis]. rewrite lookup_delete_eq.
  split; [reflexivity|]. split; [reflexivity|]. split; [|split].
  - intros key' Hne. now rewrite lookup_delete_ne by congruence.
  - destruct (redis w !! key) as [[v expiry]|]; [destruct (Cache.live _ _)|].
    all: split; [intros H|intros [v0 H]]; try discriminate; eauto.
  - intros v expiration H0 Hlt. unfold Cache.Set_, Cache.client_Set. rewrite Hwr.
    cbn [snd redis set_redis]. rewrite lookup_insert_eq.
    rewrite (proj2 (Z.ltb_lt 0 expiration) H0). cbn [Cache.live].
    now rewrite (proj2 (Z.ltb_lt _ _) Hlt).
Qed.

Lemma Delete_then_Exists_witness :
  let w := snd (Cache.Set_ (Examples.healthy 0) "iss:last_fetch" (CStr "1") 120
                  Examples.fresh) in
  let w1 := snd (CacheRepository.Delete (Examples.healthy 10) "iss:last_fetch" w) in
  CacheRepository.Exists (Examples.healthy 20) "iss:last_fetch" w = (true, None) /\
  CacheRepository.Exists (Examples.healthy 20) "iss:last_fetch" w1 = (false, None).
Proof.
  cbn zeta. split; [reflexivity|].
  exact (proj1 (proj2 (Delete_then_Exists (Examples.healthy 10) (Examples.healthy 20)
                         "iss:last_fetch" _ eq_refl eq_refl))).
Defined.

End CacheFacts.

(** ** The statistics of the Redis server *)

Module RedisFacts.
Import Redis MoreNotions.

Lemma append_cons (c : Ascii.ascii) (a b : string) :
  String c a +:+ b = String c (a +:+ b).
Proof. reflexivity. Qed.

Lemma append_nil (s : string) : "" +:+ s = s.
Proof. reflexivity. Qed.

Lemma append_empty (s : string) : s +:+ "" = s.
Proof.
  induction s as [|c s IH]; [reflexivity|]. now rewrite append_cons, IH.
Qed.

Lemma append_assoc (a b c : string) : (a +:+ b) +:+ c = a +:+ (b +:+ c).
Proof.
  induction a as [|x a IH]; [reflexivity|]. now rewrite !append_cons, IH.
Qed.

Lemma length_append (a b : string) :
  String.length (a +:+ b) = (String.length a + String.length b)%nat.
Proof.
  induction a as [|x a IH]; [reflexivity|]. rewrite append_cons. cbn [String.length].
  now rewrite IH.
Qed.

Lemma has_byte_append (c : Ascii.ascii) (a b : string) :
  has_byte c (a +:+ b) = has_byte c a || has_byte c b.
Proof.
  induction a as [|x a IH]; [reflexivity|]. rewrite append_cons. cbn [has_byte].
  rewrite IH. now rewrite orb_assoc.
Qed.

Lemma substring_prefix (cur rest : string) :
  String.substring 0 (String.length cur) (cur +:+ rest) = cur.
Proof.
  induction cur as [|x cur IH].
  - now destruct rest.
  - rewrite append_cons. cbn [String.length String.substring]. now rewrite IH.
Qed.

(** [s[lo:hi]] of a text cut in three at [lo] and [hi]. *)
Lemma slice_middle (pre cur rest : string) :
  slice (pre +:+ cur +:+ rest) (String.length pre)
    (String.length pre + String.length cur) = cur.
Proof.
  unfold slice.
  replace (String.length pre + String.length cur - String.length pre)%nat
    with (String.length cur) by lia.
  induction pre as [|x pre IH]; [exact (substring_prefix cur rest)|].
  rewrite append_cons. cbn [String.length String.substring]. exact IH.
Qed.

(** The lines, each followed by a newline. *)
Lemma lines_loop_spec (rest : string) :
  forall (s pre cur : string) (i start : nat) (lines : list string),
    s = pre +:+ cur +:+ rest ->
    i = (String.length pre + String.length cur)%nat ->
    start = String.length pre ->
    has_byte newline cur = false ->
    exists more tail,
      lines_loop s rest i start lines
      = (lines ++ more, (String.length s - String.length tail)%nat) /\
      Forall (fun l => has_byte newline l = false) more /\
      has_byte newline tail = false /\
      cur +:+ rest
      = String.concat "" (map (fun l => l +:+ byte newline) more) +:+ tail.
Proof.
  induction rest as [|c rest IH]; intros s pre cur i start lines Hs Hi Hstart Hcur.
  - exists [], cur. cbn [lines_loop]. rewrite app_nil_r.
    split; [|split; [apply Forall_nil_2|split; [exact Hcur|now rewrite append_empty]]].
    f_equal. subst s start. rewrite !length_append. cbn [String.length]. lia.
  - cbn [lines_loop]. destruct (Ascii.eqb c newline) eqn:Ec.
    + apply Ascii.eqb_eq in Ec. subst c.
      assert (Hslice : slice s start i = cur).
      { subst s i start. apply slice_middle. }
      rewrite Hslice.
      destruct (IH s (pre +:+ cur +:+ byte newline) "" (S i) (S i) (lines ++ [cur]))
        as (more & tail & Hrun & Hmore & Htail & Heq).
      { subst s. unfold byte. now rewrite !append_assoc. }
      { subst i. rewrite !length_append. cbn [String.length byte]. lia. }
      { subst i. rewrite !length_append. cbn [String.length byte]. lia. }
      { reflexivity. }
      exists (cur :: more), tail.
      rewrite Hrun, <- app_assoc. split; [reflexivity|].
      split; [now constructor|]. split; [exact Htail|].
      change ("" +:+ rest) with rest in Heq. rewrite Heq.
      cbn [map]. destruct more as [|m more]; cbn [map String.concat].
      * unfold byte. now rewrite !append_assoc.
      * unfold byte. now rewrite !append_assoc.
    + destruct (IH s pre (cur +:+ byte c) (S i) start lines)
        as (more & tail & Hrun & Hmore & Htail & Heq).
      { subst s. unfold byte. now rewrite !append_assoc. }
      { subst i. rewrite !length_append. cbn [String.length byte]. lia. }
      { exact Hstart. }
      { rewrite has_byte_append. cbn [has_byte byte]. now rewrite Hcur, Ec. }
      exists more, tail.
      split; [exact Hrun|]. split; [exact Hmore|]. split; [exact Htail|].
      rewrite <- Heq. unfold byte. now rewrite append_assoc.
Qed.

Lemma concat_lines_tail (more : list string) (tail : string) :
  String.concat (byte newline) (more ++ [tail])
  = String.concat "" (map (fun l => l +:+ byte newline) more) +:+ tail.
Proof.
  induction more as [|l more IH]; [reflexivity|].
  cbn [app map]. destruct more as [|m more].
  - cbn [app map String.concat]. now rewrite ?append_assoc, ?append_nil.
  - cbn [app] in *. cbn [String.concat map] in *. rewrite IH.
    now rewrite ?append_assoc, ?append_nil.
Qed.

Lemma concat_lines (l : string) (more : list string) :
  String.concat "" (map (fun l => l +:+ byte newline) (l :: more))
  = String.concat (byte newline) (l :: more) +:+ byte newline.
Proof.
  revert l. induction more as [|m more IH]; intros l.
  - reflexivity.
  - cbn [map String.concat] in *. rewrite IH.
    now rewrite ?append_assoc, ?append_nil.
Qed.

(** What [stringToLines] computes. *)
Lemma stringToLines_spec (s : string) :
  exists more tail,
    stringToLines s = (if String.eqb tail "" then more else more ++ [tail]) /\
    Forall (fun l => has_byte newline l = false) more /\
    has_byte newline tail = false /\
    s = String.concat "" (map (fun l => l +:+ byte newline) more) +:+ tail.
Proof.
  destruct (lines_loop_spec s s "" "" 0%nat 0%nat [] eq_refl eq_refl eq_refl eq_refl)
    as (more & tail & Hrun & Hmore & Htail & Heq).
  change ("" +:+ s) with s in Heq. cbn [app] in Hrun.
  exists more, tail. unfold stringToLines. rewrite Hrun.
  split; [|split; [exact Hmore|split; [exact Htail|exact Heq]]].
  assert (Hlen : String.length s
                 = (String.length (String.concat ""
                                     (map (fun l => l +:+ byte newline) more))
                    + String.length tail)%nat).
  { rewrite Heq at 1. apply length_append. }
  destruct tail as [|c tail].
  - cbn [String.eqb String.length]. rewrite Nat.sub_0_r, Nat.ltb_irrefl. reflexivity.
  - cbn [String.eqb].
    rewrite (proj2 (Nat.ltb_lt _ _)) by (cbn [String.length] in *; lia).
    f_equal. f_equal.
    replace (String.length s - String.length (String c tail))%nat
      with (String.length (String.concat "" (map (fun l => l +:+ byte newline) more)))
      by lia.
    rewrite Hlen. rewrite Heq at 1.
    rewrite <- (append_empty (String c tail)) at 1.
    apply slice_middle.
Qed.

(** [stringToLines] cuts a text at its newlines: no line holds a
    newline, and the lines joined by newlines are the text again, up
    to one newline at its end. *)
Theorem stringToLines_joins (s : string) :
  Forall (fun l => has_byte newline l = false) (stringToLines s) /\
  (s = String.concat (byte newline) (stringToLines s) \/
   s = String.concat (byte newline) (stringToLines s) +:+ byte newline) /\
  (stringToLines s = [] <-> s = "").
Proof.
  destruct (stringToLines_spec s) as (more & tail & -> & Hmore & Htail & Heq).
  assert (Hlines : forall l ls,
            String.length (String.concat "" (map (fun l => l +:+ byte newline) (l :: ls)))
            <> 0%nat).
  { intros l ls. rewrite concat_lines, length_append. cbn [byte String.length]. lia. }
  destruct (String.eqb_spec tail "") as [->|Hne].
  - rewrite append_empty in Heq. split; [exact Hmore|]. split.
    + destruct more as [|l more]; [now left|right].
      now rewrite <- concat_lines.
    + destruct more as [|l more]; [now split|].
      split; [discriminate|]. intros ->.
      apply (f_equal String.length) in Heq. symmetry in Heq.
      now apply Hlines in Heq.
  - split; [|split].
    + apply Forall_app. split; [exact Hmore|]. now constructor.
    + left. now rewrite concat_lines_tail.
    + split; [now destruct more|].
      intros ->. apply (f_equal String.length) in Heq. rewrite length_append in Heq.
      destruct more as [|l more].
      * destruct tail; [congruence|discriminate Heq].
      * pose proof (Hlines l more). cbn [String.length] in Heq. lia.
Qed.

(** Three lines, the second empty, and a newline at the end. *)
Example stringToLines_run :
  stringToLines ("a" +:+ byte newline +:+ byte newline +:+ "b:1" +:+ byte newline)
  = ["a"; ""; "b:1"].
Proof. reflexivity. Qed.

(** What [parse_loop] computes from offset [i] on. *)
Lemma parse_loop_spec (rest : string) :
  forall (line pre : string) (i : nat),
    line = pre +:+ rest -> i = String.length pre -> has_byte colon pre = false ->
    match parse_loop line rest i with
    | (key, value, true) =>
        line = key +:+ byte colon +:+ value /\ has_byte colon key = false
    | (key, value, false) =>
        key = "" /\ value = "" /\ has_byte colon line = false
    end.
Proof.
  induction rest as [|c rest IH]; intros line pre i Hline Hi Hpre.
  - cbn [parse_loop]. subst line. rewrite append_empty. now repeat split.
  - cbn [parse_loop]. destruct (Ascii.eqb c colon) eqn:Ec.
    + apply Ascii.eqb_eq in Ec. subst c.
      assert (Hkey : slice line 0 i = pre).
      { subst line i. exact (slice_middle "" pre (String colon rest)). }
      assert (Hvalue : slice line (S i) (String.length line) = rest).
      { subst line i.
        replace (pre +:+ String colon rest) with ((pre +:+ byte colon) +:+ rest +:+ "")
          by (unfold byte; now rewrite append_assoc, append_empty).
        replace (S (String.length pre)) with (String.length (pre +:+ byte colon))
          by (rewrite length_append; cbn [byte String.length]; lia).
        replace (String.length ((pre +:+ byte colon) +:+ rest +:+ ""))
          with (String.length (pre +:+ byte colon) + String.length rest)%nat
          by (rewrite !length_append; cbn [String.length]; lia).
        apply slice_middle. }
      rewrite Hkey, Hvalue. split; [exact Hline|exact Hpre].
    + apply (IH line (pre +:+ byte c) (S i)).
      * subst line. unfold byte. now rewrite append_assoc.
      * subst i. rewrite length_append. cbn [byte String.length]. lia.
      * rewrite has_byte_append. cbn [has_byte byte]. now rewrite Hpre, Ec.
Qed.

(** [parseInfoLine] cuts a line at its first colon: when it finds
    one, the key holds no colon and the line is the key, a colon and
    the value; when it finds none, the line holds no colon and both
    results are empty. *)
Theorem parseInfoLine_splits (line : string) :
  match parseInfoLine line with
  | (key, value, true) =>
      line = key +:+ byte colon +:+ value /\ has_byte colon key = false
  | (key, value, false) =>
      key = "" /\ value = "" /\ has_byte colon line = false
  end.
Proof. exact (parse_loop_spec line line "" 0%nat eq_refl eq_refl eq_refl). Qed.

Lemma record_metric_spec (targets : list string) (key value : string)
    (stats : gmap string string) :
  (In key targets /\ record_metric targets key value stats = <[key := value]> stats) \/
  (~ In key targets /\ record_metric targets key value stats = stats).
Proof.
  induction targets as [|t targets IH]; cbn [record_metric].
  - right. split; [intros []|reflexivity].
  - destruct (String.eqb_spec key t) as [->|Hne].
    + left. split; [now left|reflexivity].
    + destruct IH as [[Hin ->]|[Hnot ->]].
      * left. split; [now right|reflexivity].
      * right. split; [|reflexivity]. intros [Heq|Hin]; [congruence|contradiction].
Qed.

(** The statistics kept from the answer of the server: every entry
    is one of the nine target metrics, and its value is what follows
    the first colon of a line of the answer that starts with the name
    of the metric (a line that is not a comment); an answer that
    fails is returned as the failure. *)
Theorem GetStats_keeps_targets (info : Res string) :
  match GetStats info with
  | Ok stats =>
      exists text, info = Ok text /\
        forall key value, stats !! key = Some value ->
          In key targetMetrics /\
          In (key +:+ byte colon +:+ value) (stringToLines text) /\
          is_comment (key +:+ byte colon +:+ value) = false /\
          has_byte colon key = false
  | Err e => info = Err e
  end.
Proof.
  destruct info as [text|e]; cbn [GetStats]; [|reflexivity].
  exists text. split; [reflexivity|].
  assert (H : forall (ls : list string) (stats : gmap string string),
            (forall l, In l ls -> In l (stringToLines text)) ->
            (forall key value, stats !! key = Some value ->
               In key targetMetrics /\
               In (key +:+ byte colon +:+ value) (stringToLines text) /\
               is_comment (key +:+ byte colon +:+ value) = false /\
               has_byte colon key = false) ->
            forall key value, fold_left stats_line ls stats !! key = Some value ->
              In key targetMetrics /\
              In (key +:+ byte colon +:+ value) (stringToLines text) /\
              is_comment (key +:+ byte colon +:+ value) = false /\
              has_byte colon key = false).
  { induction ls as [|l ls IH]; intros stats Hin Hinv; [exact Hinv|].
    cbn [fold_left]. apply IH; [intros l0 Hl0; apply Hin; now right|].
    unfold stats_line.
    destruct ((0 <? String.length l)%nat && negb (is_comment l)) eqn:Ec; [|exact Hinv].
    apply andb_true_iff in Ec as [_ Ec]. apply negb_true_iff in Ec.
    pose proof (parse_loop_spec l l "" 0%nat eq_refl eq_refl eq_refl) as Hp. fold (parseInfoLine l) in Hp.
    destruct (parseInfoLine l) as [[k v] [|]]; [|exact Hinv].
    destruct Hp as [Hl Hk].
    destruct (record_metric_spec targetMetrics k v stats) as [[Ht ->]|[_ ->]];
      [|exact Hinv].
    intros key value Hlook.
    destruct (String.eqb_spec key k) as [->|Hne].
    - rewrite lookup_insert_eq in Hlook. injection Hlook as <-.
      rewrite <- Hl. split; [exact Ht|]. split; [apply Hin; now left|].
      split; [exact Ec|exact Hk].
    - rewrite lookup_insert_ne in Hlook by congruence. now apply Hinv. }
  apply (H (stringToLines text) ∅); [trivial|].
  intros key value Hlook. now rewrite lookup_empty in Hlook.
Qed.

(** The answer of a server, evaluated: the comment and the metric
    that is not wanted are left out. *)
Example GetStats_run :
  GetStats (Ok ("# Server" +:+ byte newline +:+ "redis_version:7.2.4" +:+ byte newline
                +:+ "tcp_port:6379" +:+ byte newline))
  = Ok {[ "redis_version" := "7.2.4" ]}.
Proof. reflexivity. Qed.

(** [Connect] panics exactly when the server answers the ping and
    its description of itself is shorter than the 100 bytes that are
    logged (and not empty); it fails exactly when the ping fails. *)
Theorem Connect_panics_on_short_info
    (config : Config) (ping : option error) (info : Res string) :
  (fst (Connect config ping info) = Panic <->
   ping = None /\
   exists text, info = Ok text /\ (0 < String.length text < 100)%nat) /\
  (forall e, fst (Connect config ping info) = Returned (Err e) <->
             exists err, ping = Some err /\ e = Wrap "failed to connect to Redis" err) /\
  (fst (Connect config ping info) = Returned (Ok config) <->
   ping = None /\
   forall text, info = Ok text -> (String.length text = 0 \/ 100 <= String.length text)%nat).
Proof.
  unfold Connect. destruct ping as [err|]; cbn [fst].
  { split; [split; [discriminate|intros [H _]; discriminate]|]. split.
    - intros e. split; [intros H; injection H as <-; now exists err|].
      intros (err' & H & ->). now injection H as ->.
    - split; [discriminate|intros [H _]; discriminate]. }
  destruct info as [text|e0]; cbn [fst].
  2: { split; [split; [discriminate|intros (_ & t & Ht & _); discriminate]|].
       split; [intros e; split; [discriminate|intros (err & H' & _); discriminate]|].
       split; [intros _; split; [reflexivity|intros t Ht; discriminate]|reflexivity]. }
  destruct (Nat.ltb_spec 0 (String.length text)) as [Hpos|Hzero].
  2: { cbn [fst]. split; [split; [discriminate|]|].
       - intros (_ & t & Ht & Hlen). injection Ht as <-. lia.
       - split; [intros e; split; [discriminate|intros (err & H' & _); discriminate]|].
         split; [|reflexivity]. intros _. split; [reflexivity|].
         intros t Ht. injection Ht as <-. lia. }
  destruct (Nat.leb_spec 100 (String.length text)) as [Hlong|Hshort]; cbn [fst].
  - split; [split; [discriminate|]|].
    + intros (_ & t & Ht & Hlen). injection Ht as <-. lia.
    + split; [intros e; split; [discriminate|intros (err & H' & _); discriminate]|].
      split; [|reflexivity]. intros _. split; [reflexivity|].
      intros t Ht. injection Ht as <-. lia.
  - split; [split; [|reflexivity]|].
    + intros _. split; [reflexivity|]. exists text. split; [reflexivity|lia].
    + split; [intros e; split; [discriminate|intros (err & H' & _); discriminate]|].
      split; [discriminate|]. intros [_ Hlen]. specialize (Hlen text eq_refl). lia.
Qed.

End RedisFacts.

(** ** The workers and the scheduler *)

Module WorkerFacts.
Import MoreNotions.

Lemma calls_Panic (ops : list ISSWorker.op) :
  fold_left ISSWorker.step ops Panic = Panic.
Proof. induction ops as [|o ops IH]; [reflexivity|exact IH]. Qed.

(** A call that is the next fatal one makes the rest of them fatal. *)
Lemma fatal_next {A : Type} (x : A) (l ops : list A) :
  l `sublist_of` ops <->
  x :: l `sublist_of` ops \/ (exists l', x :: l = x :: l' /\ l' `sublist_of` ops).
Proof.
  split.
  - intros H. right. now exists l.
  - intros [H|(l' & Hl & H)]; [|now injection Hl as <-].
    apply sublist_cons_l in H as (k1 & k2 & -> & H).
    apply sublist_inserts_l. now apply sublist_cons.
Qed.

(** Any other call leaves them as they are. *)
Lemma fatal_other {A : Type} (x y : A) (l ops : list A) :
  x <> y ->
  y :: l `sublist_of` ops <->
  y :: l `sublist_of` ops \/ (exists l', y :: l = x :: l' /\ l' `sublist_of` ops).
Proof.
  intros Hne. split; [now left|].
  intros [H|(l' & Hl & H)]; [exact H|]. injection Hl as Hl _. congruence.
Qed.

Lemma calls_panic_iff (ops : list ISSWorker.op) :
  forall w, ISSWorker.calls ops w = Panic <-> fatal_calls w `sublist_of` ops.
Proof.
  induction ops as [|o ops IH]; intros w.
  - unfold ISSWorker.calls. cbn [fold_left]. rewrite sublist_nil_r.
    split; [discriminate|].
    unfold fatal_calls.
    destruct (ISSWorker.isRunning w), (ISSWorker.stopChan_closed w); discriminate.
  - unfold ISSWorker.calls. cbn [fold_left ISSWorker.step].
    rewrite sublist_cons_r.
    destruct w as [s r c g]. destruct o, r, c;
      unfold ISSWorker.Start, ISSWorker.Stop, fatal_calls at 1 2;
      cbn [ISSWorker.isRunning ISSWorker.stopChan_closed negb ISSWorker.service
           ISSWorker.goroutines].
    all: try (rewrite calls_Panic; split; [|reflexivity]; intros _; right;
              eexists; split; [reflexivity|apply sublist_nil_l]).
    all: match goal with
         | |- context [fold_left ISSWorker.step ?l (Returned ?w0)] =>
             change (fold_left ISSWorker.step l (Returned w0))
               with (ISSWorker.calls l w0);
             rewrite (IH w0)
         end.
    all: unfold fatal_calls; cbn [ISSWorker.isRunning ISSWorker.stopChan_closed].
    all: first [ apply fatal_next | apply fatal_other; discriminate ].
Qed.

(** A worker panics under exactly the sequences of calls that hold
    Start, Stop, Start, Stop in this order, with any calls in
    between: its stop channel is closed by the first Stop that finds
    it running, and closed again by the second. *)
Theorem ISSWorker_panics_iff (s : ISSService.issService) (ops : list ISSWorker.op) :
  ISSWorker.calls ops (ISSWorker.NewISSWorker s) = Panic <->
  [ISSWorker.OpStart; ISSWorker.OpStop; ISSWorker.OpStart; ISSWorker.OpStop]
    `sublist_of` ops.
Proof. exact (calls_panic_iff ops (ISSWorker.NewISSWorker s)). Qed.

(** Start and Stop in turn, twice. *)
Example ISSWorker_restart_run :
  ISSWorker.calls [ISSWorker.OpStart; ISSWorker.OpStart; ISSWorker.OpStop;
                   ISSWorker.OpStop; ISSWorker.OpStart]
    (ISSWorker.NewISSWorker Examples.iss)
  = Returned {| ISSWorker.service := Examples.iss; ISSWorker.isRunning := true;
                ISSWorker.stopChan_closed := true; ISSWorker.goroutines := 2 |} /\
  ISSWorker.calls [ISSWorker.OpStart; ISSWorker.OpStop; ISSWorker.OpStart;
                   ISSWorker.OpStop]
    (ISSWorker.NewISSWorker Examples.iss)
  = Panic.
Proof. split; reflexivity. Qed.

(** What a scheduler in any state launches under further calls. *)
Lemma launched_iff (ops : list Scheduler.op) :
  forall (s : Scheduler.Scheduler) (x : Scheduler.Worker),
    In x (Scheduler.launched (Scheduler.run ops s)) <->
    In x (Scheduler.launched s) \/
    (Scheduler.stopped s = false /\
     exists b c, ops = b ++ Scheduler.OpStart :: c /\ no_Stop b = true /\
                 (In x (Scheduler.workers s) \/ In (Scheduler.OpAddWorker x) b)).
Proof.
  induction ops as [|o ops IH]; intros s x.
  - cbn. split; [now left|].
    intros [H|(_ & b & c & Heq & _)]; [exact H|]. destruct b; discriminate Heq.
  - change (Scheduler.run (o :: ops) s) with (Scheduler.run ops (Scheduler.step s o)).
    rewrite IH. destruct o as [y| |d].
    + cbn [Scheduler.step Scheduler.AddWorker Scheduler.launched Scheduler.stopped
           Scheduler.workers].
      split.
      * intros [H|(Hs & b & c & -> & Hb & Hin)]; [now left|].
        right. split; [exact Hs|].
        exists (Scheduler.OpAddWorker y :: b), c. split; [reflexivity|].
        split; [exact Hb|].
        destruct Hin as [Hin|Hin].
        -- apply in_app_or in Hin as [Hin|[<-|[]]]; [now left|].
           right. now left.
        -- right. now right.
      * intros [H|(Hs & b & c & Heq & Hb & Hin)]; [now left|].
        destruct b as [|o' b]; [discriminate Heq|].
        injection Heq as <- ->.
        right. split; [exact Hs|]. exists b, c. split; [reflexivity|].
        split; [exact Hb|].
        destruct Hin as [Hin|[Hin|Hin]].
        -- left. apply in_or_app. now left.
        -- injection Hin as ->. left. apply in_or_app. right. now left.
        -- now right.
    + cbn [Scheduler.step]. unfold Scheduler.Start.
      destruct (Scheduler.stopped s) eqn:Hst.
      * rewrite ?Hst. split; (intros [H|(Hs & _)]; [now left|discriminate Hs]).
      * cbn [Scheduler.launched Scheduler.stopped Scheduler.workers]. rewrite ?Hst.
        split.
        -- intros [H|(_ & b & c & -> & Hb & Hin)].
           ++ apply in_app_or in H as [H|H]; [now left|].
              right. split; [reflexivity|]. exists [], ops. now repeat split; try left.
           ++ right. split; [reflexivity|].
              exists (Scheduler.OpStart :: b), c. split; [reflexivity|].
              split; [exact Hb|].
              destruct Hin as [Hin|Hin]; [now left|]. right. now right.
        -- intros [H|(_ & b & c & Heq & Hb & Hin)].
           ++ left. apply in_or_app. now left.
           ++ destruct b as [|o' b].
              ** destruct Hin as [Hin|[]]. left. apply in_or_app. now right.
              ** injection Heq as <- ->.
                 right. split; [reflexivity|]. exists b, c. split; [reflexivity|].
                 split; [exact Hb|].
                 destruct Hin as [Hin|[Hin|Hin]]; [now left|discriminate Hin|now right].
    + cbn [Scheduler.step Scheduler.Stop snd Scheduler.launched Scheduler.stopped].
      split.
      * intros [H|(Hs & _)]; [now left|discriminate Hs].
      * intros [H|(Hs & b & c & Heq & Hb & Hin)]; [now left|].
        destruct b as [|o' b]; [discriminate Heq|].
        injection Heq as <- ->. discriminate Hb.
Qed.

Lemma stopped_iff (ops : list Scheduler.op) :
  forall s : Scheduler.Scheduler,
    Scheduler.stopped (Scheduler.run ops s) = Scheduler.stopped s || negb (no_Stop ops).
Proof.
  induction ops as [|o ops IH]; intros s.
  - cbn. now rewrite orb_false_r.
  - change (Scheduler.run (o :: ops) s) with (Scheduler.run ops (Scheduler.step s o)).
    rewrite IH. destruct o as [y| |d]; cbn [Scheduler.step].
    + reflexivity.
    + unfold Scheduler.Start. now destruct (Scheduler.stopped s) eqn:Hst; cbn; rewrite ?Hst.
    + cbn. now rewrite orb_true_r.
Qed.

(** A worker is launched exactly when it was added before a [Start]
    that no [Stop] precedes; the order of the calls up to that [Start]
    does not matter otherwise.  [IsRunning] answers true as long as
    [Stop] was not called, whether or not [Start] was. *)
Theorem Scheduler_launches (ops : list Scheduler.op) :
  Scheduler.IsRunning (Scheduler.run ops Scheduler.NewScheduler) = no_Stop ops /\
  forall x : Scheduler.Worker,
    In x (Scheduler.launched (Scheduler.run ops Scheduler.NewScheduler)) <->
    exists b c, ops = b ++ Scheduler.OpStart :: c /\ no_Stop b = true /\
                In (Scheduler.OpAddWorker x) b.
Proof.
  split.
  - unfold Scheduler.IsRunning. rewrite stopped_iff. cbn. apply negb_involutive.
  - intros x. rewrite launched_iff. cbn [Scheduler.NewScheduler Scheduler.launched
      Scheduler.stopped Scheduler.workers].
    split.
    + intros [[]|(_ & b & c & Heq & Hb & [[]|Hin])]. now exists b, c.
    + intros (b & c & Heq & Hb & Hin). right. split; [reflexivity|].
      exists b, c. now repeat split; try right.
Qed.

End WorkerFacts.

(** ** The handlers *)

Module HandlerFacts.
Import Notions DashboardHandler.

Lemma GetLastPosition_Ok (env : Env) (w : World) :
  db_up env = true -> iss_logs w <> [] ->
  exists p w1, ISSService.GetLastPosition env w = (Ok p, w1).
Proof.
  intros Hdb Hne.
  assert (Hdbcase : exists p w1,
    match ISSRepository.GetLast env w with
    | Err e => (Err (Wrap "failed to get last ISS position" e), w)
    | Ok issLog =>
        (Ok issLog,
         match Cache.Set_ env "iss:last_position" (CJSON (log_Payload issLog)) 120 w with
         | (Some _, w) => log "Failed to cache ISS data" w
         | (None, w) => w
         end)
    end = (Ok p, w1)).
  { unfold ISSRepository.GetLast. rewrite Hdb.
    pose proof (ReadFacts.length_order_by ISSRepository.fetched_at_desc (iss_logs w))
      as Hlen.
    destruct (order_by ISSRepository.fetched_at_desc (iss_logs w)) as [|l rest].
    - destruct (iss_logs w); [contradiction|discriminate Hlen].
    - now eexists _, _. }
  unfold ISSService.GetLastPosition.
  destruct (Cache.Get env "iss:last_position" w) as [[[]|]|]; try exact Hdbcase.
  destruct (unmarshal_payload v); [|exact Hdbcase].
  now eexists _, _.
Qed.

Lemma GetTrend_Ok (L : GoLib) (env : Env) (limit : Z) (w : World) :
  db_up env = true ->
  exists t w1, ISSService.GetTrend L env limit w = (Ok t, w1).
Proof.
  intros Hdb. unfold ISSService.GetTrend.
  destruct (Cache.GetJSON _ _ _ _) as [[t|]|e]; try now eexists _, _.
  unfold ISSRepository.GetLastN. rewrite Hdb.
  destruct (Limit 2 _) as [|current [|previous rest]]; now eexists _, _.
Qed.

Section Dashboard.
Context {JWSTImage AstroEvent Telemetry : Type}.
Variable L : GoLib.
Variable jwstService_GetFeed : Env -> World -> Res (list JWSTImage) * World.
Variable astroService_GetEvents : Env -> World -> Res (list AstroEvent) * World.
Variable telemetryService_GetTelemetryHistory
  : Env -> World -> Res (list Telemetry) * World.

(** With the database up and at least one position of the ISS
    stored, the handler of the dashboard panics: the last position
    and the trend are both there, and the handler asserts that the
    position, a pointer to a log row, is a map.  This holds whatever
    the cache holds and whatever the other services would answer;
    they are not reached. *)
Theorem GetDashboardData_panics_with_a_position (env : Env) (w : World) :
  db_up env = true -> iss_logs w <> [] ->
  fst (GetDashboardData L jwstService_GetFeed astroService_GetEvents
         telemetryService_GetTelemetryHistory env w) = Panic.
Proof.
  intros Hdb Hne.
  destruct (GetLastPosition_Ok env w Hdb Hne) as (p & w1 & E1).
  destruct (GetTrend_Ok L env 240 w1 Hdb) as (t & w2 & E2).
  unfold GetDashboardData. rewrite E1, E2. reflexivity.
Qed.

(** Whenever the handler of the dashboard answers, it answers 200 and
    reports a failure of the ISS: the position or the trend is among
    the errors, so the summary never says that the services are
    well, and counts the errors listed. *)
Theorem GetDashboardData_never_all_ok (env : Env) (w w' : World) (code : Z)
    (d : dashboardData) :
  GetDashboardData L jwstService_GetFeed astroService_GetEvents
    telemetryService_GetTelemetryHistory env w = (Returned (code, d), w') ->
  code = 200 /\
  services_ok (Summary d) = false /\
  errors_count (Summary d) = length (Errors d) /\
  exists e, In ("ISS data: ", e) (Errors d) \/ In ("ISS trend: ", e) (Errors d).
Proof.
  unfold GetDashboardData.
  destruct (ISSService.GetLastPosition env w) as [[p|e1] w1];
    destruct (ISSService.GetTrend L env 240 w1) as [[t|e2] w2];
    try discriminate.
  all: destruct (NASAService.GetAPOD env "" w2) as [[?|?] w3];
       destruct (jwstService_GetFeed env w3) as [[?|?] w4];
       destruct (astroService_GetEvents env w4) as [[?|?] w5];
       destruct (telemetryService_GetTelemetryHistory env w5) as [[?|?] w6].
  all: intros H; injection H as <- <- <-; cbn.
  all: repeat split.
  all: eexists; first [left; now left | right; now left | right; right; now left].
Qed.

End Dashboard.

Lemma GetDashboardData_panics_with_a_position_witness :
  let w := snd (ISSService.FetchAndStoreISSData Examples.iss (Examples.healthy 0)
                  Examples.fresh) in
  fst (GetDashboardData (JWSTImage := unit) (AstroEvent := unit) (Telemetry := unit)
         Examples.lib (fun _ w => (Ok [], w)) (fun _ w => (Ok [], w))
         (fun _ w => (Ok [], w)) (Examples.healthy 500) w) = Panic.
Proof.
  cbn zeta.
  apply (GetDashboardData_panics_with_a_position Examples.lib
           (fun _ w => (Ok [], w)) (fun _ w => (Ok [], w)) (fun _ w => (Ok [], w))
           (Examples.healthy 500)).
  - reflexivity.
  - vm_compute. discriminate.
Defined.

Lemma GetDashboardData_never_all_ok_witness :
  exists d w',
    GetDashboardData (JWSTImage := unit) (AstroEvent := unit) (Telemetry := unit)
      Examples.lib (fun _ w => (Ok [], w)) (fun _ w => (Ok [], w))
      (fun _ w => (Ok [], w)) (Examples.healthy 0) Examples.fresh
    = (Returned (200, d), w') /\
    services_ok (Summary d) = false /\
    Errors d = [("ISS data: ", Wrap "failed to get last ISS position" ErrRecordNotFound)].
Proof.
  eexists _, _. split; [vm_compute; reflexivity|].
  split; [|reflexivity].
  eapply (GetDashboardData_never_all_ok (JWSTImage := unit) (AstroEvent := unit)
            (Telemetry := unit) Examples.lib
            (fun _ w => (Ok [], w)) (fun _ w => (Ok [], w)) (fun _ w => (Ok [], w))
            (Examples.healthy 0) Examples.fresh _ 200).
  vm_compute. reflexivity.
Defined.



End HandlerFacts.

(** ** Binary64 arithmetic

    Facts of the operations on [float], from their specification
    ([SpecFloat]): the sign of a product, a quotient and a difference,
    and how NaN and the zeros go through them. *)

Module FloatFacts.
Local Open Scope float_scope.

Lemma round_opp (s : bool) (m e : Z) (l : location) :
  binary_round_aux prec emax (negb s) m e l
  = SFopp (binary_round_aux prec emax s m e l).
Proof.
  unfold binary_round_aux.
  destruct (shr_fexp prec emax m e l) as [mrs' e'].
  destruct (shr_fexp prec emax _ e' loc_Exact) as [mrs'' e''].
  destruct (shr_m mrs''); try reflexivity.
  now destruct (e'' <=? emax - prec)%Z.
Qed.

Lemma SFmul_comm (x y : spec_float) : SF64mul x y = SF64mul y x.
Proof.
  destruct x as [sx|sx| |sx mx ex], y as [sy|sy| |sy my ey]; cbn;
    rewrite ?(xorb_comm sx sy); try reflexivity.
  now rewrite Pos.mul_comm, Z.add_comm.
Qed.

Lemma SFmul_opp_l (x y : spec_float) : SF64mul (SFopp x) y = SFopp (SF64mul x y).
Proof.
  destruct x as [sx|sx| |sx mx ex], y as [sy|sy| |sy my ey]; cbn;
    rewrite <- ?negb_xorb_l; try reflexivity.
  apply round_opp.
Qed.

Lemma SFdiv_opp_l (x y : spec_float) : SF64div (SFopp x) y = SFopp (SF64div x y).
Proof.
  destruct x as [sx|sx| |sx mx ex], y as [sy|sy| |sy my ey]; cbn;
    rewrite <- ?negb_xorb_l; try reflexivity.
  destruct (SFdiv_core_binary prec emax (Z.pos mx) ex (Z.pos my) ey) as [[mz ez] lz].
  apply round_opp.
Qed.

Lemma mul_comm (x y : float) : x * y = y * x.
Proof. apply Prim2SF_inj. rewrite !FloatAxioms.mul_spec. apply SFmul_comm. Qed.

Lemma mul_opp_l (x y : float) : (- x) * y = - (x * y).
Proof.
  apply Prim2SF_inj. rewrite FloatAxioms.mul_spec, !FloatAxioms.opp_spec, FloatAxioms.mul_spec. apply SFmul_opp_l.
Qed.

Lemma div_opp_l (x y : float) : (- x) / y = - (x / y).
Proof.
  apply Prim2SF_inj. rewrite FloatAxioms.div_spec, !FloatAxioms.opp_spec, FloatAxioms.div_spec. apply SFdiv_opp_l.
Qed.

Lemma opp_involutive (x : float) : - - x = x.
Proof.
  apply Prim2SF_inj. rewrite !FloatAxioms.opp_spec.
  destruct (Prim2SF x) as [s|s| |s m e]; cbn; now rewrite ?negb_involutive.
Qed.

Lemma mul_opp_r (x y : float) : x * (- y) = - (x * y).
Proof. now rewrite (mul_comm x (- y)), mul_opp_l, (mul_comm y x). Qed.

Lemma mul_opp_opp (x : float) : (- x) * (- x) = x * x.
Proof. rewrite mul_opp_l, mul_opp_r. apply opp_involutive. Qed.

Lemma mul_mul_opp (p x : float) : p * (- x) * (- x) = p * x * x.
Proof. rewrite mul_opp_r, (mul_opp_r p x), mul_opp_l. apply opp_involutive. Qed.

Lemma binary_round_opp (s : bool) (m : positive) (e : Z) :
  binary_round prec emax (negb s) m e = SFopp (binary_round prec emax s m e).
Proof.
  unfold binary_round.
  destruct (shl_align m e _) as [mz ez]. apply round_opp.
Qed.

Lemma binary_normalize_opp (m e : Z) :
  m <> 0%Z ->
  binary_normalize prec emax (- m) e false
  = SFopp (binary_normalize prec emax m e false).
Proof.
  destruct m as [|p|p]; intros Hm; [contradiction| |]; cbn.
  - apply (binary_round_opp false).
  - now rewrite <- (binary_round_opp true).
Qed.

(** Subtraction the other way round gives the opposite, or [+0] both
    ways. *)
Lemma SFsub_swap (x y : spec_float) :
  SF64sub y x = SFopp (SF64sub x y) \/
  (SF64sub x y = S754_zero false /\ SF64sub y x = S754_zero false).
Proof.
  destruct x as [sx|sx| |sx mx ex], y as [sy|sy| |sy my ey];
    try (left; reflexivity);
    try (destruct sx, sy; cbn; auto; fail).
  cbn. rewrite (Z.min_comm ey ex).
  set (A := cond_Zopp sx _). set (B := cond_Zopp sy _).
  destruct (Z.eq_dec (A - B)%Z 0%Z) as [E|E].
  - right. replace (B - A)%Z with 0%Z by lia. now rewrite E.
  - left. replace (B - A)%Z with (- (A - B))%Z by lia.
    now apply binary_normalize_opp.
Qed.

Lemma SFsub_diag (x : spec_float) :
  SF64sub x x = S754_zero false \/ SF64sub x x = S754_nan.
Proof.
  destruct x as [s|s| |s m e]; cbn.
  - left. now destruct s.
  - right. now destruct s.
  - now right.
  - left. now rewrite Z.sub_diag.
Qed.

Lemma Prim2SF_zero : Prim2SF 0 = S754_zero false.
Proof. reflexivity. Qed.

Lemma Prim2SF_neg_zero : Prim2SF (-0) = S754_zero true.
Proof. reflexivity. Qed.

Lemma Prim2SF_nan : Prim2SF nan = S754_nan.
Proof. reflexivity. Qed.

Lemma sub_swap (x y : float) : y - x = - (x - y) \/ (x - y = 0 /\ y - x = 0).
Proof.
  destruct (SFsub_swap (Prim2SF x) (Prim2SF y)) as [H|[H1 H2]].
  - left. apply Prim2SF_inj. now rewrite FloatAxioms.opp_spec, !FloatAxioms.sub_spec.
  - right. split; apply Prim2SF_inj; now rewrite FloatAxioms.sub_spec, Prim2SF_zero.
Qed.

Lemma sub_diag (x : float) : x - x = 0 \/ x - x = nan.
Proof.
  destruct (SFsub_diag (Prim2SF x)) as [H|H]; [left|right];
    apply Prim2SF_inj; now rewrite FloatAxioms.sub_spec.
Qed.

Lemma sub_nan_r (x : float) : x - nan = nan.
Proof.
  apply Prim2SF_inj. rewrite FloatAxioms.sub_spec, Prim2SF_nan.
  now destruct (Prim2SF x).
Qed.

Lemma sub_nan_l (x : float) : nan - x = nan.
Proof. apply Prim2SF_inj. now rewrite FloatAxioms.sub_spec, Prim2SF_nan. Qed.

Lemma add_nan_l (x : float) : nan + x = nan.
Proof. apply Prim2SF_inj. now rewrite FloatAxioms.add_spec, Prim2SF_nan. Qed.

Lemma add_nan_r (x : float) : x + nan = nan.
Proof.
  apply Prim2SF_inj. rewrite FloatAxioms.add_spec, Prim2SF_nan.
  now destruct (Prim2SF x).
Qed.

Lemma mul_nan_r (x : float) : x * nan = nan.
Proof.
  apply Prim2SF_inj. rewrite FloatAxioms.mul_spec, Prim2SF_nan.
  now destruct (Prim2SF x).
Qed.

(** A product with [+0] is a zero, or NaN when the other factor is
    NaN or infinite. *)
Lemma mul_zero_r (x : float) :
  (x * 0 = nan /\ is_finite x = false) \/ x * 0 = 0 \/ x * 0 = -0.
Proof.
  unfold is_finite, is_nan, is_infinity.
  rewrite !FloatAxioms.eqb_spec, FloatAxioms.abs_spec.
  assert (H : Prim2SF (x * 0) = SF64mul (Prim2SF x) (S754_zero false))
    by now rewrite FloatAxioms.mul_spec.
  destruct (Prim2SF x) as [s|s| |s m e]; cbn in H.
  - right. destruct s; [right|left]; now apply Prim2SF_inj.
  - left. split; [now apply Prim2SF_inj|now destruct s].
  - left. split; [now apply Prim2SF_inj|reflexivity].
  - right. destruct s; [right|left]; now apply Prim2SF_inj.
Qed.

(** The rounding of a mantissa with a positive sign is not negative. *)
Lemma round_not_neg (m e : Z) (l : location) :
  SFltb (binary_round_aux prec emax false m e l) (S754_zero false) = false.
Proof.
  unfold binary_round_aux.
  destruct (shr_fexp prec emax m e l) as [mrs' e'].
  destruct (shr_fexp prec emax _ e' loc_Exact) as [mrs'' e''].
  destruct (shr_m mrs''); try reflexivity.
  now destruct (e'' <=? emax - prec)%Z.
Qed.

(** A square root is NaN, a zero (the zero it was given) or
    positive. *)
Lemma sqrt_cases (a : float) :
  PrimFloat.sqrt a = nan \/ (PrimFloat.sqrt a = -0 /\ a = -0) \/ PrimFloat.sqrt a = 0 \/ (0 <? PrimFloat.sqrt a) = true.
Proof.
  rewrite FloatAxioms.ltb_spec.
  assert (H : Prim2SF (PrimFloat.sqrt a) = SF64sqrt (Prim2SF a)) by apply FloatAxioms.sqrt_spec.
  destruct (Prim2SF a) as [s|s| |s m e] eqn:Ea; cbn in H.
  - destruct s.
    + right. left. split; apply Prim2SF_inj; now rewrite ?H, ?Ea.
    + right. right. left. apply Prim2SF_inj. now rewrite H.
  - destruct s.
    + left. apply Prim2SF_inj. now rewrite H.
    + right. right. right. now rewrite H.
  - left. apply Prim2SF_inj. now rewrite H.
  - destruct s.
    + left. apply Prim2SF_inj. now rewrite H.
    + destruct (SFsqrt_core_binary prec emax (Z.pos m) e) as [[mz ez] lz].
      unfold binary_round_aux in H.
      destruct (shr_fexp prec emax mz ez lz) as [mrs' e'].
      destruct (shr_fexp prec emax _ e' loc_Exact) as [mrs'' e''].
      destruct (shr_m mrs'').
      * right. right. left. apply Prim2SF_inj. now rewrite H.
      * right. right. right. rewrite H.
        now destruct (e'' <=? emax - prec)%Z.
      * left. apply Prim2SF_inj. now rewrite H.
Qed.

(** The product of a positive number and a number that is not
    negative is not negative. *)
Lemma mul_pos_not_neg (k z : float) (mk : positive) (ek : Z) :
  Prim2SF k = S754_finite false mk ek ->
  (z <? 0) = false -> (k * z <? 0) = false.
Proof.
  intros Hk. rewrite !FloatAxioms.ltb_spec, FloatAxioms.mul_spec, Hk, Prim2SF_zero.
  destruct (Prim2SF z) as [s|s| |s m e]; cbn.
  - now destruct s.
  - now destruct s.
  - reflexivity.
  - destruct s; [discriminate|]. intros _. apply round_not_neg.
Qed.

Lemma pos_not_neg (y : float) : (0 <? y) = true -> (y <? 0) = false.
Proof.
  rewrite !FloatAxioms.ltb_spec, Prim2SF_zero.
  destruct (Prim2SF y) as [s|s| |s m e]; cbn; try destruct s; auto; discriminate.
Qed.

(** A number that is not negative is [>= 0] or NaN. *)
Lemma not_neg_cases (d : float) :
  (d <? 0) = false -> (0 <=? d) = true \/ is_nan d = true.
Proof.
  unfold is_nan.
  rewrite FloatAxioms.ltb_spec, FloatAxioms.leb_spec, FloatAxioms.eqb_spec, Prim2SF_zero.
  destruct (Prim2SF d) as [s|s| |s m e]; cbn; try destruct s; auto; discriminate.
Qed.

Lemma sub_diag_finite (x : float) : is_finite x = true -> x - x = 0.
Proof.
  unfold is_finite, is_nan, is_infinity.
  rewrite !FloatAxioms.eqb_spec, FloatAxioms.abs_spec. intros Hf.
  apply Prim2SF_inj. rewrite FloatAxioms.sub_spec, Prim2SF_zero.
  destruct (Prim2SF x) as [s|s| |s m e]; cbn in *.
  - now destruct s.
  - now destruct s.
  - discriminate.
  - now rewrite Z.sub_diag.
Qed.

End FloatFacts.

(** ** The great-circle distance *)

Module DistanceFacts.
Import FloatFacts.

(** The library of the examples meets what is taken from Go's. *)
Lemma lib_GoMath : GoMath Examples.lib.
Proof.
  split; cbn; try reflexivity.
  intros y x [H| ->]; [now apply pos_not_neg|reflexivity].
Qed.

Section Distance.
Variable L : GoLib.
Hypothesis HL : GoMath L.

(** The sine of half the angle of [u] degrees, for [u] and its
    opposite. *)
Lemma half_opp (u : float) :
  math_Sin L (- u * ISSService.Pi / 180 / 2)
  = (- math_Sin L (u * ISSService.Pi / 180 / 2))%float.
Proof. rewrite mul_opp_l, !div_opp_l. apply (Sin_odd L HL). Qed.

Lemma half_sq_swap (x y : float) :
  (math_Sin L ((y - x) * ISSService.Pi / 180 / 2)
   * math_Sin L ((y - x) * ISSService.Pi / 180 / 2)
   = math_Sin L ((x - y) * ISSService.Pi / 180 / 2)
     * math_Sin L ((x - y) * ISSService.Pi / 180 / 2))%float.
Proof.
  destruct (sub_swap x y) as [H|[H1 H2]].
  - rewrite H, half_opp. apply mul_opp_opp.
  - now rewrite H1, H2.
Qed.

Lemma haversineDistance_sym (lat1 lon1 lat2 lon2 : float) :
  ISSService.haversineDistance L lat1 lon1 lat2 lon2
  = ISSService.haversineDistance L lat2 lon2 lat1 lon1.
Proof.
  unfold ISSService.haversineDistance. cbv zeta.
  rewrite (half_sq_swap lat1 lat2).
  rewrite (mul_comm (math_Cos L (lat1 * ISSService.Pi / 180))).
  destruct (sub_swap lon1 lon2) as [H|[H1 H2]].
  - now rewrite H, half_opp, mul_mul_opp.
  - now rewrite H1, H2.
Qed.

(** The last steps of the computation, from the sum [a]. *)
Lemma central_angle_not_neg (a : float) :
  (6371 * (2 * math_Atan2 L (PrimFloat.sqrt a) (PrimFloat.sqrt (1 - a))) <? 0)%float
  = false.
Proof.
  assert (Hk : forall c : float,
            (c <? 0)%float = false -> (6371 * (2 * c) <? 0)%float = false).
  { intros c Hc.
    eapply (mul_pos_not_neg 6371); [vm_compute; reflexivity|].
    eapply (mul_pos_not_neg 2); [vm_compute; reflexivity|exact Hc]. }
  destruct (sqrt_cases a) as [Hn|[[Hz Ha]|[Hz|Hp]]].
  - rewrite Hn, (Atan2_nan L HL). reflexivity.
  - rewrite Hz, Ha.
    change (PrimFloat.sqrt (1 - -0)) with 1%float.
    rewrite (Atan2_neg_zero L HL) by reflexivity. reflexivity.
  - rewrite Hz. apply Hk, (Atan2_sign L HL). now right.
  - apply Hk, (Atan2_sign L HL). now left.
Qed.

Lemma haversineDistance_not_neg (lat1 lon1 lat2 lon2 : float) :
  (ISSService.haversineDistance L lat1 lon1 lat2 lon2 <? 0)%float = false.
Proof. unfold ISSService.haversineDistance. cbv zeta. apply central_angle_not_neg. Qed.

(** The distance once the sum [a] is NaN. *)
Lemma central_angle_nan :
  (6371 * (2 * math_Atan2 L (PrimFloat.sqrt nan) (PrimFloat.sqrt (1 - nan))))%float = nan.
Proof.
  change (PrimFloat.sqrt nan) with nan. rewrite (Atan2_nan L HL). reflexivity.
Qed.

Lemma haversineDistance_nan_lat (lon1 lat2 lon2 : float) :
  ISSService.haversineDistance L nan lon1 lat2 lon2 = nan.
Proof.
  unfold ISSService.haversineDistance. cbv zeta.
  rewrite sub_nan_r.
  change (nan * ISSService.Pi / 180 / 2)%float with nan.
  rewrite (Sin_nan L HL).
  change (nan * nan)%float with nan.
  rewrite add_nan_l. apply central_angle_nan.
Qed.

(** The distance once the sum [a] is [+0]. *)
Lemma central_angle_zero :
  (6371 * (2 * math_Atan2 L (PrimFloat.sqrt 0) (PrimFloat.sqrt (1 - 0))))%float
  = 0%float.
Proof.
  change (PrimFloat.sqrt 0) with 0%float.
  change (PrimFloat.sqrt (1 - 0)) with 1%float.
  rewrite (Atan2_zero L HL) by reflexivity. reflexivity.
Qed.

Lemma haversineDistance_self (lat lon : float) :
  ISSService.haversineDistance L lat lon lat lon = 0%float \/
  ISSService.haversineDistance L lat lon lat lon = nan.
Proof.
  unfold ISSService.haversineDistance. cbv zeta.
  set (p := (math_Cos L _ * math_Cos L _)%float).
  destruct (sub_diag lat) as [E1|E1]; rewrite E1.
  - change (0 * ISSService.Pi / 180 / 2)%float with 0%float.
    rewrite (Sin_zero L HL).
    destruct (sub_diag lon) as [E2|E2]; rewrite E2.
    + change (0 * ISSService.Pi / 180 / 2)%float with 0%float.
      rewrite (Sin_zero L HL).
      destruct (mul_zero_r p) as [[Hn _]|[Hz|Hz]].
      * right. rewrite Hn. apply central_angle_nan.
      * left. rewrite Hz. apply central_angle_zero.
      * left. rewrite Hz. apply central_angle_zero.
    + right.
      change (nan * ISSService.Pi / 180 / 2)%float with nan.
      rewrite (Sin_nan L HL), mul_nan_r.
      change (0 * 0 + nan * nan)%float with nan. apply central_angle_nan.
  - right.
    change (nan * ISSService.Pi / 180 / 2)%float with nan.
    rewrite (Sin_nan L HL).
    change (nan * nan)%float with nan.
    rewrite add_nan_l. apply central_angle_nan.
Qed.

Lemma haversineDistance_self_finite (lat lon : float) :
  is_finite lat = true -> is_finite lon = true ->
  is_finite (math_Cos L (lat * ISSService.Pi / 180)
             * math_Cos L (lat * ISSService.Pi / 180)) = true ->
  ISSService.haversineDistance L lat lon lat lon = 0%float.
Proof.
  intros Hlat Hlon Hcos.
  unfold ISSService.haversineDistance. cbv zeta.
  rewrite (sub_diag_finite lat Hlat), (sub_diag_finite lon Hlon).
  change (0 * ISSService.Pi / 180 / 2)%float with 0%float.
  rewrite (Sin_zero L HL).
  destruct (mul_zero_r (math_Cos L (lat * ISSService.Pi / 180)
                        * math_Cos L (lat * ISSService.Pi / 180)))
    as [[_ Hf]|[Hz|Hz]].
  - rewrite Hf in Hcos. discriminate.
  - rewrite Hz. apply central_angle_zero.
  - rewrite Hz. apply central_angle_zero.
Qed.

End Distance.




End DistanceFacts.
